(** * swagger_meqa: the schema engine, the object store and the test-plan DSL

    A shallow embedding of [meqa/mqswag/db.go] (module [mqswag]) and of
    [mqgo/src/meqa/mqplan/dsl.go] (module [mqplan]), followed by the
    properties of the specification that concern them.

    Conventions of the embedding.
    - A Go function that returns [(T, error)], mutates some state and may
      panic is a computation [M St T]: it maps the state before the call to
      an outcome ([Ok v], [Err e], [Panic msg]) and the state after it.
    - Recursion that follows pointers of the document (schema references)
      is not structural in Go either; such functions take a [fuel] argument
      and answer [OutOfFuel] when it is exhausted.
    - A Go [map] is a [GoMap]: [None] is the nil map (readable, not
      assignable), [Some m] a map made with [make]. A pointer that may be
      nil is an [option], and dereferencing [None] panics.
    - [float64] is Rocq's primitive binary64 float.
    - Calls into libraries that are not part of the repository ([regexp],
      [reggen], [yaml], [json], ...) and the helpers of the repository that
      are not among the sources are fields of the classes [Libs],
      [ErrorText], [PlanLibs] and [Resty]; every theorem holds for every
      implementation of them.
      What the program reads from outside while it runs (random numbers,
      the clock) comes from the [World]. *)

From Stdlib Require Import ZArith Floats Uint63 Ascii String Lia.
From stdpp Require Import gmap strings pretty list fin_maps.

Set Default Proof Using "Type".
Set Warnings "-register-all,-inexact-float".
Open Scope Z_scope.

(** ** The Go runtime *)

Module Go.

(** [mqutil.ErrInvalid], [mqutil.ErrNotFound], [mqutil.ErrInternal].

    Modelled from the spec: package [mqutil] is not among the sources. Its
    error kinds are those of the specification's error taxonomy that the
    sources use (section 7: Invalid, NotFound, Internal); they are distinct
    constants. *)
Inductive ErrKind := ErrInvalid | ErrNotFound | ErrInternal.

(** A Go [error] value: one built by [mqutil.NewError kind msg], or one
    built by [errors.New msg] (also the errors of the libraries). *)
Inductive error :=
| MqError (kind : ErrKind) (msg : string)
| ErrorString (msg : string).

Inductive result (A : Type) : Type :=
| Ok (a : A)
| Err (e : error)
| Panic (msg : string)
| OutOfFuel.
Arguments Ok {A} a.
Arguments Err {A} e.
Arguments Panic {A} msg.
Arguments OutOfFuel {A}.

Definition is_ok {A} (r : result A) : bool :=
  match r with Ok _ => true | _ => false end.

(** Computations over a state [St]. *)
Definition M (St A : Type) : Type := St → result A * St.

Definition ret {St A} (a : A) : M St A := λ s, (Ok a, s).
Definition fail {St A} (e : error) : M St A := λ s, (Err e, s).
Definition panic {St A} (msg : string) : M St A := λ s, (Panic msg, s).
Definition out_of_fuel {St A} : M St A := λ s, (OutOfFuel, s).

Definition bind {St A B} (m : M St A) (k : A → M St B) : M St B :=
  λ s, match m s with
       | (Ok a, s') => k a s'
       | (Err e, s') => (Err e, s')
       | (Panic msg, s') => (Panic msg, s')
       | (OutOfFuel, s') => (OutOfFuel, s')
       end.

(** Sequencing of calls without state. *)
Definition and_then {A B} (r : result A) (k : A → result B) : result B :=
  match r with
  | Ok a => k a
  | Err e => Err e
  | Panic msg => Panic msg
  | OutOfFuel => OutOfFuel
  end.

(** A call whose outcome does not depend on the state. *)
Definition lift {St A} (r : result A) : M St A := λ s, (r, s).

(** A call into a library that reports no error: it returns a value, or it
    panics. *)
Inductive returned (A : Type) : Type :=
| Returns (a : A)
| Panics (msg : string).
Arguments Returns {A} a.
Arguments Panics {A} msg.

Definition call {St A} (r : returned A) : M St A :=
  match r with
  | Returns a => ret a
  | Panics msg => panic msg
  end.

(** [for _, x := range xs { if err := body(x); err != nil { return err } }] *)
Fixpoint for_each {St A} (xs : list A) (body : A → M St unit) : M St unit :=
  match xs with
  | [] => ret tt
  | x :: xs' => bind (body x) (λ _, for_each xs' body)
  end.

(** Maps. *)
Definition GoMap (V : Type) : Type := option (gmap string V).

Definition map_get {V} (m : GoMap V) (k : string) : option V :=
  match m with Some g => g !! k | None => None end.

Definition map_len {V} (m : GoMap V) : Z :=
  match m with Some g => Z.of_nat (size g) | None => 0 end.

(** [m[k] = v]: panics on the nil map. *)
Definition map_set {V} (m : GoMap V) (k : string) (v : V) : result (GoMap V) :=
  match m with
  | Some g => Ok (Some (<[k := v]> g))
  | None => Panic "assignment to entry in nil map"
  end.

(** The 64-bit signed integers, with their wrap-around. *)
Definition wrap64 (z : Z) : Z := (z + 2 ^ 63) mod 2 ^ 64 - 2 ^ 63.

(** [int64(f)] for a [float64]: truncation towards zero. The Go
    specification leaves the result open when the value does not fit;
    this is what amd64 yields (the smallest [int64]). *)
Definition int64_of_float (f : float) : Z :=
  match Prim2SF f with
  | S754_zero _ => 0
  | S754_finite sign m e =>
      let mag := if 0 <=? e then Z.pos m * 2 ^ e else Z.pos m / 2 ^ (- e) in
      let z := if sign then - mag else mag in
      if (- 2 ^ 63 <=? z) && (z <? 2 ^ 63) then z else - 2 ^ 63
  | _ => - 2 ^ 63
  end.

(** [float64(i)] for a non-negative [int64]. *)
Definition float_of_int63 (z : Z) : float := PrimFloat.of_uint63 (Uint63.of_Z z).

(** [a >= b], [a > b] on [float64]. *)
Definition fge (a b : float) : bool := PrimFloat.leb b a.
Definition fgt (a b : float) : bool := PrimFloat.ltb b a.

(** ** package [strings] *)

Fixpoint has_prefix (p s : string) : bool :=
  match p, s with
  | EmptyString, _ => true
  | String a p', String b s' => if Ascii.eqb a b then has_prefix p' s' else false
  | String _ _, EmptyString => false
  end.

(** [strings.Contains(s, substr)] *)
Fixpoint Contains (s substr : string) : bool :=
  has_prefix substr s ||
  match s with
  | EmptyString => false
  | String _ s' => Contains s' substr
  end.

(** [strings.Split(s, sep)] for a non-empty [sep]: [skip] counts the bytes
    of a separator still to drop, [cur] is the chunk being read. *)
Fixpoint split_from (sep s : string) (skip : nat) (cur : string) : list string :=
  match s with
  | EmptyString => [cur]
  | String c s' =>
      match skip with
      | S k => split_from sep s' k cur
      | O =>
          if has_prefix sep s
          then cur :: split_from sep s' (String.length sep - 1) EmptyString
          else split_from sep s' 0 (cur +:+ String c EmptyString)
      end
  end.

Definition Split (s sep : string) : list string := split_from sep s 0 EmptyString.

End Go.
Export Go.

Notation "'let*' x ':=' c 'in' k" := (bind c (λ x, k))
  (at level 10, x pattern, c at level 100, k at level 200).

(** ** Package [mqswag], file [db.go] *)

Module mqswag.

(** A Go [interface{}] holding decoded JSON, by dynamic type. *)
Inductive ForeignKind :=
| FMap                                   (* a map of another type *)
| FSlice                                 (* an array or a slice of another type *)
| FFloat32 (f : float)                   (* a float32, by its value *)
| FOther (kind : string).                (* a value of another kind, by its name *)

Inductive Interface :=
| VNil                                   (* the nil interface *)
| VBool (b : bool)
| VInt (i : Z)                           (* the kinds Int .. Uint64 *)
| VFloat (f : float)                     (* float64 *)
| VString (s : string)
| VNumber (s : string)                   (* json.Number, of kind String *)
| VMap (m : GoMap Interface)             (* map[string]interface{} *)
| VArray (l : list Interface)            (* []interface{} *)
| VForeign (k : ForeignKind).            (* any other dynamic type *)

(** [*Schema]: the identity of a schema object of the loaded document.
    Several [SchemaRef]s may point to the same schema, and the pointers
    may form cycles. *)
Definition addr := positive.

(** [openapi3.SchemaRef]. [Ref] stands for the reference by the name of
    the schema that it points to, as [GetReferredSchema] reads it (empty
    when the node is no reference); [Value] is the schema pointer ([None] is
    nil). *)
Record SchemaRef := mkSchemaRef {
  Ref : string;
  Value : option addr
}.

(** [openapi3.Schema], the fields that [db.go] reads. *)
Record Schema := mkSchema {
  Type_ : string;
  Description : string;
  Properties : gmap string SchemaRef;
  Required : list string;
  AllOf : list SchemaRef;
  Items : option SchemaRef;
  Min : option float;
  Max : option float;
  MinLength : Z;
  MaxLength : option Z;
  Pattern : string
}.

(** The loaded document: the schema objects by identity, and
    [Components.Schemas]. *)
Record Swagger := mkSwagger {
  Heap : addr → Schema;
  Schemas : gmap string SchemaRef
}.

(** The tag that [GetMeqaTag] reads out of a description. *)
Record MeqaTag := mkMeqaTag { Class : string;
  Property : string;
  Operation : string;
  Flags : Z
}.

(** The [gojsonschema.TYPE_*] constants. *)
Definition TYPE_ARRAY := "array".
Definition TYPE_BOOLEAN := "boolean".
Definition TYPE_INTEGER := "integer".
Definition TYPE_NUMBER := "number".
Definition TYPE_OBJECT := "object".
Definition TYPE_STRING := "string".

(** *** What [db.go] calls and does not define *)

Class Libs := {
  (** [range m]: the order in which a Go [for ... range] visits a map,
      some enumeration of its entries. Go draws the order anew for every
      loop; here a map has one order for an instance of the class, every
      theorem holds for every instance, and [with_range] below gives the
      same libraries another order. *)
  range : ∀ V, gmap string V → list (string * V);
  range_perm : ∀ V (m : gmap string V), range V m ≡ₚ map_to_list m;
  (** [GetMeqaTag] and [FlagWeak] (file [swagger.go] of the package). *)
  GetMeqaTag : string → option MeqaTag;
  FlagWeak : Z;
  (** [json.MarshalIndent] of a schema and of an object, for diagnostics. *)
  marshal_schema : Swagger → SchemaRef → string;
  marshal_object : Interface → string;
  (** [utf8.RuneCountInString], [regexp.MatchString] (false when the
      pattern does not compile), [fmt.Sprint]. *)
  RuneCountInString : string → nat;
  MatchString : string → string → bool;
  Sprint : Interface → string;
  (** [mqutil.InterfaceEquals], and the map that [mqutil.MapCombine dst src]
      leaves in [dst]. *)
  InterfaceEquals : Interface → Interface → bool;
  MapCombine : GoMap Interface → GoMap Interface → GoMap Interface
}.
Arguments range {_ V} m.
Arguments range_perm {_ V} m.

(** The same libraries, with another order of iteration over maps. *)
Definition with_range (libs : Libs) (order : ∀ V, gmap string V → list (string * V))
  (order_perm : ∀ V (m : gmap string V), order V m ≡ₚ map_to_list m) : Libs := {|
  range := order;
  range_perm := order_perm;
  GetMeqaTag := @GetMeqaTag libs;
  FlagWeak := @FlagWeak libs;
  marshal_schema := @marshal_schema libs;
  marshal_object := @marshal_object libs;
  RuneCountInString := @RuneCountInString libs;
  MatchString := @MatchString libs;
  Sprint := @Sprint libs;
  InterfaceEquals := @InterfaceEquals libs;
  MapCombine := @MapCombine libs
|}.

(** [mqutil.NewError]. *)
Definition NewError (kind : ErrKind) (msg : string) : error := MqError kind msg.

Section db.
Context `{Libs}.

(** Dereferencing a schema pointer: [schema.Value.X] panics on nil. *)
Definition deref {St} (swagger : Swagger) (p : option addr) : M St Schema :=
  match p with
  | Some a => ret (Heap swagger a)
  | None => panic "invalid memory address or nil pointer dereference"
  end.

(** Modelled from the spec: [Swagger.GetReferredSchema] is in
    [swagger.go], which is not among the sources. Section 3: a
    [Reference{name}] "resolves, via the external document, to a named
    top-level SchemaNode". A node that is no reference yields the empty
    name and the empty [SchemaRef] (whose [Value] is nil); a reference
    to a registered schema yields its name and that schema; a reference
    to an unknown name is an error (section 7: NotFound is the kind of
    an "unknown schema name"). *)
Definition GetReferredSchema (swagger : Swagger) (schema : SchemaRef)
  : result (string * SchemaRef) :=
  if decide (Ref schema = "") then Ok ("", mkSchemaRef "" None)
  else match Schemas swagger !! Ref schema with
       | Some referred => Ok (Ref schema, referred)
       | None => Err (NewError ErrNotFound ("Reference object not found: " +:+ Ref schema))
       end.

(** [tag != nil && (tag.Flags&FlagWeak) != 0] *)
Definition tagged_weak (description : string) : bool :=
  match GetMeqaTag description with
  | Some tag => negb (Z.land (Flags tag) FlagWeak =? 0)
  | None => false
  end.

(** [SchemaRef.GetProperties], db.go:27-50. The result is only read, so
    the nil map is the empty map. *)
Fixpoint GetProperties (fuel : nat) (schema : SchemaRef) (swagger : Swagger)
  : result (gmap string SchemaRef) :=
  match fuel with
  | O => OutOfFuel
  | S fuel' =>
    match Value schema with
    | None => Panic "invalid memory address or nil pointer dereference"
    | Some a =>
      let sv := Heap swagger a in
      if (0 <? size (Properties sv))%nat then Ok (Properties sv)
      else match GetReferredSchema swagger schema with
      | Ok (_, referredSchema) =>
        if bool_decide (is_Some (Value referredSchema))
        then GetProperties fuel' referredSchema swagger
        else if (0 <? length (AllOf sv))%nat then
          (fix all_of (parts : list SchemaRef) (properties : gmap string SchemaRef) :=
             match parts with
             | [] => Ok properties
             | s :: parts' =>
               match GetProperties fuel' s swagger with
               | Ok p =>
                 all_of parts'
                   (foldl (λ acc kv, <[kv.1 := kv.2]> acc) properties (range p))
               | other => other
               end
             end) (AllOf sv) ∅
        else Ok ∅
      | Err _ => Ok ∅
      | Panic msg => Panic msg
      | OutOfFuel => OutOfFuel
      end
    end
  end.

(** [raiseError], db.go:56-62. *)
Definition raiseError (swagger : Swagger) (schema : SchemaRef) (object : Interface)
  (msg : string) : error :=
  ErrorString ("schema and object don't match - " +:+ msg +:+ "
Schema:
" +:+ marshal_schema swagger schema +:+ "
Object:
" +:+ marshal_object object +:+ "
").

(** [Validate], db.go:293-310. The type assertions [c.(string)] and
    [c.(float64)] panic on a value of another dynamic type; [||] and
    [&&] evaluate their right operand only when needed. *)
Definition Validate (swagger : Swagger) (s : SchemaRef) (c : Interface) : result bool :=
  match Value s with
  | None => Panic "invalid memory address or nil pointer dereference"
  | Some a =>
    let sv := Heap swagger a in
    let pattern_ok :=
      if (0 <? String.length (Pattern sv))%nat
      then MatchString (Pattern sv) (Sprint c)
      else true in
    if decide (Type_ sv = TYPE_STRING) then
      match c with
      | VString str =>
        let length := Z.of_nat (RuneCountInString str) in
        if (length <? MinLength sv)
           || match MaxLength sv with Some mx => mx <? length | None => false end
        then Ok false
        else Ok pattern_ok
      | _ => Panic "interface conversion: interface {} is not string"
      end
    else if bool_decide (Type_ sv = TYPE_NUMBER ∨ Type_ sv = TYPE_INTEGER) then
      let float64 : result float :=
        match c with
        | VFloat f => Ok f
        | _ => Panic "interface conversion: interface {} is not float64"
        end in
      and_then
        (match Min sv with
         | Some mn => and_then float64 (λ f, Ok (fgt mn f))
         | None => Ok false
         end)
        (λ below,
           if below then Ok false
           else and_then
                  (match Max sv with
                   | Some mx => and_then float64 (λ f, Ok (fgt f mx))
                   | None => Ok false
                   end)
                  (λ above, if above then Ok false else Ok pattern_ok))
    else Ok pattern_ok
  end.

Definition Collection := GoMap (list Interface).

(** [collection[key] = append(collection[key], object)] *)
Definition collect (key : string) (object : Interface) : M Collection unit :=
  λ collection,
    match map_set collection key (default [] (map_get collection key) ++ [object]) with
    | Ok collection' => (Ok tt, collection')
    | Err e => (Err e, collection)
    | Panic msg => (Panic msg, collection)
    | OutOfFuel => (OutOfFuel, collection)
    end.

(** [if !Validate(schema, object) { return raiseError(msg) }] *)
Definition validated (swagger : Swagger) (schema : SchemaRef) (object : Interface)
  (msg : string) : M Collection unit :=
  let* ok := lift (Validate swagger schema object) in
  if ok then ret tt else fail (raiseError swagger schema object msg).

(** The tail of [Parses] for a property, db.go:199-205. *)
Definition collect_property (sv : Schema) (object : Interface) (followRef : bool)
  : M Collection unit :=
  if negb followRef then
    match GetMeqaTag (Description sv) with
    | Some tag =>
      if (0 <? String.length (Class tag))%nat && (0 <? String.length (Property tag))%nat
      then collect (Class tag +:+ "." +:+ Property tag) object
      else ret tt
    | None => ret tt
    end
  else ret tt.

(** The loop over the members of a composite in [SchemaRef.Parses],
    db.go:85-102: [count] keeps track of how many of the object's properties
    are accounted for. *)
Fixpoint all_of_loop
  (parses : SchemaRef → string → Interface → bool → Swagger → M Collection unit)
  (properties : SchemaRef → Swagger → result (gmap string SchemaRef))
  (objMap : gmap string Interface) (followRef : bool) (swagger : Swagger)
  (parts : list SchemaRef) (count : Z) : M Collection Z :=
  match parts with
  | [] => ret count
  | s :: parts' =>
    let* p := lift (properties s swagger) in
    if (size p =? 0)%nat
    then all_of_loop parses properties objMap followRef swagger parts' count
    else
      let '(m, count') :=
        foldl (λ '(m, count) kv,
                 match objMap !! kv.1 with
                 | Some v => (<[kv.1 := v]> m, count + 1)
                 | None => (m, count)
                 end) (∅, count) (range p) in
      (* The name doesn't get passed down. The name is handled at the
         current level. *)
      let* _ := parses s "" (VMap (Some m)) followRef swagger in
      all_of_loop parses properties objMap followRef swagger parts' count'
  end.

(** The loop over the fields of an object in [SchemaRef.Parses],
    db.go:161-170. *)
Fixpoint fields_loop
  (parses : SchemaRef → string → Interface → bool → Swagger → M Collection unit)
  (sv : Schema) (followRef : bool) (swagger : Swagger)
  (fields : list (string * Interface)) (count : Z) : M Collection Z :=
  match fields with
  | [] => ret count
  | (propertyName, objProperty) :: fields' =>
    match Properties sv !! propertyName with
    | Some propertySchema =>
      let* _ := parses propertySchema "" objProperty followRef swagger in
      fields_loop parses sv followRef swagger fields' (count + 1)
    | None => fields_loop parses sv followRef swagger fields' count
    end
  end.

(** The body of [SchemaRef.Parses], db.go:55-207; [parses] stands for
    the recursive calls and [properties] for the calls of
    [GetProperties]. *)
Definition Parses_body
  (parses : SchemaRef → string → Interface → bool → Swagger → M Collection unit)
  (properties : SchemaRef → Swagger → result (gmap string SchemaRef))
  (schema : SchemaRef) (name : string) (object : Interface) (followRef : bool)
  (swagger : Swagger) : M Collection unit :=
  let raise {A} msg : M Collection A := fail (raiseError swagger schema object msg) in
  match object with
  | VNil => ret tt
  | _ =>
  let* (refName, referredSchema) := lift (GetReferredSchema swagger schema) in
  if bool_decide (is_Some (Value referredSchema)) then
    if negb followRef then ret tt
    else parses referredSchema refName object followRef swagger
  else
  let* sv := deref swagger (Value schema) in
  if (0 <? length (AllOf sv))%nat then
    (* AllOf can only be combining several objects. *)
    match object with
    | VMap (Some objMap) =>
      let* count :=
        all_of_loop parses properties objMap followRef swagger (AllOf sv) 0 in
      if count * 4 <? Z.of_nat (size objMap) * 3
      then raise "too many mismatched fields"
      else if (0 <? String.length name)%nat then collect name object else ret tt
    | _ => raise "object is not a map"
    end
  else
  match object with
  | VNil => ret tt
  | VBool _ =>
    if negb (Contains (Type_ sv) TYPE_BOOLEAN) then raise "schema is not a boolean"
    else collect_property sv object followRef
  | VInt _ =>
    if negb (Contains (Type_ sv) TYPE_INTEGER) && negb (Contains (Type_ sv) TYPE_NUMBER)
    then raise "schema is not an integer"
    else
      let* _ := validated swagger schema object "integer validation failed" in
      collect_property sv object followRef
  | VFloat _ | VForeign (FFloat32 _) =>
    if negb (Contains (Type_ sv) TYPE_INTEGER) && negb (Contains (Type_ sv) TYPE_NUMBER)
    then raise "schema is not a floating point number"
    else
      let* _ := validated swagger schema object "float validation failed" in
      collect_property sv object followRef
  | VString _ | VNumber _ =>
    let bothAreNumbers :=
      match object with VNumber _ => true | _ => false end
      && (Contains (Type_ sv) TYPE_INTEGER || Contains (Type_ sv) TYPE_NUMBER) in
    if Contains (Type_ sv) TYPE_STRING then
      let* _ := validated swagger schema object "string validation failed" in
      collect_property sv object followRef
    else if negb bothAreNumbers then raise "schema is not a number"
    else collect_property sv object followRef
  | VMap objMap =>
    let* _ :=
      for_each (Required sv) (λ requiredName,
        if bool_decide (is_Some (map_get objMap requiredName)) then ret tt
        else raise ("required field not present: " +:+ requiredName)) in
    (* Check all the properties of the object and make sure that they
       can be found on the schema. *)
    let* count :=
      fields_loop parses sv followRef swagger
        (match objMap with Some g => range g | None => [] end) 0 in
    if count * 4 <? map_len objMap * 3 then raise "too many mis-matched fields"
    else if (0 <? String.length name)%nat then collect name object else ret tt
  | VForeign FMap => raise "schema is not an object"
  | VArray ar =>
    if negb (Contains (Type_ sv) TYPE_ARRAY) then raise "schema is not an array"
    else
      match Items sv with
      | None => panic "invalid memory address or nil pointer dereference"
      | Some itemsSchema =>
        if bool_decide (Value itemsSchema = None) then raise "item schema is null"
        else for_each ar (λ item, parses itemsSchema "" item followRef swagger)
      end
  | VForeign FSlice =>
    if negb (Contains (Type_ sv) TYPE_ARRAY) then raise "schema is not an array"
    else
      match Items sv with
      | None => panic "invalid memory address or nil pointer dereference"
      | Some itemsSchema =>
        if bool_decide (Value itemsSchema = None) then raise "item schema is null"
        else panic "interface conversion: interface {} is not []interface {}"
      end
  | VForeign (FOther kind) => raise ("unknown type: " +:+ kind)
  end
  end.

Fixpoint Parses (fuel : nat) (schema : SchemaRef) (name : string) (object : Interface)
  (followRef : bool) (swagger : Swagger) : M Collection unit :=
  match fuel with
  | O => out_of_fuel
  | S fuel' =>
    Parses_body (Parses fuel') (GetProperties fuel') schema name object followRef swagger
  end.

(** [SchemaRef.Matches], db.go:212-215. *)
Definition Matches (fuel : nat) (schema : SchemaRef) (object : Interface)
  (swagger : Swagger) : result bool :=
  match fst (Parses fuel schema "" object true swagger (Some ∅)) with
  | Ok _ => Ok true
  | Err _ => Ok false
  | Panic msg => Panic msg
  | OutOfFuel => OutOfFuel
  end.

(** *** The threshold on recognized fields

    The fields of an object that a schema declares, the part of an object
    that a member of a composite with the properties [p] is given, and an
    object that parses whatever has been collected so far. *)
Definition recognized (sv : Schema) (objMap : gmap string Interface)
  : gmap string Interface :=
  filter (λ kv, is_Some (Properties sv !! kv.1)) objMap.

Definition sub_object (p : gmap string SchemaRef) (objMap : gmap string Interface)
  : gmap string Interface :=
  filter (λ kv, is_Some (p !! kv.1)) objMap.

Definition parses_ok (fuel : nat) (schema : SchemaRef) (object : Interface)
  (followRef : bool) (swagger : Swagger) : Prop :=
  ∀ collected, ∃ collected',
    Parses fuel schema "" object followRef swagger (Some collected)
    = (Ok tt, Some collected').

(** A member [s] of a composite has the properties [p] and, unless it has
    none, parses the part of the object that it is given; and the number of
    fields that the members with the properties [ps] account for, a field
    counting once for every member that declares it. *)
Definition member_ok (fuel : nat) (objMap : gmap string Interface) (followRef : bool)
  (swagger : Swagger) (s : SchemaRef) (p : gmap string SchemaRef) : Prop :=
  GetProperties fuel s swagger = Ok p
  ∧ (size p ≠ 0%nat →
     parses_ok fuel s (VMap (Some (sub_object p objMap))) followRef swagger).

Definition accounted (objMap : gmap string Interface) (ps : list (gmap string SchemaRef))
  : nat :=
  sum_list ((λ p, size (sub_object p objMap)) <$> ps).

(** The fields of an object that some member of a composite declares, the
    members having the properties [ps]; and members that declare no field of
    the object twice. *)
Definition declared (ps : list (gmap string SchemaRef)) (objMap : gmap string Interface)
  : gmap string Interface :=
  filter (λ kv, Exists (λ p, is_Some (p !! kv.1)) ps) objMap.

Definition declared_once (ps : list (gmap string SchemaRef))
  (objMap : gmap string Interface) : Prop :=
  ∀ i j p q k,
    ps !! i = Some p → ps !! j = Some q → i ≠ j →
    is_Some (objMap !! k) → is_Some (p !! k) → ¬ is_Some (q !! k).

(** [SchemaIterator]: the visitor, which may change what [context]
    points to. *)
Definition SchemaIterator (Ctx : Type) : Type :=
  Swagger → string → SchemaRef → M Ctx unit.

(** The body of [SchemaRef.Iterate], db.go:238-291; [iterate] stands for
    the recursive calls. *)
Definition Iterate_body {Ctx} (iterate : SchemaRef → M Ctx unit)
  (schema : SchemaRef) (iterFunc : SchemaIterator Ctx) (swagger : Swagger)
  (followWeak : bool) : M Ctx unit :=
  let* sv := deref swagger (Value schema) in
  if tagged_weak (Description sv) && negb followWeak then ret tt
  else
  let* _ := iterFunc swagger "" schema in
  if (0 <? length (AllOf sv))%nat then for_each (AllOf sv) iterate
  else
  (* Deal with refs. *)
  let* (referenceName, referredSchema) := lift (GetReferredSchema swagger schema) in
  match Value referredSchema with
  | Some referred =>
    if tagged_weak (Description (Heap swagger referred)) && negb followWeak then ret tt
    else
      (* We don't want to go down nested schemas. *)
      iterFunc swagger referenceName referredSchema
  | None =>
    let* _ :=
      if Contains (Type_ sv) TYPE_OBJECT
      then for_each (range (Properties sv)) (λ kv, iterate kv.2)
      else ret tt in
    if Contains (Type_ sv) TYPE_ARRAY then
      match Items sv with
      | None => panic "invalid memory address or nil pointer dereference"
      | Some itemSchema => iterate itemSchema
      end
    else ret tt
  end.

Fixpoint Iterate {Ctx} (fuel : nat) (schema : SchemaRef) (iterFunc : SchemaIterator Ctx)
  (swagger : Swagger) (followWeak : bool) : M Ctx unit :=
  match fuel with
  | O => out_of_fuel
  | S fuel' =>
    Iterate_body (λ s, Iterate fuel' s iterFunc swagger followWeak)
      schema iterFunc swagger followWeak
  end.

(** *** Weak edges

    A node whose schema is tagged Weak; the visitor that records its calls,
    and the number of recorded calls on a node that points to the schema at
    [a]. *)
Definition weak_node (swagger : Swagger) (schema : SchemaRef) : bool :=
  match Value schema with
  | Some a => tagged_weak (Description (Heap swagger a))
  | None => false
  end.

Definition record : SchemaIterator (list (string * SchemaRef)) :=
  λ _ schemaName schema log, (Ok tt, log ++ [(schemaName, schema)]).

Definition visits (a : addr) (log : list (string * SchemaRef)) : nat :=
  length (filter (λ call, Value call.2 = Some a) log).

(** What [Iterate] goes on to after the call of the visitor on [schema]
    stays away from the schema at [target]: the members, the referred
    schema, the properties and the items, as [avoids] judges them. *)
Definition expands_away (avoids : SchemaRef → bool) (swagger : Swagger) (target : addr)
  (schema : SchemaRef) (sv : Schema) : bool :=
  if (0 <? length (AllOf sv))%nat then forallb avoids (AllOf sv)
  else
    match GetReferredSchema swagger schema with
    | Ok (_, referredSchema) =>
      match Value referredSchema with
      | Some referred =>
        tagged_weak (Description (Heap swagger referred))
        || negb (bool_decide (referred = target))
      | None =>
        (if Contains (Type_ sv) TYPE_OBJECT
         then forallb (λ kv, avoids kv.2) (map_to_list (Properties sv))
         else true)
        && (if Contains (Type_ sv) TYPE_ARRAY
            then match Items sv with
                 | Some itemSchema => avoids itemSchema
                 | None => true
                 end
            else true)
      end
    | _ => true
    end.

(** [avoids h swagger target schema]: every path from [schema] towards a
    node that points to the schema at [target] meets a node tagged Weak
    first, and the paths that meet none are shorter than [h] (a nil pointer,
    on which [Iterate] panics, ends a path). *)
Fixpoint avoids (h : nat) (swagger : Swagger) (target : addr) (schema : SchemaRef) : bool :=
  match h with
  | O => false
  | S h' =>
    match Value schema with
    | None => true
    | Some a =>
      tagged_weak (Description (Heap swagger a))
      || (negb (bool_decide (a = target))
          && expands_away (avoids h' swagger target) swagger target schema (Heap swagger a))
    end
  end.

(** *** The object store *)

Record DBEntry := mkDBEntry {
  Data : GoMap Interface;                  (* The object itself. *)
  Associations : GoMap (GoMap Interface)   (* Class to object map. *)
}.

(** [for k, v := range m] over a map that may be nil. *)
Definition range_map {V} (m : GoMap V) : list (string * V) :=
  match m with Some g => range g | None => [] end.

(** [MatchFunc] *)
Definition MatchFunc : Type := Interface → Interface → bool.

Definition MatchAlways : MatchFunc := λ _ _, true.

(** [DBEntry.Matches], db.go:317-324. A class that the entry does not
    record reads as the nil map. *)
Definition DBEntry_Matches (entry : DBEntry) (criteria : Interface)
  (associations : GoMap (GoMap Interface)) (matches : MatchFunc) : bool :=
  forallb (λ kv, InterfaceEquals (VMap kv.2)
                   (VMap (default None (map_get (Associations entry) kv.1))))
          (range_map associations)
  && matches criteria (VMap (Data entry)).

(** [SchemaDB]. The entries are held by value: the sharing of [Data]
    maps between entries and callers is not tracked. *)
Record SchemaDB := mkSchemaDB {
  Name : string;
  DBSchema : SchemaRef;
  NoHistory : bool;
  Objects : list DBEntry
}.

Definition set_Objects (db : SchemaDB) (objects : list DBEntry) : SchemaDB :=
  mkSchemaDB (Name db) (DBSchema db) (NoHistory db) objects.

(** [SchemaDB.Insert], db.go:336-342. *)
Definition SchemaDB_Insert (obj : Interface) (associations : GoMap (GoMap Interface))
  : M SchemaDB unit :=
  λ db,
    if negb (NoHistory db) then
      match obj with
      | VMap data =>
        (Ok tt, set_Objects db (Objects db ++ [mkDBEntry data associations]))
      | _ => (Panic "interface conversion: interface {} is not map[string]interface {}", db)
      end
    else (Ok tt, db).

(** [SchemaDB.CloneSchema], db.go:352-354. *)
Definition SchemaDB_CloneSchema (db : SchemaDB) : SchemaDB :=
  mkSchemaDB (Name db) (DBSchema db) (NoHistory db) [].

(** [SchemaDB.Find], db.go:357-368. *)
Definition SchemaDB_Find (criteria : Interface) (associations : GoMap (GoMap Interface))
  (matches : MatchFunc) (desiredCount : Z) (db : SchemaDB) : list Interface :=
  (fix loop (entries : list DBEntry) (result : list Interface) : list Interface :=
     match entries with
     | [] => result
     | entry :: entries' =>
       if DBEntry_Matches entry criteria associations matches then
         let result := result ++ [VMap (Data entry)] in
         if (0 <=? desiredCount) && (desiredCount <=? Z.of_nat (length result))
         then result
         else loop entries' result
       else loop entries' result
     end) (Objects db) [].

(** The loop of [SchemaDB.Delete], db.go:374-382: [todo] iterations are
    left, the next one reads index [i]. *)
Fixpoint delete_loop (criteria : Interface) (associations : GoMap (GoMap Interface))
  (matches : MatchFunc) (desiredCount : Z) (todo i : nat)
  (objects : list DBEntry) (count : nat) : list DBEntry * nat :=
  match todo with
  | O => (objects, count)
  | S todo' =>
    match objects !! i with
    | None => (objects, count)
    | Some entry =>
      if DBEntry_Matches entry criteria associations matches then
        let objects :=
          match objects !! count with
          | Some moved => <[i := moved]> objects
          | None => objects
          end in
        let count := S count in
        if (0 <=? desiredCount) && (desiredCount <=? Z.of_nat count)
        then (objects, count)
        else delete_loop criteria associations matches desiredCount todo' (S i) objects count
      else delete_loop criteria associations matches desiredCount todo' (S i) objects count
    end
  end.

(** [SchemaDB.Delete], db.go:372-385. *)
Definition SchemaDB_Delete (criteria : Interface) (associations : GoMap (GoMap Interface))
  (matches : MatchFunc) (desiredCount : Z) : M SchemaDB Z :=
  λ db,
    let '(objects, count) :=
      delete_loop criteria associations matches desiredCount
        (length (Objects db)) 0 (Objects db) 0 in
    (Ok (Z.of_nat count), set_Objects db (drop count objects)).

(** The loop of [SchemaDB.Update], db.go:392-404. Without [patch] the entry
    gets the new object. With [patch], [MapCombine] changes the map of the
    entry in place: the entry of the model gets the combined map, and what
    the change does to another entry or to a caller that shares the map is
    not tracked. *)
Fixpoint update_loop (criteria : Interface) (associations : GoMap (GoMap Interface))
  (matches : MatchFunc) (newObj : GoMap Interface) (desiredCount : Z) (patch : bool)
  (entries : list DBEntry) (count : Z) : list DBEntry * Z :=
  match entries with
  | [] => ([], count)
  | entry :: entries' =>
    if DBEntry_Matches entry criteria associations matches then
      let entry :=
        if patch then mkDBEntry (MapCombine (Data entry) newObj) (Associations entry)
        else mkDBEntry newObj (Associations entry) in
      let count := count + 1 in
      if (0 <=? desiredCount) && (desiredCount <=? count)
      then (entry :: entries', count)
      else
        let '(rest, count) :=
          update_loop criteria associations matches newObj desiredCount patch
            entries' count in
        (entry :: rest, count)
    else
      let '(rest, count) :=
        update_loop criteria associations matches newObj desiredCount patch
          entries' count in
      (entry :: rest, count)
  end.

(** [SchemaDB.Update], db.go:388-406. *)
Definition SchemaDB_Update (criteria : Interface) (associations : GoMap (GoMap Interface))
  (matches : MatchFunc) (newObj : GoMap Interface) (desiredCount : Z) (patch : bool)
  : M SchemaDB Z :=
  λ db,
    let '(objects, count) :=
      update_loop criteria associations matches newObj desiredCount patch
        (Objects db) 0 in
    (Ok count, set_Objects db objects).

(** [DB]. The methods below hold [db.mutex] from entry to return; the
    embedding runs one call at a time. *)
Record DB := mkDB {
  schemas : gmap string SchemaDB;
  DBSwagger : option Swagger
}.

Definition set_schema (db : DB) (name : string) (sdb : SchemaDB) : DB :=
  mkDB (<[name := sdb]> (schemas db)) (DBSwagger db).

(** [DB.Init], db.go:418-429. *)
Definition Init (s : Swagger) : M DB unit :=
  λ _,
    (Ok tt,
     mkDB (foldl (λ schemas kv, <[kv.1 := mkSchemaDB kv.1 kv.2 false []]> schemas)
             ∅ (range (Schemas s)))
          (Some s)).

(** [DB.CloneSchema], db.go:432-438. *)
Definition CloneSchema (db : DB) : DB :=
  mkDB (foldl (λ schemas kv, <[kv.1 := SchemaDB_CloneSchema kv.2]> schemas)
          ∅ (range (schemas db)))
       (DBSwagger db).

(** [DB.GetSchema], db.go:440-447. *)
Definition GetSchema (name : string) (db : DB) : SchemaRef :=
  match schemas db !! name with
  | None => mkSchemaRef "" None
  | Some sdb => DBSchema sdb
  end.

(** [CopyWithoutClass], db.go:449-457. *)
Definition CopyWithoutClass (src : GoMap (GoMap Interface)) (className : string)
  : GoMap (GoMap Interface) :=
  Some (foldl (λ dst kv, if decide (kv.1 ≠ className) then <[kv.1 := kv.2]> dst else dst)
          ∅ (range_map src)).

(** Running a method of the collection [sdb] registered under [name]. *)
Definition on_schema {A} (name : string) (sdb : SchemaDB) (m : M SchemaDB A) : M DB A :=
  λ db, let '(r, sdb') := m sdb in (r, set_schema db name sdb').

(** [DB.Insert], db.go:459-467. *)
Definition Insert (name : string) (obj : Interface)
  (associations : GoMap (GoMap Interface)) : M DB unit :=
  λ db,
    match schemas db !! name with
    | None =>
      (Err (NewError ErrInternal ("inserting into non-existing schema: " +:+ name)), db)
    | Some sdb =>
      on_schema name sdb (SchemaDB_Insert obj (CopyWithoutClass associations name)) db
    end.

(** [DB.Find], db.go:469-479. *)
Definition Find (name : string) (criteria : Interface)
  (associations : GoMap (GoMap Interface)) (matches : MatchFunc) (desiredCount : Z)
  : M DB (list Interface) :=
  λ db,
    match schemas db !! name with
    | None => (Ok [], db)
    | Some sdb =>
      (Ok (SchemaDB_Find criteria (CopyWithoutClass associations name) matches
             desiredCount sdb), db)
    end.

(** [DB.Delete], db.go:481-491. *)
Definition Delete (name : string) (criteria : Interface)
  (associations : GoMap (GoMap Interface)) (matches : MatchFunc) (desiredCount : Z)
  : M DB Z :=
  λ db,
    match schemas db !! name with
    | None => (Ok 0, db)
    | Some sdb =>
      on_schema name sdb
        (SchemaDB_Delete criteria (CopyWithoutClass associations name) matches
           desiredCount) db
    end.

(** [DB.Update], db.go:493-503. *)
Definition Update (name : string) (criteria : Interface)
  (associations : GoMap (GoMap Interface)) (matches : MatchFunc)
  (newObj : GoMap Interface) (desiredCount : Z) (patch : bool) : M DB Z :=
  λ db,
    match schemas db !! name with
    | None => (Ok 0, db)
    | Some sdb =>
      on_schema name sdb
        (SchemaDB_Update criteria (CopyWithoutClass associations name) matches
           newObj desiredCount patch) db
    end.

(** *** Isolation of associations

    An entry is isolated from class [name] when it records no association
    under [name]; a store is isolated when every entry of every collection
    is isolated from the collection's own name. *)
Definition isolated (name : string) (entry : DBEntry) : Prop :=
  map_get (Associations entry) name = None.

Definition store_isolated (db : DB) : Prop :=
  ∀ name sdb, schemas db !! name = Some sdb → Forall (isolated name) (Objects sdb).

(** The stores that the operations of [DB] produce, from any store that
    [Init] has set up. *)
Inductive reachable : DB → Prop :=
| reach_Init s db0 : reachable (Init s db0).2
| reach_CloneSchema db : reachable db → reachable (CloneSchema db)
| reach_Insert db name obj associations :
    reachable db → reachable (Insert name obj associations db).2
| reach_Find db name criteria associations matches desiredCount :
    reachable db → reachable (Find name criteria associations matches desiredCount db).2
| reach_Delete db name criteria associations matches desiredCount :
    reachable db → reachable (Delete name criteria associations matches desiredCount db).2
| reach_Update db name criteria associations matches newObj desiredCount patch :
    reachable db →
    reachable (Update name criteria associations matches newObj desiredCount patch db).2.

End db.

(** *** Queries over the document and the store *)

(** [err.Error()]: the message of an error made by [errors.New]; what
    [mqutil] prints for an error of its own is a parameter. *)
Class ErrorText := {
  mq_Error : ErrKind → string → string
}.

Section queries.
Context `{Libs} `{ErrorText}.

Definition Error (e : error) : string :=
  match e with
  | ErrorString msg => msg
  | MqError kind msg => mq_Error kind msg
  end.

(** The visitor of [SchemaRef.Contains], db.go:218-224. The only way it has
    to abort is through an error. *)
Definition found (name : string) : SchemaIterator unit :=
  λ _ schemaName _,
    if decide (schemaName = name) then fail (ErrorString "found") else ret tt.

(** [SchemaRef.Contains], db.go:217-231. *)
Definition SchemaRef_Contains (fuel : nat) (schema : SchemaRef) (name : string)
  (swagger : Swagger) : result bool :=
  match fst (Iterate fuel schema (found name) swagger true tt) with
  | Ok _ => Ok false
  | Err err => Ok (bool_decide (Error err = "found"))
  | Panic msg => Panic msg
  | OutOfFuel => OutOfFuel
  end.

(** The loop of [DB.FindMatchingSchema], db.go:507-513, over the
    collections in the order of the iteration. *)
Fixpoint matching_loop (fuel : nat) (obj : Interface) (swagger : Swagger)
  (collections : list (string * SchemaDB)) : result (string * SchemaRef) :=
  match collections with
  | [] => Ok ("", mkSchemaRef "" None)
  | (name, schemaDB) :: collections' =>
    let schema := DBSchema schemaDB in
    match Matches fuel schema obj swagger with
    | Ok true => Ok (name, schema)
    | Ok false => matching_loop fuel obj swagger collections'
    | Err e => Err e
    | Panic msg => Panic msg
    | OutOfFuel => OutOfFuel
    end
  end.

(** [DB.FindMatchingSchema], db.go:506-515, for a store whose [Swagger]
    points to [swagger]. *)
Definition FindMatchingSchema (fuel : nat) (obj : Interface) (swagger : Swagger) (db : DB)
  : result (string * SchemaRef) :=
  matching_loop fuel obj swagger (range (schemas db)).

(** The entries that a query selects, and the entry that [Update] puts in
    the place of one. *)
Definition selected (criteria : Interface) (associations : GoMap (GoMap Interface))
  (matches : MatchFunc) (entry : DBEntry) : bool :=
  DBEntry_Matches entry criteria associations matches.

Definition updated (newObj : GoMap Interface) (patch : bool) (entry : DBEntry) : DBEntry :=
  if patch then mkDBEntry (MapCombine (Data entry) newObj) (Associations entry)
  else mkDBEntry newObj (Associations entry).

(** [desiredCount] as the loops of [Find], [Delete] and [Update] read it:
    they test it after a match, so that they stop after one match at the
    earliest. *)
Definition stop_after (desiredCount : Z) : nat := Z.to_nat (Z.max 1 desiredCount).

(** Two runs of a computation over the collection that end alike: with
    the same outcome, and each with a collection that is a map; and
    computations that end alike from any two collections that are maps. *)
Definition same_verdict {A} (x y : result A * Collection) : Prop :=
  x.1 = y.1 ∧ is_Some x.2 ∧ is_Some y.2.

Definition insensitive {A} (m m' : M Collection A) : Prop :=
  ∀ collected collected', same_verdict (m (Some collected)) (m' (Some collected')).

(** Computations over the collection that succeed alike: from any two
    collections that are maps, each leaves a map, and one returns a value
    exactly when the other returns that value. *)
Definition same_success {A} (m m' : M Collection A) : Prop :=
  ∀ collected collected',
    is_Some (m (Some collected)).2
    ∧ is_Some (m' (Some collected')).2
    ∧ ∀ a, (m (Some collected)).1 = Ok a ↔ (m' (Some collected')).1 = Ok a.


(** A visit under [name] among the recorded calls; and a computation with
    the visitor of [Contains] next to the same computation with the
    recording visitor: the first ends with "found" when the second records
    a visit under [name], and ends like the second otherwise. *)
Definition visited (name : string) (log : list (string * SchemaRef)) : bool :=
  existsb (λ call, bool_decide (call.1 = name)) log.

Definition simulates {A} (name : string) (m : M unit A)
  (m' : M (list (string * SchemaRef)) A) : Prop :=
  ∀ log, ∃ new,
    (m' log).2 = log ++ new
    ∧ (m tt).1 = if visited name new then Err (ErrorString "found") else (m' log).1.

(** The collection after [object] has been recorded under [name]. *)
Definition recorded (name : string) (object : Interface) (collection : Collection) : Prop :=
  ∃ before,
    collection = Some (<[name := default [] (before !! name) ++ [object]]> before).

End queries.

End mqswag.
Export mqswag.

(** ** Package [mqplan], file [dsl.go] *)

Module mqplan.

(** *** The parameter definitions of [go-openapi/spec] *)

Record CommonValidations := mkCommonValidations {
  Maximum : option float;
  ExclusiveMaximum : bool;
  Minimum : option float;
  ExclusiveMinimum : bool;
  MaxLength : option Z;
  MinLength : option Z;
  Pattern : string;
  MaxItems : option Z;
  MinItems : option Z;
  Enum : list Interface
}.

(** [spec.SimpleSchema] and [spec.Items]: the items of an array are
    again a simple schema with its validations. *)
Inductive SimpleSchema :=
| mkSimpleSchema (type format : string) (items : option Items)
with Items :=
| mkItems (simple : SimpleSchema) (validations : CommonValidations).

Definition Type_ (s : SimpleSchema) : string :=
  match s with mkSimpleSchema type _ _ => type end.
Definition Format (s : SimpleSchema) : string :=
  match s with mkSimpleSchema _ format _ => format end.
Definition Items_ (s : SimpleSchema) : option Items :=
  match s with mkSimpleSchema _ _ items => items end.

(** [spec.Schema], the schema of a body parameter; the generator never
    looks into it. *)
Record BodySchema := mkBodySchema { Title : string }.

(** [spec.Parameter] (the name is reserved in Rocq). *)
Record ParamSpec := mkParamSpec {
  ParamName : string;
  Schema : option BodySchema;
  Simple : SimpleSchema;
  Validations : CommonValidations
}.

Record Operation := mkOperation { OpParameters : list ParamSpec }.

Record PathItem := mkPathItem {
  Get : option Operation;
  Put : option Operation;
  Post : option Operation;
  Delete : option Operation;
  Options : option Operation;
  Head : option Operation;
  Patch : option Operation
}.

(** The document that [dsl.go] reads: its [Paths.Paths] and [BasePath]. *)
Record Swagger := mkSwagger {
  BasePath : string;
  Paths : gmap string PathItem
}.

(** *** The DSL *)

(** [Test] represents a test object in the DSL. *)
Record Test := mkTest {
  Name : string;
  Path : string;
  Method : string;
  Ref : string;
  Parameters : GoMap Interface
}.

(** [TestCase] is [[]*Test]: a test of a case is reached through a
    pointer, and [None] is the nil pointer (what [yaml.Unmarshal] leaves for
    a null entry of the sequence). *)
Definition TestCase : Type := list (option Test).

(** Represents all the test cases in the DSL. *)
Record TestPlan := mkTestPlan {
  CaseMap : GoMap TestCase;
  CaseList : list TestCase
}.

(** *** The world outside the program

    Every reading that the program takes from outside ([math/rand], the
    clock, the random source of [reggen]) consumes the next element of one
    stream. *)
Record World := mkWorld {
  readings : nat → Z;
  consumed : nat
}.

Definition read : M World Z :=
  λ w, (Ok (readings w (consumed w)), mkWorld (readings w) (S (consumed w))).

(** [rand.Intn(n)]: some integer of [[0, n)]; panics when [n <= 0]. *)
Definition Intn (n : Z) : M World Z :=
  if n <=? 0 then panic "invalid argument to Intn"
  else let* x := read in ret (x mod n).

(** [rand.Float64()]: some multiple of [2^-53] in [[0.0, 1.0)]. *)
Definition Float64 : M World float :=
  let* x := read in
  ret (float_of_int63 (x mod 2 ^ 53) / 9007199254740992)%float.

(** [time.Now()], in nanoseconds since the epoch. *)
Definition Now : M World Z := read.

(** *** What [dsl.go] calls and does not define *)

Class PlanLibs := {
  (** [Time.Format layout] *)
  time_Format : Z → string → string;
  (** [reggen.NewGenerator pattern]: the error text when the pattern is
      refused; otherwise [Generate limit] of that generator, by the
      reading its random source takes. [Generate] reports no error; it
      panics on what it does not handle. *)
  reggen_error : string → option string;
  reggen_Generate : string → Z → Z → returned string;
  (** [strings.ToUpper] *)
  strings_ToUpper : string → string;
  (** [base64.StdEncoding.EncodeToString], [hex.EncodeToString]. *)
  base64_EncodeToString : string → string;
  hex_EncodeToString : string → string;
  (** [ioutil.ReadFile]: the error or the content. *)
  ReadFile : string → error + string;
  (** [yaml.Unmarshal] into a [map[string]TestCase]: the error or the
      decoded map (nil for an empty document). *)
  yaml_Unmarshal : string → error + GoMap TestCase;
  (** [generateObject], of another file of the package. *)
  generateObject : ParamSpec → M World Interface
}.

(** The [resty.Method*] constants. *)
Definition MethodGet := "GET".
Definition MethodPost := "POST".
Definition MethodPut := "PUT".
Definition MethodDelete := "DELETE".
Definition MethodPatch := "PATCH".
Definition MethodHead := "HEAD".
Definition MethodOptions := "OPTIONS".

(** [time.Hour], [time.RFC3339]. *)
Definition Hour : Z := 3600 * 1000000000.
Definition RFC3339 := "2006-01-02T15:04:05Z07:00".

Section dsl.
Context `{Libs} `{PlanLibs}.

(** [getOperationByMethod], dsl.go:59-77. *)
Definition getOperationByMethod (item : PathItem) (method : string) : option Operation :=
  if decide (method = MethodGet) then Get item
  else if decide (method = MethodPost) then Post item
  else if decide (method = MethodPut) then Put item
  else if decide (method = MethodDelete) then Delete item
  else if decide (method = MethodPatch) then Patch item
  else if decide (method = MethodHead) then Head item
  else if decide (method = MethodOptions) then Options item
  else None.

(** [RandomTime] generates a random time in the range of [[t - r, t)],
    dsl.go:115-117. *)
Definition RandomTime (t : Z) (r : Z) : M World Z :=
  let* f := Float64 in
  ret (t - int64_of_float (float_of_int63 r * f)%float).

(** [generateString], dsl.go:122-158. *)
Definition generateString (s : SimpleSchema) (v : CommonValidations) (prefix : string)
  : M World string :=
  if decide (Format s = "date-time") then
    let* now := Now in
    let* t := RandomTime now (Hour * 24 * 30) in
    ret (time_Format t RFC3339)
  else if decide (Format s = "date") then
    let* now := Now in
    let* t := RandomTime now (Hour * 24 * 30) in
    ret (time_Format t "2006-01-02")
  else
    (* If no pattern is specified, we use the field name + some numbers
       as pattern *)
    let '(pattern, length) :=
      if (0 <? String.length (Pattern v))%nat
      then (Pattern v, Z.of_nat (String.length (Pattern v)) * 2)
      else (prefix +:+ "\d+", Z.of_nat (String.length prefix) + 5) in
    match reggen_error pattern with
    | Some msg => fail (NewError ErrInvalid msg)
    | None =>
      let* seed := read in
      let* str := call (reggen_Generate pattern length seed) in
      if bool_decide (Format s = "" ∨ Format s = "password") then ret str
      else if decide (Format s = "byte") then ret (base64_EncodeToString str)
      else if decide (Format s = "binary") then ret (hex_EncodeToString str)
      else fail (NewError ErrInvalid ("Invalid format string: " +:+ Format s))
    end.

(** [generateBool], dsl.go:160-162. *)
Definition generateBool (v : CommonValidations) : M World Interface :=
  let* n := Intn 2 in ret (VBool (n =? 0)).

(** [generateFloat], dsl.go:164-194. *)
Definition generateFloat (v : CommonValidations) : M World float :=
  let realmin : float :=
    match Minimum v with
    | Some minimum => if ExclusiveMinimum v then (minimum + 0.01)%float else minimum
    | None => 0%float
    end in
  let realmax : float :=
    match Maximum v with
    | Some maximum => if ExclusiveMaximum v then (maximum - 0.01)%float else maximum
    | None => 0%float
    end in
  let* (realmin, realmax) :=
    if fge realmin realmax then
      if bool_decide (Minimum v = None) && bool_decide (Maximum v = None)
      then ret ((-1)%float, 1%float)
      else if bool_decide (Minimum v ≠ None)
      then ret (realmin, (realmin + PrimFloat.abs realmin)%float)
      else if bool_decide (Maximum v ≠ None)
      then ret ((realmax - PrimFloat.abs realmax)%float, realmax)
      else
        (* both are present but conflicting *)
        fail (NewError ErrInvalid
                ("specified min value " +:+ Sprint (VFloat (default 0%float (Minimum v)))
                 +:+ " is bigger than max "
                 +:+ Sprint (VFloat (default 0%float (Maximum v)))))
    else ret (realmin, realmax) in
  let* f := Float64 in
  ret (f * (realmax - realmin) + realmin)%float.

(** [generateInt], dsl.go:196-206. *)
Definition generateInt (v : CommonValidations) : M World Z :=
  let* f := generateFloat v in
  let i := int64_of_float f in
  match Minimum v with
  | Some minimum => if i <=? int64_of_float minimum then ret (wrap64 (i + 1)) else ret i
  | None => ret i
  end.

(** The loop of [generateArray], dsl.go:234-240: [todo] entries are still
    to generate. *)
Fixpoint array_loop
  (generate : SimpleSchema → CommonValidations → string → M World Interface)
  (s : SimpleSchema) (prefix : string) (todo : nat) (ar : list Interface)
  : M World (list Interface) :=
  match todo with
  | O => ret ar
  | S todo' =>
    match Items_ s with
    | None => panic "invalid memory address or nil pointer dereference"
    | Some (mkItems simple validations) =>
      let* entry := generate simple validations (prefix +:+ "-") in
      array_loop generate s prefix todo' (ar ++ [entry])
    end
  end.

(** [generateArray], dsl.go:208-242; [generate] stands for
    [generateByType]. (The variable [count] of the source is assigned and
    never read.) *)
Definition generateArray
  (generate : SimpleSchema → CommonValidations → string → M World Interface)
  (s : SimpleSchema) (v : CommonValidations) (prefix : string) : M World Interface :=
  let maxItems := match MaxItems v with Some n => if n <? 0 then 0 else n | None => 0 end in
  let minItems := match MinItems v with Some n => if n <? 0 then 0 else n | None => 0 end in
  let maxDiff := maxItems - minItems in
  let maxDiff := if maxDiff <? 0 then 1 else maxDiff in
  let* n := Intn maxDiff in
  let numItems := n + minItems in
  let* ar := array_loop generate s prefix (Z.to_nat numItems) [] in
  ret (VArray ar).

(** [generateByType], dsl.go:97-112. *)
Fixpoint generateByType (s : SimpleSchema) (v : CommonValidations) (prefix : string)
  {struct s} : M World Interface :=
  if decide (Type_ s = TYPE_ARRAY) then
    generateArray (λ s' v' prefix', generateByType s' v' prefix') s v prefix
  else if decide (Type_ s = TYPE_BOOLEAN) then generateBool v
  else if decide (Type_ s = TYPE_INTEGER) then let* i := generateInt v in ret (VInt i)
  else if decide (Type_ s = TYPE_NUMBER) then let* f := generateFloat v in ret (VFloat f)
  else if decide (Type_ s = TYPE_STRING) then
    let* str := generateString s v prefix in ret (VString str)
  else panic "not implemented".

(** [generateBySchema], dsl.go:244-246. *)
Definition generateBySchema (schema : BodySchema) (db : DB) : M World string :=
  panic "not implemented".

(** [generateByEnum], dsl.go:248-250. *)
Definition generateByEnum (paramSpec : ParamSpec) : M World string :=
  let enum := Enum (Validations paramSpec) in
  let* i := Intn (Z.of_nat (length enum)) in
  match enum !! Z.to_nat i with
  | Some e => ret (Sprint e)
  | None => panic "index out of range"
  end.

(** Generate paramter value based on the spec, dsl.go:80-95. *)
Definition generateParameter (paramSpec : ParamSpec) (db : DB) : M World Interface :=
  match Schema paramSpec with
  | Some schema => let* str := generateBySchema schema db in ret (VString str)
  | None =>
    if negb (length (Enum (Validations paramSpec)) =? 0)%nat then
      let* str := generateByEnum paramSpec in ret (VString str)
    else if (String.length (Type_ (Simple paramSpec)) =? 0)%nat then
      fail (NewError ErrInvalid "Parameter doesn't have type")
    else if decide (Type_ (Simple paramSpec) = TYPE_OBJECT) then
      generateObject paramSpec
    else
      generateByType (Simple paramSpec) (Validations paramSpec)
        (ParamName paramSpec +:+ "-")
  end.

Definition set_Parameters (t : Test) (parameters : GoMap Interface) : Test :=
  mkTest (Name t) (Path t) (Method t) (Ref t) parameters.

(** The loop of [Test.ResolveParameters], dsl.go:261-273. *)
Fixpoint resolve_loop (db : DB) (t : Test) (w : World) (parameters : list ParamSpec)
  : result unit * (Test * World) :=
  match parameters with
  | [] => (Ok tt, (t, w))
  | params :: parameters' =>
    (* We don't override the existing parameters *)
    if bool_decide (is_Some (map_get (Parameters t) (ParamName params)))
    then resolve_loop db t w parameters'
    else
      match generateParameter params db w with
      | (Ok p, w') =>
        match map_set (Parameters t) (ParamName params) p with
        | Ok parameters'' => (Ok tt, (set_Parameters t parameters'', w'))
        | Err e => (Err e, (t, w'))
        | Panic msg => (Panic msg, (t, w'))
        | OutOfFuel => (OutOfFuel, (t, w'))
        end
      | (Err e, w') => (Err e, (t, w'))
      | (Panic msg, w') => (Panic msg, (t, w'))
      | (OutOfFuel, w') => (OutOfFuel, (t, w'))
      end
  end.

(** The [PathItem] that a path absent from the document reads as. *)
Definition no_PathItem : PathItem := mkPathItem None None None None None None None.

(** [Test.ResolveParameters], dsl.go:254-274. *)
Definition ResolveParameters (swagger : Swagger) (db : DB) (plan : TestPlan)
  : M (Test * World) unit :=
  λ '(t, w),
    let pathItem := default no_PathItem (Paths swagger !! Path t) in
    match getOperationByMethod pathItem (Method t) with
    | None =>
      (Err (NewError ErrNotFound ("Path " +:+ Path t +:+ " not found in swagger file")),
       (t, w))
    | Some op => resolve_loop db t w (OpParameters op)
    end.

(** [TestPlan.Add], dsl.go:285-294: add a new TestCase, returns whether
    the case is successfully added. (The log line is not modelled.) *)
Definition Add (name : string) (testCase : TestCase) : M TestPlan unit :=
  λ plan,
    if bool_decide (is_Some (map_get (CaseMap plan) name)) then
      (Err (ErrorString ("Duplicate name " +:+ name +:+ " found in test plan")), plan)
    else
      match map_set (CaseMap plan) name testCase with
      | Ok caseMap => (Ok tt, mkTestPlan caseMap (CaseList plan ++ [testCase]))
      | Err e => (Err e, plan)
      | Panic msg => (Panic msg, plan)
      | OutOfFuel => (OutOfFuel, plan)
      end.

(** [t.Method = strings.ToUpper(t.Method)] when the method is set. *)
Definition upper_method (t : Test) : Test :=
  if (negb (String.length (Method t) =? 0))%nat
  then mkTest (Name t) (Path t) (strings_ToUpper (Method t)) (Ref t) (Parameters t)
  else t.

(** The loop over the tests of a case in [AddFromString], dsl.go:304-308:
    [t.Method] panics on the nil pointer. *)
Fixpoint upper_methods (testCase : TestCase) : result TestCase :=
  match testCase with
  | [] => Ok []
  | None :: _ => Panic "invalid memory address or nil pointer dereference"
  | Some t :: testCase' =>
    and_then (upper_methods testCase') (λ rest, Ok (Some (upper_method t) :: rest))
  end.

(** [TestPlan.AddFromString], dsl.go:296-315. *)
Definition AddFromString (data : string) : M TestPlan unit :=
  match yaml_Unmarshal data with
  | inl err => fail err
  | inr caseMap =>
    for_each (range_map caseMap)
      (λ '(testName, testCase),
         let* testCase := lift (upper_methods testCase) in
         Add testName testCase)
  end.

(** The loop of [TestPlan.InitFromFile], dsl.go:328-330. The value that
    [AddFromString] returns for a chunk is dropped. *)
Fixpoint load_chunks (chunks : list string) : M TestPlan unit :=
  λ plan,
    match chunks with
    | [] => (Ok tt, plan)
    | chunk :: chunks' =>
      match AddFromString chunk plan with
      | (Panic msg, plan') => (Panic msg, plan')
      | (OutOfFuel, plan') => (OutOfFuel, plan')
      | (_, plan') => load_chunks chunks' plan'
      end
    end.

(** [TestPlan.InitFromFile], dsl.go:317-332. *)
Definition InitFromFile (path : string) : M TestPlan unit :=
  λ _,
    let plan := mkTestPlan (Some ∅) [] in
    match ReadFile path with
    | inl err => (Err err, plan)
    | inr data => load_chunks (Split data "---") plan
    end.

(** The first parameter that the operation declares and the test does not
    supply. *)
Definition first_missing (t : Test) (op : Operation) : option ParamSpec :=
  snd <$> list_find
            (λ params, ¬ is_Some (map_get (Parameters t) (ParamName params)))
            (OpParameters op).

(** *** Parameter definitions and schemas

    [corresponds swagger s v node]: the schema at [node] is no reference and
    no composite and declares what the parameter definition [s], [v]
    declares: its type, bounds, lengths and pattern, and so for the items. *)
Fixpoint corresponds (swagger : mqswag.Swagger) (s : SimpleSchema) (v : CommonValidations)
  (node : SchemaRef) {struct s} : Prop :=
  mqswag.Ref node = ""
  ∧ match Value node with
    | None => False
    | Some a =>
      let sv := Heap swagger a in
      mqswag.Type_ sv = Type_ s
      ∧ AllOf sv = []
      ∧ Min sv = Minimum v
      ∧ Max sv = Maximum v
      ∧ mqswag.MinLength sv = default 0 (MinLength v)
      ∧ mqswag.MaxLength sv = MaxLength v
      ∧ mqswag.Pattern sv = Pattern v
      ∧ match Items_ s with
        | Some (mkItems simple validations) =>
          ∃ itemSchema,
            mqswag.Items sv = Some itemSchema
            ∧ corresponds swagger simple validations itemSchema
        | None => mqswag.Items sv = None
        end
    end.




End dsl.

(** *** Running a plan *)

(** [resty.R().SetQueryParams(params).Get(url)]: the error of the request,
    if any, by the reading that stands for what the server does. *)
Class Resty := {
  resty_Get : string → GoMap Interface → Z → option error
}.

Section run.
Context `{Libs} `{PlanLibs} `{Resty}.

(** The [i]-th pointer of the case [name], and the plan after an
    assignment through that pointer. [Run] reaches the tests through
    [CaseMap]. *)
Definition get_test (plan : TestPlan) (name : string) (i : nat) : option (option Test) :=
  match map_get (CaseMap plan) name with
  | Some tc => tc !! i
  | None => None
  end.

Definition set_test (plan : TestPlan) (name : string) (i : nat) (t : Test) : TestPlan :=
  mkTestPlan
    (match CaseMap plan with
     | Some cases => Some (alter (λ tc, <[i := Some t]> tc) name cases)
     | None => None
     end)
    (CaseList plan).

(** The body of [Test.Run], dsl.go:36-57, for the [i]-th test [t] of the
    case [name]; [run] stands for [plan.Run]. It only returns error when
    there is an internal error. *)
Definition Test_Run_body (run : string → M (TestPlan * World) unit)
  (swagger : Swagger) (db : DB) (name : string) (i : nat) (t : Test)
  : M (TestPlan * World) unit :=
  λ '(plan, w),
    if negb (String.length (Ref t) =? 0)%nat then run (Ref t) (plan, w)
    else
      let '(r, (t, w)) := ResolveParameters swagger db plan (t, w) in
      let plan := set_test plan name i t in
      match r with
      | Ok _ =>
        if decide (Method t = MethodGet) then
          let '(_, w') := read w in
          match resty_Get (BasePath swagger +:+ "/" +:+ Path t) (Parameters t)
                  (readings w (consumed w)) with
          | Some err => (Err err, (plan, w'))
          | None => (Ok tt, (plan, w'))
          end
        else
          (Err (ErrorString ("Unknow method in test " +:+ Name t +:+ ": " +:+ Method t)),
           (plan, w))
      | Err e => (Err e, (plan, w))
      | Panic msg => (Panic msg, (plan, w))
      | OutOfFuel => (OutOfFuel, (plan, w))
      end.

(** The loop of [TestPlan.Run], dsl.go:343-349: [todo] tests are left, the
    next one is the [i]-th. [test.Run] on the nil pointer panics at
    [t.Ref]. *)
Fixpoint run_tests (test_run : nat → Test → M (TestPlan * World) unit)
  (name : string) (todo i : nat) : M (TestPlan * World) unit :=
  match todo with
  | O => ret tt
  | S todo' =>
    λ '(plan, w),
      match get_test plan name i with
      | None => (Ok tt, (plan, w))
      | Some None =>
        (Panic "invalid memory address or nil pointer dereference", (plan, w))
      | Some (Some test) =>
        (let* _ := test_run i test in run_tests test_run name todo' (S i)) (plan, w)
      end
  end.

(** The body of [TestPlan.Run], dsl.go:335-351: run a named TestCase in
    the test plan. (The log line is not modelled.) *)
Definition Run_body (run : string → M (TestPlan * World) unit)
  (name : string) (swagger : Swagger) (db : DB) : M (TestPlan * World) unit :=
  λ '(plan, w),
    match map_get (CaseMap plan) name with
    | Some ((_ :: _) as tc) =>
      run_tests (Test_Run_body run swagger db name) name (length tc) 0 (plan, w)
    | _ =>
      (Err (ErrorString ("The following test case is not found: " +:+ name)), (plan, w))
    end.

(** [TestPlan.Run] and [Test.Run] call each other along the references of
    the tests, which may form cycles. *)
Fixpoint Run (fuel : nat) (name : string) (swagger : Swagger) (db : DB)
  : M (TestPlan * World) unit :=
  match fuel with
  | O => out_of_fuel
  | S fuel' => Run_body (λ ref, Run fuel' ref swagger db) name swagger db
  end.

Definition Test_Run (fuel : nat) (swagger : Swagger) (db : DB) (name : string) (i : nat)
  (t : Test) : M (TestPlan * World) unit :=
  Test_Run_body (λ ref, Run fuel ref swagger db) swagger db name i t.

(** Cases whose first test refers to a case of the same kind. *)
Definition refers_on (plan : TestPlan) (loops : string → Prop) : Prop :=
  ∀ name, loops name →
    ∃ t rest, map_get (CaseMap plan) name = Some (Some t :: rest)
              ∧ Ref t ≠ "" ∧ loops (Ref t).

(** [minItems] and [maxItems] as [generateArray] reads them: 0 when absent
    or negative. *)
Definition items_bound (n : option Z) : Z :=
  match n with
  | Some n => if n <? 0 then 0 else n
  | None => 0
  end.

(** The pattern that [generateString] generates from, and the limit that
    it passes to [Generate]. *)
Definition string_pattern (v : CommonValidations) (prefix : string) : string :=
  if (0 <? String.length (Pattern v))%nat then Pattern v else prefix +:+ "\d+".

Definition string_limit (v : CommonValidations) (prefix : string) : Z :=
  if (0 <? String.length (Pattern v))%nat then Z.of_nat (String.length (Pattern v)) * 2
  else Z.of_nat (String.length prefix) + 5.

(** A test that is ready to be sent: it refers to no case, its method is
    [GET], its operation is in the document, and it supplies every parameter
    that the operation declares. *)
Definition ready (swagger : Swagger) (t : Test) : Prop :=
  Ref t = ""
  ∧ Method t = MethodGet
  ∧ ∃ op,
      getOperationByMethod (default no_PathItem (Paths swagger !! Path t)) (Method t)
      = Some op
      ∧ first_missing t op = None.

End run.

End mqplan.


(** ** Concrete libraries and documents for the examples *)

Module Examples.

(** A tag reader for the examples: a description that starts with [<meqa]
    carries a tag, which is weak when the description says so. *)
Definition tag_of (description : string) : option MeqaTag :=
  if has_prefix "<meqa" description
  then Some (mkMeqaTag "" "" "" (if Contains description "weak" then 4 else 0))
  else None.

Definition sprint (v : Interface) : string :=
  match v with
  | VString s | VNumber s => s
  | VBool true => "true"
  | VBool false => "false"
  | VInt i => pretty i
  | VFloat f => pretty (int64_of_float f)
  | _ => ""
  end.

(** Deep equality of decoded JSON, to a nesting depth of [fuel]. *)
Fixpoint equal (fuel : nat) (a b : Interface) : bool :=
  match fuel with
  | O => false
  | S fuel' =>
    match a, b with
    | VNil, VNil => true
    | VBool x, VBool y => Bool.eqb x y
    | VInt x, VInt y => x =? y
    | VFloat x, VFloat y => PrimFloat.eqb x y
    | VString x, VString y | VNumber x, VNumber y => bool_decide (x = y)
    | VMap None, VMap None => true
    | VMap (Some x), VMap (Some y) =>
      (size x =? size y)%nat
      && forallb (λ kv, match y !! kv.1 with
                        | Some v => equal fuel' kv.2 v
                        | None => false
                        end) (map_to_list x)
    | VArray x, VArray y =>
      (length x =? length y)%nat
      && forallb (λ xy, equal fuel' xy.1 xy.2) (zip x y)
    | _, _ => false
    end
  end.

Definition libs : Libs := {|
  range := λ V, map_to_list;
  range_perm := λ V m, Permutation_refl (map_to_list m);
  GetMeqaTag := tag_of;
  FlagWeak := 4;
  marshal_schema := λ _ _, "";
  marshal_object := sprint;
  RuneCountInString := String.length;
  MatchString := λ _ _, false;
  Sprint := sprint;
  InterfaceEquals := equal 64;
  MapCombine := λ dst src,
    match dst, src with
    | Some d, Some s => Some (s ∪ d)
    | _, _ => dst
    end
|}.

(** The same libraries, with the maps iterated in the reverse order. *)
Definition reversed : Libs :=
  with_range libs (λ V m, reverse (map_to_list m))
    (λ V m, reverse_Permutation (map_to_list m)).

(** A node that is no reference and points to the schema at [a]. *)
Definition node (a : addr) : SchemaRef := mkSchemaRef "" (Some a).
Arguments node a%_positive.

Definition string_schema : Schema :=
  mkSchema "string" "" ∅ [] [] None None None 0 None "".

Definition object_schema (properties : gmap string SchemaRef) (required : list string)
  : Schema :=
  mkSchema "object" "" properties required [] None None None 0 None "".

(** The schemas of the examples, by address:
    1 a string; 2 a pet with a [name] and a required [id]; 3 an object with
    the fields [a], [b] and [c]; 4 and 5 the two members of the composite 6,
    which declare [a], [b] and [c] between them; 7 a composite that has the
    member 4 twice; 10 the schema [Tree], with
    a [name] and with [children], which is the array at 11, tagged Weak, of
    references to [Tree]; 20 an integer; 21 an array of strings. *)
Definition heap (a : addr) : Schema :=
  match a with
  | 2 => object_schema {["name" := node 1]} ["id"]
  | 3 => object_schema {["a" := node 1; "b" := node 1; "c" := node 1]} []
  | 4 => object_schema {["a" := node 1; "b" := node 1]} []
  | 5 => object_schema {["c" := node 1]} []
  | 6 => mkSchema "" "" ∅ [] [node 4; node 5] None None None 0%Z None ""
  | 7 => mkSchema "" "" ∅ [] [node 4; node 4] None None None 0%Z None ""
  | 10 => object_schema {["name" := node 1; "children" := node 11]} []
  | 11 => mkSchema "array" "<meqa Tree.children weak>" ∅ [] []
            (Some (mkSchemaRef "Tree" (Some 10))) None None 0%Z None ""
  | 20 => mkSchema "integer" "" ∅ [] [] None None None 0%Z None ""
  | 21 => mkSchema "array" "" ∅ [] [] (Some (node 1)) None None 0%Z None ""
  | _ => string_schema
  end%positive.

Arguments heap a%_positive.

Definition document : mqswag.Swagger := mqswag.mkSwagger heap {["Tree" := node 10]}.

(** A pet without an [id], and an object with the fields [a], [b], [c] and
    one more. *)
Definition nameless : gmap string Interface := {["name" := VString "rex"]}.
Definition abcx : gmap string Interface :=
  {["a" := VString "1"; "b" := VString "2"; "c" := VString "3"; "x" := VString "4"]}.
Definition abx : gmap string Interface :=
  {["a" := VString "1"; "b" := VString "2"; "x" := VString "4"]}.
Definition abxy : gmap string Interface :=
  {["a" := VString "1"; "b" := VString "2"; "x" := VString "4"; "y" := VString "5"]}.

(** A plan file of two documents that both define the case [smoke]. *)
Definition first_document : string :=
  "smoke: [{name: list pets, path: /pet, method: get}]
".
Definition second_document : string :=
  "
smoke: [{name: list users, path: /user, method: get}]
".
Definition plan_file : string := first_document +:+ "---" +:+ second_document.

(** A document whose case [smoke] has a null entry for a test. *)
Definition null_document : string :=
  "smoke: [~]
".

(** [strings.ToUpper] on texts of ASCII characters. *)
Definition upper (c : ascii) : ascii :=
  let n := nat_of_ascii c in
  if ((97 <=? n) && (n <=? 122))%nat then ascii_of_nat (n - 32) else c.

Fixpoint to_upper (s : string) : string :=
  match s with
  | EmptyString => EmptyString
  | String c s' => String (upper c) (to_upper s')
  end.

Definition list_pets : mqplan.Test := mqplan.mkTest "list pets" "/pet" "get" "" None.
Definition list_users : mqplan.Test := mqplan.mkTest "list users" "/user" "get" "" None.

(** A string generator for the examples: for a pattern that ends in [\d+],
    the text before it followed by digits. *)
Definition digits_after (pattern : string) (seed : Z) : string :=
  let n := String.length pattern in
  if bool_decide (String.substring (n - 3) 3 pattern = "\d+")
  then String.substring 0 (n - 3) pattern +:+ pretty (seed mod 100000)
  else pattern.

(** The libraries of [dsl.go] for the examples: the decoder knows the three
    documents above, the file system has the plan file. *)
Definition plan_libs : mqplan.PlanLibs := {|
  mqplan.time_Format := λ t _, pretty t;
  mqplan.reggen_error := λ _, None;
  mqplan.reggen_Generate := λ pattern _ seed, Returns (digits_after pattern seed);
  mqplan.strings_ToUpper := to_upper;
  mqplan.base64_EncodeToString := λ s, s;
  mqplan.hex_EncodeToString := λ s, s;
  mqplan.ReadFile := λ path,
    if decide (path = "meqa_data/testplan.yml") then inr plan_file
    else inl (ErrorString ("open " +:+ path +:+ ": no such file or directory"));
  mqplan.yaml_Unmarshal := λ data,
    if decide (data = first_document) then inr (Some {["smoke" := [Some list_pets]]})
    else if decide (data = second_document)
    then inr (Some {["smoke" := [Some list_users]]})
    else if decide (data = null_document) then inr (Some {["smoke" := [None]]})
    else inl (ErrorString "yaml: unmarshal errors");
  mqplan.generateObject := λ _, panic "not implemented"
|}.

(** The readings of the outside world in the examples. *)
Definition world : mqplan.World := mqplan.mkWorld (λ n, Z.of_nat n * 7919) 0.

(** An empty store. *)
Definition empty_store : DB := mkDB ∅ None.

(** A store with the collection [Pet] holding no entry. *)
Definition pet_store : DB :=
  mkDB {["Pet" := mkSchemaDB "Pet" (mkSchemaRef "" (Some 1%positive)) false []]} None.

(** A pet, and its associations: one to an owner and one to another pet. *)
Definition rex : GoMap Interface := Some {["name" := VString "rex"]}.
Definition rex_associations : GoMap (GoMap Interface) :=
  Some {["Pet" := Some {["name" := VString "tom"]};
         "User" := Some {["name" := VString "ann"]}]}.

(** Validations that declare nothing. *)
Definition no_validations : mqplan.CommonValidations :=
  mqplan.mkCommonValidations None false None false None None "" None None [].

(** A minimum of 10 with a maximum of 5. *)
Definition conflicting : mqplan.CommonValidations :=
  mqplan.mkCommonValidations (Some 5%float) false (Some 10%float) false
    None None "" None None [].

(** A body parameter, a string parameter of format [uuid], and the
    parameters [status] (an enum of strings) and [limit] (an integer). *)
Definition body_param : mqplan.ParamSpec :=
  mqplan.mkParamSpec "body" (Some (mqplan.mkBodySchema "Pet"))
    (mqplan.mkSimpleSchema "" "" None) no_validations.

Definition uuid_param : mqplan.ParamSpec :=
  mqplan.mkParamSpec "id" None (mqplan.mkSimpleSchema "string" "uuid" None) no_validations.

Definition status_param : mqplan.ParamSpec :=
  mqplan.mkParamSpec "status" None (mqplan.mkSimpleSchema "string" "" None)
    (mqplan.mkCommonValidations None false None false None None "" None None
       [VString "available"; VString "pending"; VString "sold"]).

Definition limit_param : mqplan.ParamSpec :=
  mqplan.mkParamSpec "limit" None (mqplan.mkSimpleSchema "integer" "" None) no_validations.


Definition tags_param : mqplan.ParamSpec :=
  mqplan.mkParamSpec "tags" None
    (mqplan.mkSimpleSchema "array" ""
       (Some (mqplan.mkItems (mqplan.mkSimpleSchema "string" "" None) no_validations)))
    (mqplan.mkCommonValidations None false None false None None ""
       (Some 3) (Some 1) []).

Definition get_only (parameters : list mqplan.ParamSpec) : mqplan.PathItem :=
  mqplan.mkPathItem (Some (mqplan.mkOperation parameters)) None None None None None None.

(** A document with two operations. *)
Definition petstore : mqplan.Swagger :=
  mqplan.mkSwagger "/v2"
    {["/pet/findByStatus" := get_only [status_param; limit_param];
      "/pet/byId" := get_only [uuid_param]]}.

(** Two tests without supplied parameters, and one that supplies [status]. *)
Definition find_by_status : mqplan.Test :=
  mqplan.mkTest "get pet by status" "/pet/findByStatus" "GET" "" (Some ∅).

Definition find_sold : mqplan.Test :=
  mqplan.mkTest "get sold pets" "/pet/findByStatus" "GET" ""
    (Some {["status" := VString "sold"]}).

Definition get_by_id : mqplan.Test :=
  mqplan.mkTest "get pet by id" "/pet/byId" "GET" "" (Some ∅).

Definition no_plan : mqplan.TestPlan := mqplan.mkTestPlan None [].

(** A second pet; the query that selects the pets of a given name; the
    collection [Pet] with three entries, two of them for [rex]; a store
    with that collection, and one whose collection keeps no history. *)
Definition tom : GoMap Interface := Some {["name" := VString "tom"]}.

Definition by_name : MatchFunc :=
  λ criteria existing,
    match existing with
    | VMap (Some m) => equal 64 criteria (default VNil (m !! "name"))
    | _ => false
    end.

Definition pets : SchemaDB :=
  mkSchemaDB "Pet" (node 2) false
    [mkDBEntry rex (Some ∅); mkDBEntry tom (Some ∅); mkDBEntry rex (Some ∅)].

Definition kennel : DB := mkDB {["Pet" := pets]} (Some document).

Definition passing : SchemaDB := mkSchemaDB "Event" (node 1) true [].

Definition log_store : DB := mkDB {["Event" := passing]} (Some document).

(** The text of an error of [mqutil] in the examples: its message. *)
Definition error_text : ErrorText := {| mq_Error := λ _ msg, msg |}.

(** A reference to the schema [Tree], a tree without children, and a store
    with the collection [Tree]. *)
Definition tree_ref : SchemaRef := mkSchemaRef "Tree" (Some 10%positive).

Definition oak : gmap string Interface := {["name" := VString "oak"]}.

Definition forest : DB :=
  mkDB {["Tree" := mkSchemaDB "Tree" (node 10) false []]} (Some document).

(** A document with the schema of an integer from 1 on at the address 30,
    of a number from 10 to 5 at 31, of a string of 20 characters or more at
    32, and strings elsewhere. *)
Definition bounded_heap (a : addr) : Schema :=
  match a with
  | 30 => mkSchema "integer" "" ∅ [] [] None (Some 1%float) None 0%Z None ""
  | 31 => mkSchema "number" "" ∅ [] [] None (Some 10%float) (Some 5%float) 0%Z None ""
  | 32 => mkSchema "string" "" ∅ [] [] None None None 20%Z None ""
  | _ => string_schema
  end%positive.

Definition bounded_document : mqswag.Swagger := mqswag.mkSwagger bounded_heap ∅.

(** The parameters [page], an integer from 1 on, [ratio], a number from 10
    to 5, and [code], a string of 20 characters or more. *)
Definition page_param : mqplan.ParamSpec :=
  mqplan.mkParamSpec "page" None (mqplan.mkSimpleSchema "integer" "" None)
    (mqplan.mkCommonValidations None false (Some 1%float) false None None "" None None []).

Definition ratio_param : mqplan.ParamSpec :=
  mqplan.mkParamSpec "ratio" None (mqplan.mkSimpleSchema "number" "" None) conflicting.

Definition code_param : mqplan.ParamSpec :=
  mqplan.mkParamSpec "code" None (mqplan.mkSimpleSchema "string" "" None)
    (mqplan.mkCommonValidations None false None false None (Some 20) "" None None []).

(** A plan file of one document, [smoke.yml], next to the files of
    [plan_libs]. *)
Definition smoke_libs : mqplan.PlanLibs := {|
  mqplan.time_Format := mqplan.time_Format (PlanLibs := plan_libs);
  mqplan.reggen_error := mqplan.reggen_error (PlanLibs := plan_libs);
  mqplan.reggen_Generate := mqplan.reggen_Generate (PlanLibs := plan_libs);
  mqplan.strings_ToUpper := mqplan.strings_ToUpper (PlanLibs := plan_libs);
  mqplan.base64_EncodeToString := mqplan.base64_EncodeToString (PlanLibs := plan_libs);
  mqplan.hex_EncodeToString := mqplan.hex_EncodeToString (PlanLibs := plan_libs);
  mqplan.ReadFile := λ path,
    if decide (path = "smoke.yml") then inr first_document
    else mqplan.ReadFile (PlanLibs := plan_libs) path;
  mqplan.yaml_Unmarshal := mqplan.yaml_Unmarshal (PlanLibs := plan_libs);
  mqplan.generateObject := mqplan.generateObject (PlanLibs := plan_libs)
|}.

(** A server that answers every request. *)
Definition server : mqplan.Resty := {| mqplan.resty_Get := λ _ _ _, None |}.

(** An empty plan; a plan whose case [loop] refers to itself; a document
    with an operation for POST, and a test for it; a test that supplies the
    parameter of its operation, and a plan that runs it twice. *)
Definition empty_plan : mqplan.TestPlan := mqplan.mkTestPlan (Some ∅) [].

Definition again : mqplan.Test := mqplan.mkTest "again" "" "" "loop" None.

Definition looping : mqplan.TestPlan :=
  mqplan.mkTestPlan (Some {["loop" := [Some again]]}) [[Some again]].

Definition shelter : mqplan.Swagger :=
  mqplan.mkSwagger "/v2"
    {["/pet" := mqplan.mkPathItem None None (Some (mqplan.mkOperation [])) None None
                  None None]}.

Definition create_pet : mqplan.Test := mqplan.mkTest "create pet" "/pet" "POST" "" (Some ∅).

Definition get_pet_7 : mqplan.Test :=
  mqplan.mkTest "get pet 7" "/pet/byId" "GET" "" (Some {["id" := VString "7"]}).

(** A plan whose case [smoke] holds a nil test. *)
Definition null_plan : mqplan.TestPlan :=
  mqplan.mkTestPlan (Some {["smoke" := [None]]}) [[None]].

Definition lookups : mqplan.TestPlan :=
  mqplan.mkTestPlan (Some {["lookup" := [Some get_pet_7; Some get_pet_7]]})
    [[Some get_pet_7; Some get_pet_7]].

End Examples.
(** * Properties *)

(** ** The object store *)

Section store.
Context `{Libs}.

(** The entries of a map in iteration order: keys are visited once. *)
Lemma range_NoDup_keys {V} (m : gmap string V) : NoDup (range m).*1.
Proof.
  rewrite (range_perm m). apply NoDup_fst_map_to_list.
Qed.

Lemma range_lookup {V} (m : gmap string V) k v : (k, v) ∈ range m ↔ m !! k = Some v.
Proof.
  rewrite (range_perm m). apply elem_of_map_to_list.
Qed.

Lemma range_length {V} (m : gmap string V) : length (range m) = size m.
Proof.
  rewrite (range_perm m). apply length_map_to_list.
Qed.

(** What the loop of [CopyWithoutClass] leaves in [dst]. *)
Lemma copy_loop_lookup {V} (className : string) (l : list (string * V))
  (dst : gmap string V) k :
  NoDup l.*1 →
  foldl (λ dst kv, if decide (kv.1 ≠ className) then <[kv.1 := kv.2]> dst else dst) dst l !! k
  = match list_find (λ kv, kv.1 = k) l with
    | Some (_, (_, v)) => if decide (k = className) then dst !! k else Some v
    | None => dst !! k
    end.
Proof.
  revert dst. induction l as [|[k' v'] l IH]; intros dst Hnd; [done|].
  apply NoDup_cons in Hnd as [Hk' Hnd]. cbn [foldl].
  rewrite IH by done. cbn [list_find fst snd].
  destruct (decide (k' = k)) as [->|Hne].
  - cbn. destruct (list_find (λ kv, kv.1 = k) l) as [[i [k2 v2]]|] eqn:Hfind.
    + apply list_find_Some in Hfind as (Hi & Hk2 & _). cbn in Hk2. subst k2.
      exfalso. apply Hk'. apply list_elem_of_fmap. exists (k, v2).
      split; [done|]. eapply list_elem_of_lookup_2; eauto.
    + destruct (decide (k ≠ className)), (decide (k = className)); try congruence.
      * by rewrite lookup_insert_eq.
      * done.
  - cbn. destruct (list_find (λ kv, kv.1 = k) l) as [[i [k2 v2]]|] eqn:Hfind; cbn.
    + destruct (decide (k = className)); [|done].
      destruct (decide (k' ≠ className)); [|done]. by rewrite lookup_insert_ne.
    + destruct (decide (k' ≠ className)); [|done]. by rewrite lookup_insert_ne.
Qed.

(** [CopyWithoutClass] drops the class and keeps every other key. *)
Lemma CopyWithoutClass_lookup (src : GoMap (GoMap Interface)) className k :
  map_get (CopyWithoutClass src className) k
  = if decide (k = className) then None else map_get src k.
Proof.
  unfold CopyWithoutClass, map_get at 1.
  destruct src as [g|]; cbn [range_map].
  - rewrite copy_loop_lookup by apply range_NoDup_keys.
    destruct (list_find (λ kv, kv.1 = k) (range g)) as [[i [k2 v2]]|] eqn:Hfind.
    + apply list_find_Some in Hfind as (Hi & Hk2 & _). cbn in Hk2. subst k2.
      apply list_elem_of_lookup_2, range_lookup in Hi.
      rewrite lookup_empty. cbn. by destruct (decide (k = className)).
    + rewrite lookup_empty. destruct (decide (k = className)); [done|].
      cbn. destruct (g !! k) as [v|] eqn:Hk; [|done].
      apply range_lookup in Hk. apply list_elem_of_lookup in Hk as [i Hi].
      eapply list_find_None in Hfind. rewrite Forall_lookup in Hfind.
      specialize (Hfind _ _ Hi). cbn in Hfind. congruence.
  - cbn. rewrite lookup_empty. by destruct (decide (k = className)).
Qed.

Lemma fresh_collections_empty {V} (mk : string → V → SchemaDB) (l : list (string * V))
  (acc : gmap string SchemaDB) :
  (∀ k v, Objects (mk k v) = []) →
  (∀ name sdb, acc !! name = Some sdb → Objects sdb = []) →
  ∀ name sdb,
    foldl (λ schemas kv, <[kv.1 := mk kv.1 kv.2]> schemas) acc l !! name = Some sdb →
    Objects sdb = [].
Proof.
  intros Hmk. revert acc. induction l as [|[k v] l IH]; intros acc Hacc name sdb; cbn.
  - apply Hacc.
  - apply IH. intros name' sdb'. destruct (decide (k = name')) as [->|Hne].
    + rewrite lookup_insert_eq. intros [= <-]. apply Hmk.
    + rewrite lookup_insert_ne by done. apply Hacc.
Qed.

Lemma Init_isolated s db0 : store_isolated (Init s db0).2.
Proof.
  intros name sdb Hsdb. cbn in Hsdb.
  eapply (fresh_collections_empty (λ k v, mkSchemaDB k v false [])) in Hsdb as ->;
    [by constructor|done|]. intros ??. by rewrite lookup_empty.
Qed.

Lemma CloneSchema_isolated db : store_isolated (CloneSchema db).
Proof.
  intros name sdb Hsdb. cbn in Hsdb.
  eapply (fresh_collections_empty (λ _ v, SchemaDB_CloneSchema v)) in Hsdb as ->;
    [by constructor|done|]. intros ??. by rewrite lookup_empty.
Qed.

(** The loop of [Delete] only moves entries around. *)
Lemma delete_loop_Forall (P : DBEntry → Prop) criteria associations matches desiredCount
  todo i objects count :
  Forall P objects →
  Forall P (delete_loop criteria associations matches desiredCount todo i objects count).1.
Proof.
  revert i objects count. induction todo as [|todo IH]; intros i objects count HP; [done|].
  cbn. destruct (objects !! i) as [entry|]; [|done].
  destruct (DBEntry_Matches _ _ _ _); [|by apply IH].
  assert (Forall P (match objects !! count with
                    | Some moved => <[i := moved]> objects
                    | None => objects
                    end)) as HP'.
  { destruct (objects !! count) as [moved|] eqn:Hmoved; [|done].
    apply Forall_insert; [done|]. eapply Forall_lookup_1; eauto. }
  destruct (_ && _); [done|]. by apply IH.
Qed.

(** The loop of [Update] leaves the associations of every entry alone. *)
Lemma update_loop_Forall (P : DBEntry → Prop) criteria associations matches newObj
  desiredCount patch entries count :
  (∀ entry data, P entry → P (mkDBEntry data (Associations entry))) →
  Forall P entries →
  Forall P (update_loop criteria associations matches newObj desiredCount patch
              entries count).1.
Proof.
  intros Hdata. revert count.
  induction entries as [|entry entries IH]; intros count HP; [done|].
  apply Forall_cons in HP as [He HP]. cbn.
  destruct (DBEntry_Matches _ _ _ _).
  - destruct (_ && _).
    + cbn. constructor; [|done]. destruct patch; by apply Hdata.
    + specialize (IH (count + 1) HP).
      destruct (update_loop _ _ _ _ _ _ entries (count + 1)) as [rest count'].
      cbn in *. constructor; [|done]. destruct patch; by apply Hdata.
  - specialize (IH count HP).
    destruct (update_loop _ _ _ _ _ _ entries count) as [rest count'].
    cbn in *. by constructor.
Qed.

(** A method of one collection that keeps its entries isolated keeps the
    store isolated. *)
Lemma on_schema_isolated {A} db name sdb (m : M SchemaDB A) :
  store_isolated db →
  schemas db !! name = Some sdb →
  Forall (isolated name) (Objects (m sdb).2) →
  store_isolated (on_schema name sdb m db).2.
Proof.
  intros Hdb Hsdb Hm name' sdb'. unfold on_schema.
  destruct (m sdb) as [r sdb2]. cbn in *.
  destruct (decide (name = name')) as [<-|Hne].
  - rewrite lookup_insert_eq. by intros [= <-].
  - rewrite lookup_insert_ne by done. apply Hdb.
Qed.

Lemma Insert_isolated db name obj associations :
  store_isolated db → store_isolated (Insert name obj associations db).2.
Proof.
  intros Hdb. unfold Insert.
  destruct (schemas db !! name) as [sdb|] eqn:Hsdb; [|done].
  apply on_schema_isolated; [done..|].
  unfold SchemaDB_Insert. pose proof (Hdb _ _ Hsdb) as Hold.
  destruct (negb (NoHistory sdb)); [|done].
  destruct obj; try done. cbn [snd set_Objects Objects].
  apply Forall_app. split; [done|]. constructor; [|done].
  unfold isolated. cbn [Associations].
  rewrite CopyWithoutClass_lookup. by rewrite decide_True.
Qed.

Lemma Delete_isolated db name criteria associations matches desiredCount :
  store_isolated db →
  store_isolated (Delete name criteria associations matches desiredCount db).2.
Proof.
  intros Hdb. unfold Delete.
  destruct (schemas db !! name) as [sdb|] eqn:Hsdb; [|done].
  apply on_schema_isolated; [done..|].
  unfold SchemaDB_Delete. pose proof (Hdb _ _ Hsdb) as Hold.
  apply (delete_loop_Forall _ criteria (CopyWithoutClass associations name) matches
           desiredCount (length (Objects sdb)) 0 _ 0) in Hold.
  destruct (delete_loop _ _ _ _ _ _ _ _) as [objects count]. cbn in *.
  by apply Forall_drop.
Qed.

Lemma Update_isolated db name criteria associations matches newObj desiredCount patch :
  store_isolated db →
  store_isolated (Update name criteria associations matches newObj desiredCount patch db).2.
Proof.
  intros Hdb. unfold Update.
  destruct (schemas db !! name) as [sdb|] eqn:Hsdb; [|done].
  apply on_schema_isolated; [done..|].
  unfold SchemaDB_Update. pose proof (Hdb _ _ Hsdb) as Hold.
  apply (update_loop_Forall _ criteria (CopyWithoutClass associations name) matches
           newObj desiredCount patch _ 0) in Hold; [|done].
  destruct (update_loop _ _ _ _ _ _ _ _) as [objects count]. cbn in *. done.
Qed.

Lemma Find_state db name criteria associations matches desiredCount :
  (Find name criteria associations matches desiredCount db).2 = db.
Proof. unfold Find. by destruct (schemas db !! name). Qed.

Lemma reachable_isolated db : reachable db → store_isolated db.
Proof.
  induction 1.
  - apply Init_isolated.
  - apply CloneSchema_isolated.
  - by apply Insert_isolated.
  - by rewrite Find_state.
  - by apply Delete_isolated.
  - by apply Update_isolated.
Qed.

(** C3 (association isolation). Inserting an object under class [name]
    with an association map that has the key [name] stores an entry whose
    association map does not have that key (and has every other key as
    given); and in every store that the operations of [DB] can produce,
    no entry of a collection records an association under the
    collection's own name. *)
Theorem association_isolation :
  (∀ db name sdb data associations,
     schemas db !! name = Some sdb →
     NoHistory sdb = false →
     is_Some (map_get associations name) →
     ∃ entry,
       Insert name (VMap data) associations db
       = (Ok tt, set_schema db name (set_Objects sdb (Objects sdb ++ [entry])))
       ∧ Data entry = data
       ∧ map_get (Associations entry) name = None
       ∧ ∀ k, k ≠ name → map_get (Associations entry) k = map_get associations k)
  ∧ (∀ db, reachable db →
       ∀ name sdb entry,
         schemas db !! name = Some sdb → entry ∈ Objects sdb →
         map_get (Associations entry) name = None).
Proof.
  split.
  - intros db name sdb data associations Hsdb Hhist _.
    exists (mkDBEntry data (CopyWithoutClass associations name)).
    unfold Insert, on_schema, SchemaDB_Insert. rewrite Hsdb, Hhist.
    cbn [negb Data Associations]. repeat split.
    + rewrite CopyWithoutClass_lookup. by rewrite decide_True.
    + intros k Hk. rewrite CopyWithoutClass_lookup. by rewrite decide_False.
  - intros db Hreach name sdb entry Hsdb Hentry.
    apply reachable_isolated in Hreach.
    specialize (Hreach _ _ Hsdb). rewrite Forall_forall in Hreach. by apply Hreach.
Qed.

(** C6, as the code has it. Inserting under a name that is not registered
    fails with an error of kind Internal, and the store is as before. *)
Theorem Insert_unknown_schema db name obj associations :
  schemas db !! name = None →
  Insert name obj associations db
  = (Err (NewError ErrInternal ("inserting into non-existing schema: " +:+ name)), db).
Proof. intros Hname. unfold Insert. by rewrite Hname. Qed.

(** C10. For a name that is not registered, [Find] returns the empty
    result, [Delete] returns 0 and [Update] returns 0, none of them with an
    error, and the store is as before; [Insert] reports an error. *)
Theorem unknown_schema_is_quiet db name criteria associations matches newObj
  desiredCount patch obj :
  schemas db !! name = None →
  Find name criteria associations matches desiredCount db = (Ok [], db)
  ∧ Delete name criteria associations matches desiredCount db = (Ok 0, db)
  ∧ Update name criteria associations matches newObj desiredCount patch db = (Ok 0, db)
  ∧ ∃ e, Insert name obj associations db = (Err e, db).
Proof.
  intros Hname. unfold Find, Delete, Update, Insert. rewrite Hname. eauto.
Qed.

End store.

(** ** The object store, on examples *)

Section store_examples.
Import Examples.

(** [association_isolation] at work: the pet [rex] is inserted under [Pet]
    with associations under [Pet] and [User]; the stored entry keeps the one
    under [User] only. *)
Lemma association_isolation_example :
  ∃ entry,
    @Insert libs "Pet" (VMap rex) rex_associations pet_store
    = (Ok tt,
       set_schema pet_store "Pet"
         (set_Objects (mkSchemaDB "Pet" (mkSchemaRef "" (Some 1%positive)) false []) [entry]))
    ∧ Data entry = rex
    ∧ map_get (Associations entry) "Pet" = None
    ∧ ∀ k, k ≠ "Pet" → map_get (Associations entry) k = map_get rex_associations k.
Proof.
  apply (proj1 (@association_isolation libs) pet_store "Pet"
           (mkSchemaDB "Pet" (mkSchemaRef "" (Some 1%positive)) false [])
           rex rex_associations).
  - reflexivity.
  - reflexivity.
  - exists (Some {["name" := VString "tom"]}). reflexivity.
Defined.

(** The claim of C6 as the specification words it fails: the error that
    [Insert] reports for an unregistered name is not of kind NotFound. *)
Lemma Insert_unknown_schema_not_NotFound :
  schemas empty_store !! "Ghost" = None
  ∧ ¬ ∃ msg, fst (@Insert libs "Ghost" (VMap rex) None empty_store)
             = Err (NewError ErrNotFound msg).
Proof.
  split; [reflexivity|]. intros [msg Hmsg]. cbn in Hmsg. discriminate Hmsg.
Qed.

Lemma Insert_unknown_schema_example :
  schemas empty_store !! "Ghost" = None
  ∧ @Insert libs "Ghost" (VMap rex) None empty_store
    = (Err (NewError ErrInternal "inserting into non-existing schema: Ghost"), empty_store).
Proof.
  split; [reflexivity|].
  apply (@Insert_unknown_schema libs empty_store "Ghost" (VMap rex) None). reflexivity.
Defined.

Lemma unknown_schema_is_quiet_example :
  schemas pet_store !! "Ghost" = None
  ∧ @Find libs "Ghost" VNil None MatchAlways (-1) pet_store = (Ok [], pet_store)
  ∧ @Delete libs "Ghost" VNil None MatchAlways (-1) pet_store = (Ok 0, pet_store)
  ∧ @Update libs "Ghost" VNil None MatchAlways rex (-1) true pet_store = (Ok 0, pet_store)
  ∧ ∃ e, @Insert libs "Ghost" (VMap rex) None pet_store = (Err e, pet_store).
Proof.
  split; [reflexivity|].
  apply (@unknown_schema_is_quiet libs pet_store "Ghost" VNil None MatchAlways rex (-1)
           true (VMap rex)).
  reflexivity.
Defined.

End store_examples.

(** ** The schema engine *)

Section schema.
Context `{Libs}.

Lemma range_filter_length {V} (P : string * V → Prop) `{∀ kv, Decision (P kv)}
  (m : gmap string V) :
  length (filter P (range m)) = size (filter P m).
Proof.
  rewrite (range_perm m), <- length_map_to_list, map_filter_alt.
  rewrite map_to_list_to_map; [done|].
  apply (sublist_NoDup _ (map_to_list m).*1); [apply NoDup_fst_map_to_list|].
  apply fmap_sublist, sublist_filter.
Qed.

(** The loop over the fields of an object: when every recognized field
    parses, the loop counts the recognized fields. *)
Lemma fields_loop_counts parses sv followRef swagger fields count collected :
  (∀ k v ps, (k, v) ∈ fields → Properties sv !! k = Some ps →
     ∀ c, ∃ c', parses ps "" v followRef swagger (Some c) = (Ok tt, Some c')) →
  ∃ collected',
    fields_loop parses sv followRef swagger fields count (Some collected)
    = (Ok (count + Z.of_nat (length (filter (λ kv, is_Some (Properties sv !! kv.1)) fields))),
       Some collected').
Proof.
  revert count collected.
  induction fields as [|[k v] fields IH]; intros count collected Hparse.
  - cbn. rewrite Z.add_0_r. eauto.
  - cbn [fields_loop]. rewrite filter_cons. cbn [fst].
    destruct (Properties sv !! k) as [ps|] eqn:Hps.
    + rewrite decide_True by eauto.
      destruct (Hparse k v ps (list_elem_of_here _ _) Hps collected) as [c1 Hc1].
      unfold bind. rewrite Hc1.
      destruct (IH (count + 1) c1) as [c2 Hc2].
      { intros ?????. eapply Hparse; [by apply list_elem_of_further|done]. }
      exists c2. rewrite Hc2. do 2 f_equal. cbn [length]. lia.
    + rewrite decide_False by (by intros [??]).
      apply IH. intros ?????. eapply Hparse; [by apply list_elem_of_further|done].
Qed.

(** The loop over the required fields. *)
Lemma required_loop_ok {St} (objMap : gmap string Interface) (required : list string)
  (raise : string → M St unit) (st : St) :
  (∀ r, r ∈ required → is_Some (objMap !! r)) →
  for_each required
    (λ requiredName,
       if bool_decide (is_Some (map_get (Some objMap) requiredName)) then ret tt
       else raise requiredName) st
  = (Ok tt, st).
Proof.
  induction required as [|r required IH]; intros Hreq; [done|].
  cbn [for_each]. unfold bind. cbn [map_get].
  rewrite bool_decide_eq_true_2 by (apply Hreq; left).
  cbn. apply IH. intros ??. apply Hreq. by right.
Qed.

(** Running a sequence whose first call returns a value. *)
Lemma bind_Ok {St A B} (m : M St A) (k : A → M St B) s a s' :
  m s = (Ok a, s') → bind m k s = k a s'.
Proof. intros Hm. unfold bind. by rewrite Hm. Qed.

Lemma bind_Err {St A B} (m : M St A) (k : A → M St B) s e s' :
  m s = (Err e, s') → bind m k s = (Err e, s').
Proof. intros Hm. unfold bind. by rewrite Hm. Qed.

Lemma bind_Panic {St A B} (m : M St A) (k : A → M St B) s msg s' :
  m s = (Panic msg, s') → bind m k s = (Panic msg, s').
Proof. intros Hm. unfold bind. by rewrite Hm. Qed.

(** A node that is no reference refers to nothing. *)
Lemma GetReferredSchema_no_ref swagger schema :
  Ref schema = "" → GetReferredSchema swagger schema = Ok ("", mkSchemaRef "" None).
Proof. intros Href. unfold GetReferredSchema. by rewrite decide_True. Qed.

(** Recording under [name] succeeds on a collection that is not nil. *)
Lemma record_under_name name object collected :
  ∃ collected',
    (if (0 <? String.length name)%nat then collect name object else ret tt) (Some collected)
    = (Ok tt, Some collected').
Proof. destruct (0 <? String.length name)%nat; cbn; eauto. Qed.

(** The threshold for a schema of the object kind. *)
Lemma Parses_object_threshold fuel swagger schema a name objMap followRef collected :
  Ref schema = "" →
  Value schema = Some a →
  AllOf (Heap swagger a) = [] →
  (∀ r, r ∈ Required (Heap swagger a) → is_Some (objMap !! r)) →
  (∀ k v ps, objMap !! k = Some v → Properties (Heap swagger a) !! k = Some ps →
     parses_ok fuel ps v followRef swagger) →
  let n := Z.of_nat (size objMap) in
  let k := Z.of_nat (size (recognized (Heap swagger a) objMap)) in
  let out :=
    Parses (S fuel) schema name (VMap (Some objMap)) followRef swagger (Some collected) in
  (is_ok out.1 = true ↔ 3 * n ≤ 4 * k)
  ∧ (4 * k < 3 * n →
     out.1 = Err (raiseError swagger schema (VMap (Some objMap))
                    "too many mis-matched fields")).
Proof.
  intros Href Hvalue Hallof Hrequired Hfields n k out.
  assert (∃ c, out = if k * 4 <? n * 3
                     then (Err (raiseError swagger schema (VMap (Some objMap))
                                  "too many mis-matched fields"), c)
                     else (Ok tt, c)) as [c Hout].
  { subst out. cbn [Parses]. unfold Parses_body.
    erewrite bind_Ok; [|unfold lift; by rewrite (GetReferredSchema_no_ref _ _ Href)].
    cbn [Value]. rewrite bool_decide_eq_false_2 by (by intros [??]).
    rewrite Hvalue. erewrite bind_Ok; [|done]. rewrite Hallof.
    change (0 <? length [])%nat with false. cbv iota.
    erewrite bind_Ok; [|by apply required_loop_ok].
    destruct (fields_loop_counts (Parses fuel) (Heap swagger a) followRef swagger
                (range objMap) 0 collected) as [c1 Hc1].
    { intros k' v ps Hin Hps c. apply range_lookup in Hin. by eapply Hfields. }
    erewrite bind_Ok; [|exact Hc1]. cbn [map_len].
    rewrite range_filter_length, Z.add_0_l. fold (recognized (Heap swagger a) objMap).
    fold k n. destruct (k * 4 <? n * 3); [by eexists|].
    destruct (record_under_name name (VMap (Some objMap)) c1) as [c2 Hc2].
    rewrite Hc2. by eexists. }
  rewrite Hout. destruct (Z.ltb_spec (k * 4) (n * 3)); cbn; split; try done; try lia.
Qed.

(** The fields that a member recognizes, counted on either side. *)
Lemma sub_object_size (p : gmap string SchemaRef) (objMap : gmap string Interface) :
  size (filter (λ kv, is_Some (objMap !! kv.1)) p) = size (sub_object p objMap).
Proof.
  unfold sub_object. rewrite <- !(size_dom (D := gset string)).
  rewrite (dom_filter_L _ p (dom p ∩ dom objMap)), (dom_filter_L _ objMap (dom p ∩ dom objMap));
    [done|..]; intros i; rewrite elem_of_intersection, !elem_of_dom; cbn.
  - split; [intros [Hp [x Hx]]; eauto|intros (x & Hx & Hp); eauto].
  - split; [intros [[x Hx] Ho]; eauto|intros (x & Hx & Ho); eauto].
Qed.

(** The loop that builds the part of the object for a member of a
    composite: the counter and the map. *)
Lemma sub_object_loop_count (objMap : gmap string Interface)
  (l : list (string * SchemaRef)) (m : gmap string Interface) (count : Z) :
  foldl (λ '(m, count) kv,
           match objMap !! kv.1 with
           | Some v => (<[kv.1 := v]> m, count + 1)
           | None => (m, count)
           end) (m, count) l
  = (foldl (λ m kv, match objMap !! kv.1 with Some v => <[kv.1 := v]> m | None => m end) m l,
     count + Z.of_nat (length (filter (λ kv, is_Some (objMap !! kv.1)) l))).
Proof.
  revert m count. induction l as [|[k ps] l IH]; intros m count.
  - cbn. by rewrite Z.add_0_r.
  - cbn [foldl fst]. rewrite filter_cons. cbn [fst].
    destruct (objMap !! k) as [v|] eqn:Hk.
    + rewrite IH, decide_True by eauto. cbn [length]. f_equal. lia.
    + rewrite IH, decide_False by (by intros [??]). done.
Qed.

Lemma sub_object_loop_lookup (objMap : gmap string Interface)
  (l : list (string * SchemaRef)) (m : gmap string Interface) k :
  foldl (λ m kv, match objMap !! kv.1 with Some v => <[kv.1 := v]> m | None => m end) m l !! k
  = match (if decide (k ∈ l.*1) then objMap !! k else None) with
    | Some v => Some v
    | None => m !! k
    end.
Proof.
  revert m. induction l as [|[k' ps] l IH]; intros m.
  - cbn. rewrite decide_False; [done|]. apply not_elem_of_nil.
  - cbn [foldl fst]. rewrite IH. cbn [fmap list_fmap fst].
    destruct (decide (k ∈ l.*1)) as [Hin|Hnotin].
    + rewrite decide_True by (by right).
      destruct (objMap !! k) as [v|] eqn:Hk; [done|].
      destruct (objMap !! k') as [v'|] eqn:Hk'; [|done].
      rewrite lookup_insert_ne; [done|congruence].
    + destruct (decide (k' = k)) as [->|Hne].
      * rewrite decide_True by left.
        destruct (objMap !! k) as [v|]; [|done]. by rewrite lookup_insert_eq.
      * rewrite decide_False by (intros [?|?]%elem_of_cons; congruence).
        destruct (objMap !! k') as [v'|]; [|done]. by rewrite lookup_insert_ne.
Qed.

Lemma sub_object_loop (objMap : gmap string Interface) (p : gmap string SchemaRef)
  (count : Z) :
  foldl (λ '(m, count) kv,
           match objMap !! kv.1 with
           | Some v => (<[kv.1 := v]> m, count + 1)
           | None => (m, count)
           end) (∅, count) (range p)
  = (sub_object p objMap, count + Z.of_nat (size (sub_object p objMap))).
Proof.
  rewrite sub_object_loop_count, range_filter_length, sub_object_size. f_equal.
  apply map_eq. intros k. rewrite sub_object_loop_lookup, lookup_empty.
  unfold sub_object. rewrite map_lookup_filter. cbn [fst].
  destruct (decide (k ∈ (range p).*1)) as [Hin|Hnotin].
  - apply list_elem_of_fmap in Hin as ([k' ps] & -> & Hin). apply range_lookup in Hin.
    cbn [fst]. destruct (objMap !! k') as [v|]; [|done]. cbn.
    by rewrite option_guard_True by eauto.
  - destruct (objMap !! k) as [v|]; [|done]. cbn.
    rewrite option_guard_False; [done|]. intros [ps Hps]. apply Hnotin.
    apply list_elem_of_fmap. exists (k, ps). split; [done|]. by apply range_lookup.
Qed.

Lemma sub_object_no_properties (p : gmap string SchemaRef) (objMap : gmap string Interface) :
  size p = 0%nat → size (sub_object p objMap) = 0%nat.
Proof.
  intros ->%map_size_empty_inv. rewrite <- sub_object_size.
  by rewrite map_filter_empty, map_size_empty.
Qed.

(** The loop over the members of a composite: when every member parses its
    part, the loop counts the fields that the members account for. *)
Lemma all_of_loop_counts fuel objMap followRef swagger parts ps count collected :
  Forall2 (member_ok fuel objMap followRef swagger) parts ps →
  ∃ collected',
    all_of_loop (Parses fuel) (GetProperties fuel) objMap followRef swagger parts count
      (Some collected)
    = (Ok (count + Z.of_nat (accounted objMap ps)), Some collected').
Proof.
  intros Hparts. revert count collected.
  induction Hparts as [|s p parts ps [Hp Hs] _ IH]; intros count collected.
  - cbn. rewrite Z.add_0_r. eauto.
  - cbn [all_of_loop]. erewrite bind_Ok; [|unfold lift; by rewrite Hp].
    unfold accounted. cbn [fmap list_fmap sum_list]. fold (accounted objMap ps).
    destruct (size p =? 0)%nat eqn:Hsize.
    + apply Nat.eqb_eq in Hsize. rewrite sub_object_no_properties by done.
      apply IH.
    + apply Nat.eqb_neq in Hsize. rewrite sub_object_loop.
      destruct (Hs Hsize collected) as [c1 Hc1].
      erewrite bind_Ok; [|exact Hc1].
      destruct (IH (count + Z.of_nat (size (sub_object p objMap))) c1) as [c2 Hc2].
      exists c2. rewrite Hc2. do 2 f_equal. unfold id. lia.
Qed.

(** The threshold for a composite. *)
Lemma Parses_composite_threshold fuel swagger schema a name objMap followRef ps collected :
  Ref schema = "" →
  Value schema = Some a →
  AllOf (Heap swagger a) ≠ [] →
  Forall2 (member_ok fuel objMap followRef swagger) (AllOf (Heap swagger a)) ps →
  let n := Z.of_nat (size objMap) in
  let k := Z.of_nat (accounted objMap ps) in
  let out :=
    Parses (S fuel) schema name (VMap (Some objMap)) followRef swagger (Some collected) in
  (is_ok out.1 = true ↔ 3 * n ≤ 4 * k)
  ∧ (4 * k < 3 * n →
     out.1 = Err (raiseError swagger schema (VMap (Some objMap))
                    "too many mismatched fields")).
Proof.
  intros Href Hvalue Hallof Hparts n k out.
  assert (∃ c, out = if k * 4 <? n * 3
                     then (Err (raiseError swagger schema (VMap (Some objMap))
                                  "too many mismatched fields"), c)
                     else (Ok tt, c)) as [c Hout].
  { subst out. cbn [Parses]. unfold Parses_body.
    erewrite bind_Ok; [|unfold lift; by rewrite (GetReferredSchema_no_ref _ _ Href)].
    cbn [Value]. rewrite bool_decide_eq_false_2 by (by intros [??]).
    rewrite Hvalue. erewrite bind_Ok; [|done].
    destruct (AllOf (Heap swagger a)) as [|part parts] eqn:Hparts'; [done|].
    change (0 <? length (part :: parts))%nat with true. cbv iota.
    destruct (all_of_loop_counts fuel objMap followRef swagger (part :: parts) ps 0
                collected Hparts) as [c1 Hc1].
    erewrite bind_Ok; [|exact Hc1]. rewrite Z.add_0_l. fold k n.
    destruct (k * 4 <? n * 3); [by eexists|].
    destruct (record_under_name name (VMap (Some objMap)) c1) as [c2 Hc2].
    rewrite Hc2. by eexists. }
  rewrite Hout. destruct (Z.ltb_spec (k * 4) (n * 3)); cbn; split; try done; try lia.
Qed.

(** When no field is declared twice, the members account for the fields
    that some member declares, each once. *)
Lemma accounted_declared_once ps (objMap : gmap string Interface) :
  declared_once ps objMap → accounted objMap ps = size (declared ps objMap).
Proof.
  induction ps as [|p ps IH]; intros Honce.
  - unfold accounted, declared. cbn. symmetry. apply map_size_empty_iff.
    apply map_eq. intros k. rewrite map_lookup_filter, lookup_empty.
    destruct (objMap !! k); [|done]. cbn.
    rewrite option_guard_False; [done|]. by intros ?%Exists_nil.
  - unfold accounted. cbn [fmap list_fmap sum_list]. fold (accounted objMap ps).
    rewrite IH.
    2:{ intros i j p' q k Hi Hj Hij. apply (Honce (S i) (S j)); [done..|lia]. }
    unfold declared at 2.
    rewrite (proj1 (map_filter_ext _
                      (λ kv, is_Some (p !! kv.1) ∨ Exists (λ p, is_Some (p !! kv.1)) ps)
                      objMap)).
    2:{ intros k x _. apply Exists_cons. }
    rewrite map_filter_or. fold (sub_object p objMap) (declared ps objMap).
    rewrite map_size_disj_union; [done|].
    apply map_disjoint_spec. intros k x y Hp Hps.
    apply map_lookup_filter_Some in Hp as [Hx Hp].
    apply map_lookup_filter_Some in Hps as [_ Hps]. cbn [fst] in Hp, Hps.
    apply Exists_exists in Hps as (q & Hq & Hqk).
    apply list_elem_of_lookup in Hq as [j Hj].
    by apply (Honce 0%nat (S j) p q k).
Qed.

(** Two members that declare the same field account for it twice. *)
Lemma accounted_twice (p : gmap string SchemaRef) (objMap : gmap string Interface) :
  accounted objMap [p; p] = (2 * size (sub_object p objMap))%nat.
Proof. unfold accounted. cbn. unfold id. lia. Qed.

(** C2, as the code has it. For a keyed object with [n] fields and a node
    that is no reference:
    - object kind: when every required field of the schema is present and
      every field that the schema declares parses, [Parses] succeeds iff
      [4k >= 3n], where [k] counts the fields of the object that the schema
      declares; otherwise it fails with "too many mis-matched fields";
    - composite: when every member parses the part of the object that it
      declares and no field of the object is declared by two members,
      [Parses] succeeds iff [4k >= 3n], where [k] counts the fields of the
      object that some member declares; otherwise it fails with "too many
      mismatched fields". *)
Theorem Parses_threshold :
  (∀ fuel swagger schema a name objMap followRef collected,
     Ref schema = "" →
     Value schema = Some a →
     AllOf (Heap swagger a) = [] →
     (∀ r, r ∈ Required (Heap swagger a) → is_Some (objMap !! r)) →
     (∀ k v ps, objMap !! k = Some v → Properties (Heap swagger a) !! k = Some ps →
        parses_ok fuel ps v followRef swagger) →
     let n := Z.of_nat (size objMap) in
     let k := Z.of_nat (size (recognized (Heap swagger a) objMap)) in
     let out :=
       Parses (S fuel) schema name (VMap (Some objMap)) followRef swagger (Some collected) in
     (is_ok out.1 = true ↔ 3 * n ≤ 4 * k)
     ∧ (4 * k < 3 * n →
        out.1 = Err (raiseError swagger schema (VMap (Some objMap))
                       "too many mis-matched fields")))
  ∧ (∀ fuel swagger schema a name objMap followRef ps collected,
       Ref schema = "" →
       Value schema = Some a →
       AllOf (Heap swagger a) ≠ [] →
       Forall2 (member_ok fuel objMap followRef swagger) (AllOf (Heap swagger a)) ps →
       declared_once ps objMap →
       let n := Z.of_nat (size objMap) in
       let k := Z.of_nat (size (declared ps objMap)) in
       let out :=
         Parses (S fuel) schema name (VMap (Some objMap)) followRef swagger (Some collected) in
       (is_ok out.1 = true ↔ 3 * n ≤ 4 * k)
       ∧ (4 * k < 3 * n →
          out.1 = Err (raiseError swagger schema (VMap (Some objMap))
                         "too many mismatched fields"))).
Proof.
  split.
  - intros fuel swagger schema a name objMap followRef collected Href Hvalue Hallof Hreq Hf.
    exact (Parses_object_threshold fuel swagger schema a name objMap followRef collected
             Href Hvalue Hallof Hreq Hf).
  - intros fuel swagger schema a name objMap followRef ps collected Href Hvalue Hallof Hps
      Honce.
    rewrite <- (accounted_declared_once ps objMap Honce).
    exact (Parses_composite_threshold fuel swagger schema a name objMap followRef ps
             collected Href Hvalue Hallof Hps).
Qed.

(** *** Values against schemas that constrain by the type alone *)








(** *** Traversal *)

(** A loop keeps what each of its iterations keeps, and ends when they do. *)
Lemma for_each_invariant {St A} (I : St → Prop) (xs : list A) (body : A → M St unit) :
  (∀ x c, x ∈ xs → I c → I (body x c).2 ∧ (body x c).1 ≠ OutOfFuel) →
  ∀ c, I c → I (for_each xs body c).2 ∧ (for_each xs body c).1 ≠ OutOfFuel.
Proof.
  induction xs as [|x xs IH]; intros Hbody c Hc; [done|].
  cbn [for_each]. unfold bind.
  destruct (Hbody x c (list_elem_of_here _ _) Hc) as [Hkeep Hends].
  destruct (body x c) as [[[]| | |] c1]; cbn in *; try done.
  apply IH; [|done]. intros x' c' Hx'. apply Hbody. by right.
Qed.

Lemma GetReferredSchema_cases swagger schema :
  (∃ name referred, GetReferredSchema swagger schema = Ok (name, referred))
  ∨ (∃ e, GetReferredSchema swagger schema = Err e).
Proof.
  unfold GetReferredSchema. destruct (decide _); [eauto|].
  destruct (Schemas swagger !! Ref schema); eauto.
Qed.

(** The body of [Iterate] on a node that is not tagged Weak: when the
    recursive calls keep [I] on the nodes that [av] accepts, and the visitor
    keeps [I] away from [target], then what follows the visit of [schema]
    keeps [I] and ends. *)
Lemma Iterate_body_invariant {Ctx} (iterFunc : SchemaIterator Ctx) (I : Ctx → Prop)
  swagger target (av : SchemaRef → bool) (rec : SchemaRef → M Ctx unit) schema a c :
  (∀ name s c, Value s ≠ Some target → I c → I (iterFunc swagger name s c).2) →
  (∀ name s c, (iterFunc swagger name s c).1 ≠ OutOfFuel) →
  (∀ s c, av s = true → I c → I (rec s c).2 ∧ (rec s c).1 ≠ OutOfFuel) →
  Value schema = Some a →
  tagged_weak (Description (Heap swagger a)) = false →
  expands_away av swagger target schema (Heap swagger a) = true →
  I (iterFunc swagger "" schema c).2 →
  I (Iterate_body rec schema iterFunc swagger false c).2
  ∧ (Iterate_body rec schema iterFunc swagger false c).1 ≠ OutOfFuel.
Proof.
  intros Hvisit Hends Hrec Hvalue Hweak Haway Hfirst.
  unfold Iterate_body. rewrite Hvalue. erewrite bind_Ok; [|done].
  rewrite Hweak. cbn [andb].
  pose proof (Hends "" schema c) as Hends1.
  destruct (iterFunc swagger "" schema c) as [r1 c1] eqn:Hcall. cbn in Hfirst, Hends1.
  destruct r1 as [[]| | |];
    [erewrite bind_Ok; [|exact Hcall]
    |by erewrite bind_Err; [|exact Hcall]
    |by erewrite bind_Panic; [|exact Hcall]
    |done].
  unfold expands_away in Haway.
  destruct (0 <? length (AllOf (Heap swagger a)))%nat.
  { apply for_each_invariant; [|done]. intros s c' Hs Hc'. apply Hrec; [|done].
    rewrite forallb_forall in Haway. apply Haway. by apply list_elem_of_In. }
  destruct (GetReferredSchema_cases swagger schema) as [(name & referred & Hget)|[e Hget]];
    rewrite Hget in Haway; [|by erewrite bind_Err; [|unfold lift; by rewrite Hget]].
  erewrite bind_Ok; [|unfold lift; by rewrite Hget]. cbv beta iota.
  destruct (Value referred) as [ra|] eqn:Hra.
  - destruct (tagged_weak (Description (Heap swagger ra))); cbn [andb negb orb] in *; [done|].
    split; [|apply Hends].
    apply Hvisit; [|done]. rewrite Hra. intros [= ->].
    by rewrite bool_decide_eq_true_2 in Haway.
  - apply andb_prop in Haway as [Hobject Harray].
    set (properties := if Contains (Type_ (Heap swagger a)) TYPE_OBJECT
                       then for_each (range (Properties (Heap swagger a)))
                              (λ kv : string * SchemaRef, rec kv.2)
                       else ret tt).
    assert (I (properties c1).2 ∧ (properties c1).1 ≠ OutOfFuel) as [Hkeep Hends2].
    { subst properties. destruct (Contains (Type_ (Heap swagger a)) TYPE_OBJECT); [|done].
      apply for_each_invariant; [|done]. intros [k ps] c' Hin Hc'. apply Hrec; [|done].
      rewrite forallb_forall in Hobject. apply (Hobject (k, ps)).
      apply list_elem_of_In. by rewrite <- (range_perm (Properties (Heap swagger a))). }
    destruct (properties c1) as [r2 c2] eqn:Hprops. cbn in Hkeep, Hends2.
    destruct r2 as [[]| | |];
      [erewrite bind_Ok; [|exact Hprops]
      |by erewrite bind_Err; [|exact Hprops]
      |by erewrite bind_Panic; [|exact Hprops]
      |done].
    destruct (Contains (Type_ (Heap swagger a)) TYPE_ARRAY); [|done].
    destruct (Items (Heap swagger a)) as [itemSchema|]; [|done].
    by apply Hrec.
Qed.

(** A traversal that avoids [target] keeps what the visitor keeps away from
    [target], and ends. *)
Lemma Iterate_avoids {Ctx} (iterFunc : SchemaIterator Ctx) (I : Ctx → Prop) swagger target :
  (∀ name s c, Value s ≠ Some target → I c → I (iterFunc swagger name s c).2) →
  (∀ name s c, (iterFunc swagger name s c).1 ≠ OutOfFuel) →
  ∀ h schema c,
    avoids h swagger target schema = true → I c →
    I (Iterate h schema iterFunc swagger false c).2
    ∧ (Iterate h schema iterFunc swagger false c).1 ≠ OutOfFuel.
Proof.
  intros Hvisit Hends. induction h as [|h IH]; intros schema c Hav Hc; [done|].
  cbn [Iterate]. cbn [avoids] in Hav.
  destruct (Value schema) as [a|] eqn:Hvalue.
  - destruct (tagged_weak (Description (Heap swagger a))) eqn:Hweak.
    + unfold Iterate_body. rewrite Hvalue. erewrite bind_Ok; [|done]. by rewrite Hweak.
    + cbn in Hav. apply andb_prop in Hav as [Hne Haway].
      apply (Iterate_body_invariant iterFunc I swagger target (avoids h swagger target)
               _ schema a c); try done.
      apply Hvisit; [|done]. rewrite Hvalue. intros [= ->].
      by rewrite bool_decide_eq_true_2 in Hne.
  - unfold Iterate_body. by rewrite Hvalue.
Qed.

(** More depth does not hurt. *)
Lemma expands_away_mono (av av' : SchemaRef → bool) swagger target schema sv :
  (∀ s, av s = true → av' s = true) →
  expands_away av swagger target schema sv = true →
  expands_away av' swagger target schema sv = true.
Proof.
  intros Hmono Haway. unfold expands_away in Haway |- *.
  destruct (0 <? length _)%nat.
  { rewrite forallb_forall in Haway |- *. auto. }
  destruct (GetReferredSchema swagger schema) as [[name referred]| | |]; try done.
  destruct (Value referred); [done|].
  apply andb_prop in Haway as [Hobject Harray]. apply andb_true_intro. split.
  - destruct (Contains _ TYPE_OBJECT); [|done].
    rewrite forallb_forall in Hobject |- *. auto.
  - destruct (Contains _ TYPE_ARRAY); [|done].
    destruct (Items _); [|done]. auto.
Qed.

Lemma avoids_S h swagger target schema :
  avoids (S h) swagger target schema
  = match Value schema with
    | None => true
    | Some a =>
      tagged_weak (Description (Heap swagger a))
      || (negb (bool_decide (a = target))
          && expands_away (avoids h swagger target) swagger target schema
               (Heap swagger a))
    end.
Proof. done. Qed.

Lemma avoids_deeper h swagger target schema :
  avoids h swagger target schema = true → avoids (S h) swagger target schema = true.
Proof.
  revert schema. induction h as [|h IH]; intros schema Hav; [done|].
  rewrite avoids_S in Hav. rewrite (avoids_S (S h)).
  destruct (Value schema) as [a|]; [|done].
  destruct (tagged_weak _); [done|]. cbn [orb] in Hav |- *.
  apply andb_prop in Hav as [-> Haway]. cbn [andb].
  by apply (expands_away_mono (avoids h swagger target)).
Qed.

Lemma expands_away_deeper h h' swagger target schema sv :
  (h ≤ h')%nat →
  expands_away (avoids h swagger target) swagger target schema sv = true →
  expands_away (avoids h' swagger target) swagger target schema sv = true.
Proof.
  intros Hle. apply expands_away_mono. induction Hle as [|h' Hle IH]; [done|].
  intros s Hs. by apply avoids_deeper, IH.
Qed.

(** The recording visitor counts a visit of [a] only on a node that points
    to the schema at [a]. *)
Lemma record_elsewhere swagger a name s log :
  Value s ≠ Some a → visits a (record swagger name s log).2 = visits a log.
Proof.
  intros Hne. unfold record, visits. cbn [snd].
  rewrite filter_app, filter_cons, filter_nil. cbn [snd].
  rewrite decide_False by done. by rewrite app_nil_r.
Qed.

(** A loop keeps what each of its iterations keeps. *)
Lemma for_each_keeps_invariant {St A} (I : St → Prop) (xs : list A) (body : A → M St unit) :
  (∀ x c, x ∈ xs → I c → I (body x c).2) →
  ∀ c, I c → I (for_each xs body c).2.
Proof.
  induction xs as [|x xs IH]; intros Hbody c Hc; [done|].
  cbn [for_each]. unfold bind.
  pose proof (Hbody x c (list_elem_of_here _ _) Hc) as Hkeep.
  destruct (body x c) as [[[]| | |] c1]; cbn in *; try done.
  apply IH; [|done]. intros x' c' Hx'. apply Hbody. by right.
Qed.

(** Without the weak edges, no visit is ever made to a node tagged Weak. *)
Lemma Iterate_records_no_weak fuel swagger :
  ∀ schema log,
    Forall (λ call, weak_node swagger call.2 = false) log →
    Forall (λ call, weak_node swagger call.2 = false)
      (Iterate fuel schema record swagger false log).2.
Proof.
  induction fuel as [|fuel IH]; intros schema log Hlog; [done|].
  cbn [Iterate]. unfold Iterate_body.
  destruct (Value schema) as [a|] eqn:Hvalue; [|done].
  erewrite bind_Ok; [|done].
  destruct (tagged_weak (Description (Heap swagger a))) eqn:Hweak; [done|].
  cbn [andb]. erewrite bind_Ok; [|done].
  assert (Forall (λ call, weak_node swagger call.2 = false) (log ++ [("", schema)]))
    as Hlog1.
  { apply Forall_app. split; [done|]. constructor; [|done].
    unfold weak_node. cbn. by rewrite Hvalue. }
  destruct (0 <? length (AllOf (Heap swagger a)))%nat.
  { apply for_each_keeps_invariant; [|done]. intros s c _ Hc. by apply IH. }
  destruct (GetReferredSchema_cases swagger schema) as [(name & referred & Hget)|[e Hget]];
    [|by erewrite bind_Err; [|unfold lift; by rewrite Hget]].
  erewrite bind_Ok; [|unfold lift; by rewrite Hget]. cbv beta iota.
  destruct (Value referred) as [ra|] eqn:Hra.
  - destruct (tagged_weak (Description (Heap swagger ra))) eqn:Hweak'; [done|].
    cbn. apply Forall_app. split; [done|]. constructor; [|done].
    unfold weak_node. cbn. by rewrite Hra.
  - set (properties := if Contains (Type_ (Heap swagger a)) TYPE_OBJECT
                       then for_each (range (Properties (Heap swagger a)))
                              (λ kv : string * SchemaRef,
                                 Iterate fuel kv.2 record swagger false)
                       else ret tt).
    assert (Forall (λ call, weak_node swagger call.2 = false)
              (properties (log ++ [("", schema)])).2) as Hkeep.
    { subst properties. destruct (Contains (Type_ (Heap swagger a)) TYPE_OBJECT); [|done].
      apply for_each_keeps_invariant; [|done]. intros kv c _ Hc. by apply IH. }
    destruct (properties (log ++ [("", schema)])) as [r2 c2] eqn:Hprops. cbn in Hkeep.
    destruct r2 as [[]| | |];
      [erewrite bind_Ok; [|exact Hprops]
      |by erewrite bind_Err; [|exact Hprops]
      |by erewrite bind_Panic; [|exact Hprops]
      |by unfold bind; rewrite Hprops].
    destruct (Contains (Type_ (Heap swagger a)) TYPE_ARRAY); [|done].
    destruct (Items (Heap swagger a)) as [itemSchema|]; [|done].
    by apply IH.
Qed.

(** C4 (weak edges). With [followWeak] false, [Iterate] on a node tagged
    Weak returns success and leaves the context as it is, whatever the
    visitor does: the visitor is not called; and no traversal ever calls the
    visitor on a node tagged Weak. Consequently, on a schema that is not
    tagged Weak and from which every path back to the schema itself meets a
    node tagged Weak (and whose paths that meet none are finite), [Iterate]
    ends for every visitor, with any fuel beyond the depth, and calls the
    visitor once on the schema: on the starting node. *)
Theorem Iterate_weak_edges :
  (∀ Ctx fuel schema (iterFunc : SchemaIterator Ctx) swagger context,
     weak_node swagger schema = true →
     Iterate (S fuel) schema iterFunc swagger false context = (Ok tt, context))
  ∧ (∀ fuel schema swagger,
       Forall (λ call, weak_node swagger call.2 = false)
         (Iterate fuel schema record swagger false []).2)
  ∧ (∀ h fuel swagger root a,
       Value root = Some a →
       weak_node swagger root = false →
       expands_away (avoids h swagger a) swagger a root (Heap swagger a) = true →
       (h < fuel)%nat →
       (∀ Ctx (iterFunc : SchemaIterator Ctx) context,
          (∀ name s c, (iterFunc swagger name s c).1 ≠ OutOfFuel) →
          (Iterate fuel root iterFunc swagger false context).1 ≠ OutOfFuel)
       ∧ ∃ r log,
           Iterate fuel root record swagger false [] = (r, log)
           ∧ r ≠ OutOfFuel
           ∧ visits a log = 1%nat).
Proof.
  split; [|split].
  - intros Ctx fuel schema iterFunc swagger context Hweak. unfold weak_node in Hweak.
    destruct (Value schema) as [a|] eqn:Hvalue; [|done].
    cbn [Iterate]. unfold Iterate_body. rewrite Hvalue. erewrite bind_Ok; [|done].
    by rewrite Hweak.
  - intros fuel schema swagger. by apply Iterate_records_no_weak.
  - intros h fuel swagger root a Hvalue Hweak Haway Hfuel.
    unfold weak_node in Hweak. rewrite Hvalue in Hweak.
    destruct fuel as [|fuel]; [lia|].
    apply (expands_away_deeper h fuel) in Haway; [|lia].
    split.
    + intros Ctx iterFunc context Hends. cbn [Iterate].
      apply (Iterate_body_invariant iterFunc (λ _, True) swagger a
               (avoids fuel swagger a) _ root a context); try done.
      intros s c Hs _. by apply (Iterate_avoids iterFunc (λ _, True) swagger a).
    + destruct (Iterate (S fuel) root record swagger false []) as [r log] eqn:Hrun.
      exists r, log. split; [done|].
      cbn [Iterate] in Hrun.
      destruct (Iterate_body_invariant record (λ log, visits a log = 1%nat) swagger a
                  (avoids fuel swagger a)
                  (λ s, Iterate fuel s record swagger false) root a [])
        as [Hcount Hends]; try done.
      * intros name s c Hne Hc. by rewrite record_elsewhere.
      * intros s c Hs Hc.
        apply (Iterate_avoids record (λ log, visits a log = 1%nat) swagger a); try done.
        intros name s' c' Hne Hc'. by rewrite record_elsewhere.
      * unfold record, visits. cbn. by rewrite Hvalue, decide_True.
      * rewrite Hrun in Hcount, Hends. done.
Qed.

End schema.

(** ** The schema engine, on examples *)

Section schema_examples.
Import Examples.
Local Existing Instance libs.

(** Turning a lookup in a concrete map into a membership in the list of
    its entries. *)
Local Ltac enumerate H :=
  apply elem_of_map_to_list in H;
  match type of H with
  | _ ∈ ?l => let l' := eval vm_compute in l in change l with l' in H
  end.

(** Closing [parses_ok] on a concrete value by evaluation. *)
Local Ltac parses_by_evaluation :=
  let collected := fresh "collected" in
  intros collected; eexists; vm_compute; reflexivity.

(** The claim of C2 as the specification words it fails: the object
    [nameless] has one field, which the schema at 2 declares and which
    parses, so [4k >= 3n]; but [Parses] fails, because the required field
    [id] is absent. *)
Lemma Parses_threshold_needs_required :
  (size nameless = 1%nat ∧ size (recognized (heap 2) nameless) = 1%nat)
  ∧ (∀ k v ps, nameless !! k = Some v → Properties (heap 2) !! k = Some ps →
       parses_ok 1 ps v true document)
  ∧ (Parses 2 (node 2) "" (VMap (Some nameless)) true document (Some ∅)).1
    = Err (raiseError document (node 2) (VMap (Some nameless))
             "required field not present: id").
Proof.
  split; [by vm_compute|]. split; [|by vm_compute].
  intros k v ps Hk Hps. unfold nameless in Hk.
  apply lookup_singleton_Some in Hk as [<- <-].
  change (Properties (heap 2)) with ({["name" := node 1]} : gmap string SchemaRef) in Hps.
  apply lookup_singleton_Some in Hps as [_ <-].
  parses_by_evaluation.
Qed.

(** The boundary of the threshold: three recognized fields out of four
    parse, two out of three do not. *)
Example Parses_threshold_boundary :
  (Parses 2 (node 3) "" (VMap (Some abcx)) true document (Some ∅)).1 = Ok tt
  ∧ (Parses 2 (node 3) "" (VMap (Some abx)) true document (Some ∅)).1
    = Err (raiseError document (node 3) (VMap (Some abx)) "too many mis-matched fields")
  ∧ (Parses 3 (node 6) "" (VMap (Some abcx)) true document (Some ∅)).1 = Ok tt
  ∧ (Parses 3 (node 6) "" (VMap (Some abx)) true document (Some ∅)).1
    = Err (raiseError document (node 6) (VMap (Some abx)) "too many mismatched fields").
Proof. repeat split; vm_compute; reflexivity. Qed.

(** A field that two members declare counts twice: of the four fields of
    [abxy] the members of the composite at 7 declare two, and the object
    parses. *)
Example Parses_counts_twice :
  size abxy = 4%nat
  ∧ size (declared [Properties (heap 4); Properties (heap 4)] abxy) = 2%nat
  ∧ accounted abxy [Properties (heap 4); Properties (heap 4)] = 4%nat
  ∧ (Parses 3 (node 7) "" (VMap (Some abxy)) true document (Some ∅)).1 = Ok tt.
Proof. repeat split; vm_compute; reflexivity. Qed.

(** [Parses_threshold] on the object [abcx], against the object schema at 3
    and against the composite at 6. *)
Lemma Parses_threshold_example :
  (let n := Z.of_nat (size abcx) in
   let k := Z.of_nat (size (recognized (heap 3) abcx)) in
   let out := Parses 2 (node 3) "" (VMap (Some abcx)) true document (Some ∅) in
   (is_ok out.1 = true ↔ 3 * n ≤ 4 * k)
   ∧ (4 * k < 3 * n →
      out.1 = Err (raiseError document (node 3) (VMap (Some abcx))
                     "too many mis-matched fields")))
  ∧ (let n := Z.of_nat (size abcx) in
     let k := Z.of_nat (size (declared [Properties (heap 4); Properties (heap 5)] abcx)) in
     let out := Parses 3 (node 6) "" (VMap (Some abcx)) true document (Some ∅) in
     (is_ok out.1 = true ↔ 3 * n ≤ 4 * k)
     ∧ (4 * k < 3 * n →
        out.1 = Err (raiseError document (node 6) (VMap (Some abcx))
                       "too many mismatched fields"))).
Proof.
  split.
  - apply (proj1 (@Parses_threshold libs) 1%nat document (node 3) 3%positive "" abcx true ∅).
    + reflexivity.
    + reflexivity.
    + reflexivity.
    + intros r Hr. by apply elem_of_nil in Hr.
    + intros k v ps Hk Hps.
      assert (ps = node 1) as ->.
      { enumerate Hps.
        repeat (apply elem_of_cons in Hps as [Hps|Hps]; [by inversion Hps|]).
        by apply elem_of_nil in Hps. }
      enumerate Hk.
      repeat (apply elem_of_cons in Hk as [[= _ ->]|Hk]; [parses_by_evaluation|]).
      by apply elem_of_nil in Hk.
  - apply (proj2 (@Parses_threshold libs) 2%nat document (node 6) 6%positive "" abcx true
             [Properties (heap 4); Properties (heap 5)] ∅).
    + reflexivity.
    + reflexivity.
    + discriminate.
    + repeat constructor; intros _; parses_by_evaluation.
    + intros i j p q k Hi Hj Hij [v Hk] [ps Hp] [qs Hq].
      destruct i as [|[|i]], j as [|[|j]]; try done;
        injection Hi as <-; injection Hj as <-; enumerate Hp; enumerate Hq;
        repeat (apply elem_of_cons in Hp as [Hp|Hp];
                [inversion Hp; subst;
                 repeat (apply elem_of_cons in Hq as [Hq|Hq]; [by inversion Hq|]);
                 by apply elem_of_nil in Hq|]);
        by apply elem_of_nil in Hp.
Defined.

(** [Iterate_weak_edges] on the schema [Tree], whose reference to itself
    lies behind the array tagged Weak. *)
Lemma Iterate_weak_edges_example :
  (∀ Ctx (iterFunc : SchemaIterator Ctx) context,
     Iterate 1 (node 11) iterFunc document false context = (Ok tt, context))
  ∧ (∀ Ctx (iterFunc : SchemaIterator Ctx) context,
       (∀ name s c, (iterFunc document name s c).1 ≠ OutOfFuel) →
       (Iterate 2 (node 10) iterFunc document false context).1 ≠ OutOfFuel)
  ∧ ∃ r log,
      Iterate 2 (node 10) record document false [] = (r, log)
      ∧ r ≠ OutOfFuel
      ∧ visits 10%positive log = 1%nat.
Proof.
  pose proof (@Iterate_weak_edges libs) as (Hskip & _ & Hself).
  split.
  - intros Ctx iterFunc context.
    apply (Hskip Ctx 0%nat (node 11) iterFunc document context). reflexivity.
  - apply (Hself 1%nat 2%nat document (node 10) 10%positive).
    + reflexivity.
    + reflexivity.
    + vm_compute. reflexivity.
    + lia.
Defined.

(** What the traversal of [Tree] records: without the weak edges, the tree
    and its name; with them, also the array, the reference in it and the
    tree again ([children] comes before [name] in the examples' [range]). *)
Example Iterate_Tree :
  Iterate 2 (node 10) record document false []
  = (Ok tt, [("", node 10); ("", node 1)])
  ∧ Iterate 3 (node 10) record document true []
    = (Ok tt, [("", node 10); ("", node 11);
               ("", mkSchemaRef "Tree" (Some 10%positive)); ("Tree", node 10);
               ("", node 1)]).
Proof. split; vm_compute; reflexivity. Qed.

End schema_examples.

(** ** The value generator and the test plan *)

Section plan.
Import mqplan.
Context `{Libs} `{PlanLibs}.

(** The effective bounds of [generateFloat]. *)
Lemma generateFloat_unfold v w :
  generateFloat v w
  = let realmin :=
      match Minimum v with
      | Some minimum => if ExclusiveMinimum v then (minimum + 0.01)%float else minimum
      | None => 0%float
      end in
    let realmax :=
      match Maximum v with
      | Some maximum => if ExclusiveMaximum v then (maximum - 0.01)%float else maximum
      | None => 0%float
      end in
    if fge realmin realmax then
      match Minimum v, Maximum v with
      | None, None => (let* f := Float64 in ret (f * (1 - -1) + -1)%float) w
      | Some _, _ =>
        (let* f := Float64 in
         ret (f * (realmin + PrimFloat.abs realmin - realmin) + realmin)%float) w
      | None, Some _ =>
        (let* f := Float64 in
         ret (f * (realmax - (realmax - PrimFloat.abs realmax))
              + (realmax - PrimFloat.abs realmax))%float) w
      end
    else (let* f := Float64 in ret (f * (realmax - realmin) + realmin)%float) w.
Proof.
  unfold generateFloat. cbv zeta.
  destruct (fge _ _); [|done].
  destruct (Minimum v), (Maximum v); done.
Qed.

(** C5, as the code has it. When both a minimum and a maximum are declared,
    [generateFloat] returns a value whatever the bounds are: when the
    effective minimum is not below the effective maximum, the maximum is
    replaced by [realmin + |realmin|] and the draw goes on. *)
Theorem generateFloat_declared_bounds v w minimum maximum :
  Minimum v = Some minimum →
  Maximum v = Some maximum →
  let realmin := if ExclusiveMinimum v then (minimum + 0.01)%float else minimum in
  let realmax := if ExclusiveMaximum v then (maximum - 0.01)%float else maximum in
  fge realmin realmax = true →
  generateFloat v w
  = (let* f := Float64 in
     ret (f * (realmin + PrimFloat.abs realmin - realmin) + realmin)%float) w
  ∧ ∃ f w', generateFloat v w = (Ok f, w').
Proof.
  intros Hmin Hmax realmin realmax Hge.
  rewrite generateFloat_unfold, Hmin, Hmax. fold realmin realmax. cbv zeta.
  rewrite Hge. split; [done|]. cbv [bind Float64 read ret]. eauto.
Qed.

(** C8, as the code has it. A parameter definition with a body schema makes
    [generateParameter] panic with "not implemented"; nothing is read from
    the outside world. *)
Theorem generateParameter_body_schema paramSpec db w schema :
  Schema paramSpec = Some schema →
  generateParameter paramSpec db w = (Panic "not implemented", w).
Proof.
  intros Hschema. unfold generateParameter. by rewrite Hschema.
Qed.

(** The loop of [ResolveParameters], by the first missing parameter. *)
Lemma resolve_loop_first_missing db t w parameters :
  resolve_loop db t w parameters
  = match list_find (λ params, ¬ is_Some (map_get (Parameters t) (ParamName params)))
            parameters with
    | None => (Ok tt, (t, w))
    | Some (_, params) =>
      match generateParameter params db w with
      | (Ok p, w') =>
        match Parameters t with
        | Some m => (Ok tt, (set_Parameters t (Some (<[ParamName params := p]> m)), w'))
        | None => (Panic "assignment to entry in nil map", (t, w'))
        end
      | (Err e, w') => (Err e, (t, w'))
      | (Panic msg, w') => (Panic msg, (t, w'))
      | (OutOfFuel, w') => (OutOfFuel, (t, w'))
      end
    end.
Proof.
  induction parameters as [|params parameters IH]; [done|].
  cbn [resolve_loop list_find].
  destruct (decide (is_Some (map_get (Parameters t) (ParamName params)))) as [Hsome|Hnone].
  - rewrite bool_decide_eq_true_2 by done. rewrite decide_False by auto.
    rewrite IH. by destruct (list_find _ parameters) as [[i p]|].
  - rewrite bool_decide_eq_false_2 by done. rewrite decide_True by done. cbn.
    destruct (generateParameter params db w) as [[p| | |] w']; try done.
    by destruct (Parameters t).
Qed.

(** C9, as the code has it. For a test whose operation is registered,
    [ResolveParameters] never changes a value that the test supplies. When
    no declared parameter is missing it succeeds and changes nothing.
    Otherwise it generates a value for the first missing parameter only:
    when the generator returns a value, that one parameter is added and the
    call succeeds (it panics when the parameter map of the test is nil);
    when the generator fails, the failure is returned and the test is as
    before. *)
Theorem ResolveParameters_first_missing swagger db plan t w op :
  getOperationByMethod (default no_PathItem (Paths swagger !! Path t)) (Method t) = Some op →
  ∃ r t' w',
    ResolveParameters swagger db plan (t, w) = (r, (t', w'))
    ∧ (∀ k v, map_get (Parameters t) k = Some v → map_get (Parameters t') k = Some v)
    ∧ match first_missing t op with
      | None => r = Ok tt ∧ t' = t ∧ w' = w
      | Some params =>
        match generateParameter params db w with
        | (Ok p, w1) =>
          w' = w1
          ∧ match Parameters t with
            | Some m =>
              r = Ok tt ∧ t' = set_Parameters t (Some (<[ParamName params := p]> m))
            | None => r = Panic "assignment to entry in nil map" ∧ t' = t
            end
        | (Err e, w1) => r = Err e ∧ t' = t ∧ w' = w1
        | (Panic msg, w1) => r = Panic msg ∧ t' = t ∧ w' = w1
        | (OutOfFuel, w1) => r = OutOfFuel ∧ t' = t ∧ w' = w1
        end
      end.
Proof.
  intros Hop. unfold ResolveParameters, first_missing. rewrite Hop.
  rewrite resolve_loop_first_missing.
  destruct (list_find _ (OpParameters op)) as [[i params]|] eqn:Hfind;
    cbn [fmap option_fmap option_map snd].
  - apply list_find_Some in Hfind as (_ & Hmissing & _).
    destruct (generateParameter params db w) as [[p| | |] w1]; try by eauto 10.
    destruct (Parameters t) as [m|] eqn:Hm; [|by eexists _, _, _].
    eexists _, _, _. split; [done|]. split; [|done].
    intros k v Hk. cbn in *.
    rewrite lookup_insert_ne; [done|]. intros <-. apply Hmissing. by exists v.
  - by eauto 10.
Qed.

(** [Add] refuses a name that the plan has and leaves the plan alone. *)
Lemma Add_duplicate name testCase plan :
  is_Some (map_get (CaseMap plan) name) →
  Add name testCase plan
  = (Err (ErrorString ("Duplicate name " +:+ name +:+ " found in test plan")), plan).
Proof.
  intros Hname. unfold Add. by rewrite bool_decide_eq_true_2.
Qed.

(** [Add] never replaces or removes a case of the plan. *)
Lemma Add_keeps name testCase plan name0 testCase0 :
  map_get (CaseMap plan) name0 = Some testCase0 →
  map_get (CaseMap (Add name testCase plan).2) name0 = Some testCase0
  ∧ ∀ msg, (Add name testCase plan).1 ≠ Panic msg.
Proof.
  intros Hname0. unfold Add.
  destruct (decide (is_Some (map_get (CaseMap plan) name))) as [Hsome|Hnone].
  - by rewrite bool_decide_eq_true_2.
  - rewrite bool_decide_eq_false_2 by done.
    destruct (CaseMap plan) as [m|] eqn:Hm; [|done]. cbn in *.
    split; [|done]. rewrite lookup_insert_ne; [done|].
    intros <-. apply Hnone. by exists testCase0.
Qed.

(** A sequence, by the outcome of its first part. *)
Lemma bind_unfold {St A B} (m : M St A) (k : A → M St B) s :
  bind m k s
  = match m s with
    | (Ok a, s') => k a s'
    | (Err e, s') => (Err e, s')
    | (Panic msg, s') => (Panic msg, s')
    | (OutOfFuel, s') => (OutOfFuel, s')
    end.
Proof. done. Qed.

(** The loop over the tests of a case: it panics at a nil pointer, and
    otherwise puts the methods in upper case. *)
Lemma upper_methods_returns (testCase : TestCase) :
  None ∉ testCase → upper_methods testCase = Ok (map (option_map upper_method) testCase).
Proof.
  induction testCase as [|[t|] testCase IH]; intros Hnil; [done| |].
  - cbn [upper_methods]. rewrite IH; [done|]. intros Hin. apply Hnil. by right.
  - exfalso. apply Hnil. by left.
Qed.

Lemma upper_methods_outcome (testCase : TestCase) :
  upper_methods testCase = Ok (map (option_map upper_method) testCase)
  ∨ (None ∈ testCase
     ∧ upper_methods testCase = Panic "invalid memory address or nil pointer dereference").
Proof.
  induction testCase as [|[t|] testCase IH]; [by left| |right; split; [by left|done]].
  cbn [upper_methods]. destruct IH as [-> | [Hin ->]]; [by left|].
  right. split; [by right|done].
Qed.

(** Adding a case of a document to the plan, as [AddFromString] does. *)
Lemma add_case_keeps testName (testCase : TestCase) plan name testCase0 :
  map_get (CaseMap plan) name = Some testCase0 →
  let out := (let* testCase := lift (upper_methods testCase) in Add testName testCase) plan in
  map_get (CaseMap out.2) name = Some testCase0
  ∧ out.1 ≠ OutOfFuel
  ∧ (∀ msg, out.1 = Panic msg → None ∈ testCase).
Proof.
  intros Hname. cbv zeta. unfold bind, lift.
  destruct (upper_methods_outcome testCase) as [-> | [Hnil ->]]; [|done].
  destruct (Add_keeps testName (map (option_map upper_method) testCase) plan name testCase0 Hname)
    as [Hkeep Hpanic].
  split; [done|]. split.
  - unfold Add. destruct (bool_decide _); [done|]. by destruct (CaseMap plan).
  - intros msg Hmsg. by destruct (Hpanic msg).
Qed.

(** Adding the cases of a document, one of which has a name that is taken:
    the document is not accepted, and the case that had the name still has
    it; when no test of the document is nil, an error is returned. *)
Lemma add_cases_duplicate (cases : list (string * TestCase)) plan name testCase0 :
  map_get (CaseMap plan) name = Some testCase0 →
  name ∈ cases.*1 →
  ∃ r plan',
    for_each cases
      (λ '(testName, testCase),
         let* testCase := lift (upper_methods testCase) in Add testName testCase) plan
    = (r, plan')
    ∧ is_ok r = false
    ∧ map_get (CaseMap plan') name = Some testCase0
    ∧ (Forall (λ kv, None ∉ kv.2) cases → ∃ e, r = Err e).
Proof.
  revert plan. induction cases as [|[testName testCase] cases IH]; intros plan Hname Hin.
  { by apply elem_of_nil in Hin. }
  cbn [for_each]. rewrite bind_unfold.
  destruct (add_case_keeps testName testCase plan name testCase0 Hname)
    as (Hkeep & Hfuel & Hpanic).
  destruct ((let* testCase := lift (upper_methods testCase) in Add testName testCase) plan)
    as [[[]| | |] plan1] eqn:Hcase; cbn in Hkeep, Hfuel, Hpanic.
  - assert (name ≠ testName) as Hne.
    { intros ->. revert Hcase. unfold bind, lift.
      destruct (upper_methods testCase); try done.
      rewrite Add_duplicate; [done|]. by exists testCase0. }
    destruct (IH plan1 Hkeep) as (r & plan' & -> & Hr & Hplan' & Herr).
    { cbn in Hin. by apply elem_of_cons in Hin as [?|?]. }
    exists r, plan'. repeat split; try done.
    intros Hall. apply Herr. by apply Forall_cons in Hall as [_ ?].
  - eexists _, _. repeat split; try done. eauto.
  - eexists _, _. repeat split; try done.
    intros Hall. apply Forall_cons in Hall as [Hnil _]. by destruct (Hnil (Hpanic msg eq_refl)).
  - done.
Qed.

Lemma for_each_keeps (cases : list (string * TestCase)) plan name testCase0 :
  map_get (CaseMap plan) name = Some testCase0 →
  let out :=
    for_each cases
      (λ '(testName, testCase),
         let* testCase := lift (upper_methods testCase) in Add testName testCase) plan in
  map_get (CaseMap out.2) name = Some testCase0 ∧ out.1 ≠ OutOfFuel.
Proof.
  cbv zeta. revert plan.
  induction cases as [|[testName testCase] cases IH]; intros plan Hname; [done|].
  cbn [for_each]. rewrite bind_unfold.
  destruct (add_case_keeps testName testCase plan name testCase0 Hname)
    as (Hkeep & Hfuel & _).
  destruct ((let* testCase := lift (upper_methods testCase) in Add testName testCase) plan)
    as [[[]| | |] plan1]; cbn in Hkeep, Hfuel; try done.
  by apply IH.
Qed.

(** Loading further chunks never replaces or removes a case of the plan. *)
Lemma load_chunks_keeps chunks plan name testCase0 :
  map_get (CaseMap plan) name = Some testCase0 →
  map_get (CaseMap (load_chunks chunks plan).2) name = Some testCase0.
Proof.
  revert plan. induction chunks as [|chunk chunks IH]; intros plan Hname; [done|].
  cbn [load_chunks].
  assert (map_get (CaseMap (AddFromString chunk plan).2) name = Some testCase0
          ∧ (AddFromString chunk plan).1 ≠ OutOfFuel) as (Hkeep & Hfuel).
  { unfold AddFromString. destruct (yaml_Unmarshal chunk) as [err|caseMap]; [done|].
    by apply for_each_keeps. }
  destruct (AddFromString chunk plan) as [[[]| | |] plan1]; cbn in *; try done.
  - by apply IH.
  - by apply IH.
Qed.

(** C7, as the code has it. A case whose name the plan already has is
    refused by [Add] with a duplicate-name error and the plan is as before;
    so a document that defines a name already in the plan is never accepted
    by [AddFromString], and the earlier case keeps the name: the call
    returns an error when no test of the document is nil (at a nil test it
    panics, which may happen before the name is met); and whatever is
    loaded afterwards, the earlier case stays in the plan. *)
Theorem duplicate_case_rejected :
  (∀ name testCase plan,
     is_Some (map_get (CaseMap plan) name) →
     Add name testCase plan
     = (Err (ErrorString ("Duplicate name " +:+ name +:+ " found in test plan")), plan))
  ∧ (∀ data caseMap plan name testCase0,
       yaml_Unmarshal data = inr caseMap →
       is_Some (map_get caseMap name) →
       map_get (CaseMap plan) name = Some testCase0 →
       ∃ r plan',
         AddFromString data plan = (r, plan')
         ∧ is_ok r = false
         ∧ map_get (CaseMap plan') name = Some testCase0
         ∧ ((∀ testName testCase,
               map_get caseMap testName = Some testCase → None ∉ testCase) →
            ∃ e, r = Err e))
  ∧ (∀ chunks plan name testCase0,
       map_get (CaseMap plan) name = Some testCase0 →
       map_get (CaseMap (load_chunks chunks plan).2) name = Some testCase0).
Proof.
  split; [|split].
  - intros. by apply Add_duplicate.
  - intros data caseMap plan name testCase0 Hdata [testCase Hcase] Hplan.
    unfold AddFromString. rewrite Hdata.
    destruct caseMap as [g|]; [|done]. cbn in Hcase.
    destruct (add_cases_duplicate (range_map (Some g)) plan name testCase0 Hplan)
      as (r & plan' & Hrun & Hr & Hkeep & Herr).
    { apply list_elem_of_fmap. exists (name, testCase). split; [done|].
      by apply range_lookup. }
    exists r, plan'. repeat split; try done.
    intros Hnil. apply Herr. apply Forall_forall. intros [testName tc] Hin.
    apply range_lookup in Hin. by apply (Hnil testName).
  - intros. by apply load_chunks_keeps.
Qed.

End plan.

(** ** The value generator and the test plan, on examples *)

Section plan_examples.
Import mqplan Examples.
Local Existing Instances libs plan_libs.

(** [generateFloat_declared_bounds] at a minimum of 10 and a maximum of 5:
    a value is returned. *)
Lemma generateFloat_conflicting_example :
  (Minimum conflicting = Some 10%float ∧ Maximum conflicting = Some 5%float
   ∧ fge 10 5 = true)
  ∧ generateFloat conflicting world
    = (let* f := Float64 in ret (f * (10 + PrimFloat.abs 10 - 10) + 10)%float) world
  ∧ ∃ f w', generateFloat conflicting world = (Ok f, w').
Proof.
  split; [by repeat split|].
  apply (generateFloat_declared_bounds conflicting world 10%float 5%float);
    reflexivity.
Defined.

(** The claim of C8 as the specification words it fails: for a body
    parameter the generator returns no error value. *)
Lemma generateParameter_body_schema_no_error :
  is_Some (Schema body_param)
  ∧ ¬ ∃ e w', generateParameter body_param empty_store world = (Err e, w').
Proof.
  split; [by eexists|]. intros (e & w' & Herr). cbn in Herr. discriminate Herr.
Qed.

Lemma generateParameter_body_schema_example :
  Schema body_param = Some (mkBodySchema "Pet")
  ∧ generateParameter body_param empty_store world = (Panic "not implemented", world).
Proof.
  split; [reflexivity|].
  apply (generateParameter_body_schema body_param empty_store world (mkBodySchema "Pet")).
  reflexivity.
Defined.

(** The claim of C9 as the specification words it fails: the operation of
    [get_by_id] is registered, and [ResolveParameters] does not succeed,
    because the generator knows no string of the format [uuid]. *)
Lemma ResolveParameters_may_fail :
  getOperationByMethod (default no_PathItem (Paths petstore !! Path get_by_id))
    (Method get_by_id) = Some (mkOperation [uuid_param])
  ∧ ResolveParameters petstore empty_store no_plan (get_by_id, world)
    = (Err (NewError ErrInvalid "Invalid format string: uuid"),
       (get_by_id, mkWorld (readings world) 1)).
Proof. split; vm_compute; reflexivity. Qed.

(** [ResolveParameters_first_missing] on the test [find_sold], which
    supplies [status]: [limit] is the first missing parameter. *)
Lemma ResolveParameters_first_missing_example :
  ∃ r t' w',
    ResolveParameters petstore empty_store no_plan (find_sold, world) = (r, (t', w'))
    ∧ (∀ k v, map_get (Parameters find_sold) k = Some v → map_get (Parameters t') k = Some v)
    ∧ match first_missing find_sold (mkOperation [status_param; limit_param]) with
      | None => r = Ok tt ∧ t' = find_sold ∧ w' = world
      | Some params =>
        match generateParameter params empty_store world with
        | (Ok p, w1) =>
          w' = w1
          ∧ match Parameters find_sold with
            | Some m =>
              r = Ok tt
              ∧ t' = set_Parameters find_sold (Some (<[ParamName params := p]> m))
            | None => r = Panic "assignment to entry in nil map" ∧ t' = find_sold
            end
        | (Err e, w1) => r = Err e ∧ t' = find_sold ∧ w' = w1
        | (Panic msg, w1) => r = Panic msg ∧ t' = find_sold ∧ w' = w1
        | (OutOfFuel, w1) => r = OutOfFuel ∧ t' = find_sold ∧ w' = w1
        end
      end.
Proof.
  apply (ResolveParameters_first_missing petstore empty_store no_plan find_sold world
           (mkOperation [status_param; limit_param])).
  vm_compute. reflexivity.
Defined.

(** The claim of C7 as the specification words it fails: both documents of
    the plan file define the case [smoke]; loading the file succeeds and the
    case of the first document is in the plan. *)
Lemma InitFromFile_duplicate_loads :
  (yaml_Unmarshal first_document = inr (Some {["smoke" := [Some list_pets]]})
   ∧ yaml_Unmarshal second_document = inr (Some {["smoke" := [Some list_users]]}))
  ∧ (InitFromFile "meqa_data/testplan.yml" no_plan).1 = Ok tt
  ∧ map_get (CaseMap (InitFromFile "meqa_data/testplan.yml" no_plan).2) "smoke"
    = Some [Some (mkTest "list pets" "/pet" "GET" "" None)].
Proof. repeat split; vm_compute; reflexivity. Qed.

(** A document with a null test makes [AddFromString] panic, whether the
    name of its case is taken or not. *)
Lemma AddFromString_null_test :
  let loaded := mkTestPlan (Some {["smoke" := [Some list_pets]]}) [[Some list_pets]] in
  yaml_Unmarshal null_document = inr (Some {["smoke" := [None]]})
  ∧ AddFromString null_document loaded
    = (Panic "invalid memory address or nil pointer dereference", loaded)
  ∧ AddFromString null_document empty_plan
    = (Panic "invalid memory address or nil pointer dereference", empty_plan).
Proof. repeat split; vm_compute; reflexivity. Qed.

(** [duplicate_case_rejected] on the second document of the plan file,
    once the first is loaded. *)
Lemma duplicate_case_rejected_example :
  let loaded := mkTestPlan (Some {["smoke" := [Some list_pets]]}) [[Some list_pets]] in
  Add "smoke" [Some list_users] loaded
  = (Err (ErrorString "Duplicate name smoke found in test plan"), loaded)
  ∧ (∃ e plan',
       AddFromString second_document loaded = (Err e, plan')
       ∧ map_get (CaseMap plan') "smoke" = Some [Some list_pets])
  ∧ map_get (CaseMap (load_chunks [second_document; first_document] loaded).2) "smoke"
    = Some [Some list_pets].
Proof.
  intros loaded.
  pose proof (@duplicate_case_rejected libs plan_libs) as (HAdd & HDoc & HLoad).
  split; [|split].
  - apply (HAdd "smoke" [Some list_users] loaded). by eexists.
  - assert (yaml_Unmarshal second_document = inr (Some {["smoke" := [Some list_users]]}))
      as Hdoc by reflexivity.
    assert (is_Some (map_get (Some ({["smoke" := [Some list_users]]} : gmap string TestCase))
                       "smoke")) as Hcase by (by eexists).
    assert (map_get (CaseMap loaded) "smoke" = Some [Some list_pets]) as Hloaded
      by reflexivity.
    destruct (HDoc second_document _ loaded "smoke" _ Hdoc Hcase Hloaded)
      as (r & plan' & Hrun & _ & Hkeep & Herr).
    destruct Herr as [e ->].
    { intros testName testCase Hlookup. cbn in Hlookup.
      apply lookup_singleton_Some in Hlookup as [_ <-].
      intros Hin. apply elem_of_cons in Hin as [Hin|Hin]; [discriminate Hin|].
      by apply elem_of_nil in Hin. }
    exists e, plan'. split; [exact Hrun|exact Hkeep].
  - apply (HLoad [second_document; first_document] loaded "smoke" [Some list_pets]).
    reflexivity.
Defined.

End plan_examples.

(** ** Generated values against their schema *)

Section roundtrip.
Import mqplan.
Context `{Libs} `{PlanLibs}.



(** What a computation returns, read off a sequence. *)
Lemma bind_returns {St A B} (m : M St A) (k : A → M St B) s b s' :
  bind m k s = (Ok b, s') → ∃ a s1, m s = (Ok a, s1) ∧ k a s1 = (Ok b, s').
Proof.
  unfold bind. destruct (m s) as [[a| | |] s1]; try done. eauto.
Qed.


(** A loop whose iterations succeed and leave the state alone. *)
Lemma for_each_unchanged {St A} (xs : list A) (body : A → M St unit) st :
  Forall (λ x, body x st = (Ok tt, st)) xs → for_each xs body st = (Ok tt, st).
Proof.
  induction 1 as [|x xs Hx _ IH]; [done|].
  cbn [for_each]. by erewrite bind_Ok.
Qed.










End roundtrip.

(** ** Generated values against their schema, on examples *)

Section roundtrip_examples.
Import mqplan Examples.
Local Existing Instances libs plan_libs.


(** Where a generated value does not match though no enum is declared:
    an integer with a bound makes [Validate] panic, since the generator
    returns an [int64] and [Validate] asserts a [float64]; a number
    generated for conflicting bounds lies above the maximum; and a string
    is generated without regard to the declared lengths. *)
Lemma generated_bounded_values_do_not_match :
  (corresponds bounded_document (Simple page_param) (Validations page_param) (node 30)
   ∧ generateParameter page_param empty_store world
     = (Ok (VInt 2), mkWorld (readings world) 1)
   ∧ ∀ fuel, Matches (S fuel) (node 30) (VInt 2) bounded_document
             = Panic "interface conversion: interface {} is not float64")
  ∧ (corresponds bounded_document (Simple ratio_param) (Validations ratio_param) (node 31)
     ∧ generateParameter ratio_param empty_store world
       = (Ok (VFloat 10), mkWorld (readings world) 1)
     ∧ ∀ fuel, Matches (S fuel) (node 31) (VFloat 10) bounded_document = Ok false)
  ∧ (corresponds bounded_document (Simple code_param) (Validations code_param) (node 32)
     ∧ generateParameter code_param empty_store world
       = (Ok (VString "code-0"), mkWorld (readings world) 1)
     ∧ ∀ fuel, Matches (S fuel) (node 32) (VString "code-0") bounded_document = Ok false).
Proof.
  repeat split; try (vm_compute; reflexivity); intros fuel; vm_compute; reflexivity.
Qed.


End roundtrip_examples.

(** ** The object store: what the queries return *)

Section store_queries.
Context `{Libs}.

(** A map that is filled from the entries of another one, key by key. *)
Lemma fill_loop_lookup {V W} (f : string → V → W) (l : list (string * V))
  (acc : gmap string W) k :
  NoDup l.*1 →
  foldl (λ acc kv, <[kv.1 := f kv.1 kv.2]> acc) acc l !! k
  = match (list_to_map l : gmap string V) !! k with
    | Some v => Some (f k v)
    | None => acc !! k
    end.
Proof.
  revert acc. induction l as [|[k' v'] l IH]; intros acc Hnd.
  { cbn. by rewrite lookup_empty. }
  apply NoDup_cons in Hnd as [Hk' Hnd]. cbn [foldl fst snd].
  rewrite IH by done. cbn [list_to_map foldr fst snd uncurry].
  destruct (decide (k' = k)) as [->|Hne].
  - rewrite lookup_insert_eq.
    rewrite (not_elem_of_list_to_map_1 (M := gmap string) l k) by done.
    by rewrite lookup_insert_eq.
  - rewrite !lookup_insert_ne by done. done.
Qed.

Lemma range_to_map {V} (m : gmap string V) : list_to_map (range m) = m.
Proof.
  rewrite <- (list_to_map_to_list m) at 2.
  apply list_to_map_proper; [apply range_NoDup_keys|apply range_perm].
Qed.

Lemma fill_range_lookup {V W} (f : string → V → W) (m : gmap string V) k :
  foldl (λ acc kv, <[kv.1 := f kv.1 kv.2]> acc) (∅ : gmap string W) (range m) !! k
  = f k <$> m !! k.
Proof.
  rewrite fill_loop_lookup by apply range_NoDup_keys.
  rewrite range_to_map, lookup_empty. by destruct (m !! k).
Qed.

(** X1. [Init] registers one collection for every schema of the document,
    under the schema's name, without entries and with history; it registers
    nothing else, and [GetSchema] then answers with the schemas of the
    document (the empty [SchemaRef] for any other name). *)
Theorem Init_collections s db0 name :
  fst (Init s db0) = Ok tt
  ∧ DBSwagger (Init s db0).2 = Some s
  ∧ schemas (Init s db0).2 !! name
    = (λ schema, mkSchemaDB name schema false []) <$> Schemas s !! name
  ∧ GetSchema name (Init s db0).2 = default (mkSchemaRef "" None) (Schemas s !! name).
Proof.
  assert (schemas (Init s db0).2 !! name
          = (λ schema, mkSchemaDB name schema false []) <$> Schemas s !! name) as Hlookup.
  { cbn. apply (fill_range_lookup (λ k v, mkSchemaDB k v false [])). }
  repeat split; [done|].
  unfold GetSchema. rewrite Hlookup. by destruct (Schemas s !! name).
Qed.

Lemma CloneSchema_lookup db name :
  schemas (CloneSchema db) !! name = SchemaDB_CloneSchema <$> schemas db !! name.
Proof. cbn. apply (fill_range_lookup (λ _ v, SchemaDB_CloneSchema v)). Qed.

(** X2. [CloneSchema] keeps the collections with their names, schemas and
    history flags and drops every entry: [GetSchema] answers as before,
    [Find] finds nothing, and cloning the clone changes nothing. *)
Theorem CloneSchema_collections db name criteria associations matches desiredCount :
  schemas (CloneSchema db) !! name = SchemaDB_CloneSchema <$> schemas db !! name
  ∧ DBSwagger (CloneSchema db) = DBSwagger db
  ∧ GetSchema name (CloneSchema db) = GetSchema name db
  ∧ fst (Find name criteria associations matches desiredCount (CloneSchema db)) = Ok []
  ∧ CloneSchema (CloneSchema db) = CloneSchema db.
Proof.
  split; [apply CloneSchema_lookup|]. split; [done|]. split; [|split].
  - unfold GetSchema. rewrite CloneSchema_lookup. by destruct (schemas db !! name).
  - unfold Find. rewrite CloneSchema_lookup. by destruct (schemas db !! name).
  - assert (schemas (CloneSchema (CloneSchema db)) = schemas (CloneSchema db)) as Hsame.
    { apply map_eq. intros k. rewrite !CloneSchema_lookup.
      by destruct (schemas db !! k). }
    transitivity (mkDB (schemas (CloneSchema (CloneSchema db))) (DBSwagger db)); [done|].
    by rewrite Hsame.
Qed.

(** The entries that [Find] returns: the selected ones, in the order of
    insertion, up to the number asked for. *)
Lemma SchemaDB_Find_take criteria associations matches desiredCount sdb :
  SchemaDB_Find criteria associations matches desiredCount sdb
  = let matching :=
      (λ entry, VMap (Data entry))
        <$> filter (λ entry, selected criteria associations matches entry) (Objects sdb) in
    if desiredCount <? 0 then matching else take (stop_after desiredCount) matching.
Proof.
  unfold SchemaDB_Find.
  set (loop := fix loop (entries : list DBEntry) (result : list Interface) := _).
  set (matching := λ entries : list DBEntry,
         (λ entry, VMap (Data entry))
           <$> filter (λ entry, selected criteria associations matches entry) entries).
  assert (∀ entries result,
            desiredCount < 0 ∨ (length result < stop_after desiredCount)%nat →
            loop entries result
            = result ++ (if desiredCount <? 0 then matching entries
                         else take (stop_after desiredCount - length result)
                                (matching entries))) as Hloop.
  { induction entries as [|entry entries IH]; intros result Hresult.
    - cbn. rewrite take_nil. destruct (desiredCount <? 0); by rewrite app_nil_r.
    - unfold loop; fold loop. unfold matching. rewrite filter_cons.
      fold (selected criteria associations matches entry).
      destruct (selected criteria associations matches entry) eqn:Hsel.
      + rewrite decide_True by done. rewrite fmap_cons. fold (matching entries).
        destruct (desiredCount <? 0) eqn:Hneg.
        * apply Z.ltb_lt in Hneg.
          replace (0 <=? desiredCount) with false by (symmetry; apply Z.leb_gt; lia).
          cbn [andb]. rewrite IH by (left; lia).
          replace (desiredCount <? 0) with true by (symmetry; apply Z.ltb_lt; lia).
          by rewrite <- app_assoc.
        * apply Z.ltb_ge in Hneg. destruct Hresult as [?|Hresult]; [lia|].
          replace (0 <=? desiredCount) with true by (symmetry; apply Z.leb_le; lia).
          cbn [andb]. rewrite length_app. cbn [length].
          unfold stop_after in *.
          destruct (desiredCount <=? Z.of_nat (length result + 1)) eqn:Hstop.
          -- apply Z.leb_le in Hstop.
             replace (Z.to_nat (Z.max 1 desiredCount) - length result)%nat with 1%nat by lia.
             cbn. by rewrite take_0.
          -- apply Z.leb_gt in Hstop. rewrite IH by (right; rewrite length_app; cbn; lia).
             replace (desiredCount <? 0) with false by (symmetry; apply Z.ltb_ge; lia).
             rewrite length_app. cbn [length].
             replace (Z.to_nat (Z.max 1 desiredCount) - length result)%nat
               with (S (Z.to_nat (Z.max 1 desiredCount) - (length result + 1)))%nat by lia.
             cbn [take]. by rewrite <- app_assoc.
      + rewrite decide_False by (by intros ?). fold (matching entries). by apply IH. }
  rewrite Hloop.
  - cbn [app length]. by rewrite Nat.sub_0_r.
  - right. unfold stop_after. cbn. lia.
Qed.


(** Selected and other entries make up the list. *)
Lemma length_filter_complement {A} (P : A → Prop) `{∀ x, Decision (P x)} (l : list A) :
  (length (filter P l) + length (filter (λ x, ¬ P x) l) = length l)%nat.
Proof. rewrite <- length_app. by rewrite filter_app_complement. Qed.

(** What the loop of [Delete] has done after [i] of the entries [orig]:
    the entries that it keeps are behind the first [count] positions. *)
Lemma delete_loop_kept criteria associations matches desiredCount orig
  todo i objects count :
  length objects = length orig →
  (i + todo)%nat = length orig →
  (count ≤ i)%nat →
  drop i objects = drop i orig →
  drop count (take i objects)
  ≡ₚ filter (λ entry, ¬ selected criteria associations matches entry) (take i orig) →
  count = length (filter (λ entry, selected criteria associations matches entry)
                    (take i orig)) →
  desiredCount < 0 ∨ (count < stop_after desiredCount)%nat →
  ∃ j objects' count',
    delete_loop criteria associations matches desiredCount todo i objects count
    = (objects', count')
    ∧ (j ≤ length orig)%nat
    ∧ drop count' objects'
      ≡ₚ filter (λ entry, ¬ selected criteria associations matches entry) (take j orig)
         ++ drop j orig
    ∧ count' = length (filter (λ entry, selected criteria associations matches entry)
                         (take j orig))
    ∧ (j = length orig ∨ (0 ≤ desiredCount ∧ count' = stop_after desiredCount))
    ∧ (0 ≤ desiredCount → (count' ≤ stop_after desiredCount)%nat).
Proof.
  assert (∀ i objects count,
            length objects = length orig → (i ≤ length orig)%nat → (count ≤ i)%nat →
            drop i objects = drop i orig →
            drop count (take i objects)
            ≡ₚ filter (λ entry, ¬ selected criteria associations matches entry)
                 (take i orig) →
            drop count objects
            ≡ₚ filter (λ entry, ¬ selected criteria associations matches entry)
                 (take i orig)
               ++ drop i orig) as Hfinish.
  { intros i0 objects0 count0 Hlen Hi Hcount Hdrop Hkept.
    rewrite <- (take_drop i0 objects0) at 1.
    rewrite drop_app_le by (rewrite length_take; lia).
    by rewrite Hkept, Hdrop. }
  revert i objects count.
  induction todo as [|todo IH]; intros i objects count Hlen Hi Hcount Hdrop Hkept Hsel Hstop.
  { exists i, objects, count. cbn. split; [done|]. split; [lia|].
    split; [apply Hfinish; [done|lia|done..]|]. split; [done|].
    split; [left; lia|lia]. }
  assert (i < length orig)%nat as Hlt by lia.
  destruct (lookup_lt_is_Some_2 orig i Hlt) as [entry Hentry].
  assert (objects !! i = Some entry) as Hobj.
  { pose proof (lookup_drop objects i 0) as Hat.
    rewrite Hdrop, lookup_drop, !Nat.add_0_r in Hat. by rewrite <- Hat. }
  assert (drop (S i) objects = drop (S i) orig) as Hdrop'.
  { replace (S i) with (i + 1)%nat by lia. rewrite <- !drop_drop. by rewrite Hdrop. }
  cbn [delete_loop]. rewrite Hobj.
  fold (selected criteria associations matches entry).
  destruct (selected criteria associations matches entry) eqn:Hentry_sel.
  - destruct (lookup_lt_is_Some_2 objects count ltac:(lia)) as [moved Hmoved].
    rewrite Hmoved.
    assert (drop (S count) (take (S i) (<[i:=moved]> objects))
            ≡ₚ filter (λ entry, ¬ selected criteria associations matches entry)
                 (take (S i) orig)) as Hkept'.
    { rewrite (take_S_r orig i entry) by done.
      rewrite filter_app, filter_cons, decide_False, filter_nil, app_nil_r
        by (rewrite Hentry_sel; by intros []).
      rewrite <- Hkept.
      rewrite (take_S_r _ i moved) by (rewrite list_lookup_insert_eq; [done|lia]).
      rewrite take_insert_ge by lia.
      destruct (decide (count = i)) as [->|Hne].
      - rewrite !drop_ge; [done|rewrite length_take; lia|].
        rewrite length_app, length_take. cbn. lia.
      - rewrite drop_app_le by (rewrite length_take; lia).
        rewrite (drop_S (take i objects) moved count)
          by (rewrite lookup_take_lt by lia; done).
        symmetry. apply Permutation_cons_append. }
    assert (S count
            = length (filter (λ entry, selected criteria associations matches entry)
                        (take (S i) orig))) as Hsel'.
    { rewrite (take_S_r orig i entry) by done.
      rewrite filter_app, filter_cons, decide_True, length_app by (by rewrite Hentry_sel).
      cbn. lia. }
    destruct ((0 <=? desiredCount) && (desiredCount <=? Z.of_nat (S count))) eqn:Hbreak.
    + apply andb_true_iff in Hbreak as [Hpos Hreached].
      apply Z.leb_le in Hpos, Hreached.
      exists (S i), (<[i:=moved]> objects), (S count).
      split; [done|]. split; [lia|].
      split; [apply Hfinish; [by rewrite length_insert|lia|lia| |done]|].
      { by rewrite drop_insert_lt by lia. }
      split; [done|]. unfold stop_after in *. split; [right|]; lia.
    + apply (IH (S i) (<[i:=moved]> objects) (S count)); try done.
      * by rewrite length_insert.
      * lia.
      * lia.
      * by rewrite drop_insert_lt by lia.
      * apply andb_false_iff in Hbreak as [Hneg|Hmore].
        -- apply Z.leb_gt in Hneg. left. lia.
        -- apply Z.leb_gt in Hmore. right. unfold stop_after. lia.
  - apply (IH (S i) objects count); try done.
    + lia.
    + lia.
    + rewrite (take_S_r orig i entry), (take_S_r objects i entry) by done.
      rewrite filter_app, filter_cons, decide_True, filter_nil
        by (rewrite Hentry_sel; by intros ?).
      rewrite drop_app_le by (rewrite length_take; lia). by rewrite Hkept.
    + rewrite (take_S_r orig i entry) by done.
      rewrite filter_app, filter_cons, decide_False, filter_nil, app_nil_r
        by (rewrite Hentry_sel; by intros ?).
      done.
Qed.

Lemma SchemaDB_Delete_kept criteria associations matches desiredCount sdb :
  ∃ j count objects',
    SchemaDB_Delete criteria associations matches desiredCount sdb
    = (Ok (Z.of_nat count), set_Objects sdb objects')
    ∧ (j ≤ length (Objects sdb))%nat
    ∧ objects'
      ≡ₚ filter (λ entry, ¬ selected criteria associations matches entry)
           (take j (Objects sdb))
         ++ drop j (Objects sdb)
    ∧ count = length (filter (λ entry, selected criteria associations matches entry)
                        (take j (Objects sdb)))
    ∧ (j = length (Objects sdb) ∨ (0 ≤ desiredCount ∧ count = stop_after desiredCount))
    ∧ (0 ≤ desiredCount → (count ≤ stop_after desiredCount)%nat).
Proof.
  destruct (delete_loop_kept criteria associations matches desiredCount (Objects sdb)
              (length (Objects sdb)) 0 (Objects sdb) 0)
    as (j & objects' & count' & Hloop & Hj & Hkept & Hcount & Hend & Hmax);
    try done.
  { right. unfold stop_after. lia. }
  exists j, count', (drop count' objects').
  unfold SchemaDB_Delete. by rewrite Hloop.
Qed.

Lemma filter_none {A} (P : A → Prop) `{∀ x, Decision (P x)} (l : list A) :
  Forall (λ x, ¬ P x) l → filter P l = [].
Proof.
  induction 1 as [|x l Hx Hl IH]; [done|]. by rewrite filter_cons, decide_False.
Qed.

(** X4. [Delete] on a registered collection drops selected entries only
    and keeps every other entry (the order of the entries may change); the
    number that it returns is the number of entries dropped: the number of
    selected entries for a negative count, and else that number or
    [desiredCount], whichever is less, where a count of 0 drops one entry
    like a count of 1. *)
Theorem Delete_accounts db name sdb criteria associations matches desiredCount :
  schemas db !! name = Some sdb →
  ∃ count objects',
    Delete name criteria associations matches desiredCount db
    = (Ok (Z.of_nat count), set_schema db name (set_Objects sdb objects'))
    ∧ (length objects' + count)%nat = length (Objects sdb)
    ∧ filter (λ entry, ¬ selected criteria (CopyWithoutClass associations name)
                         matches entry) (Objects sdb) ⊆+ objects'
    ∧ objects' ⊆+ Objects sdb
    ∧ count
      = let total :=
          length (filter (λ entry, selected criteria (CopyWithoutClass associations name)
                                     matches entry) (Objects sdb)) in
        if desiredCount <? 0 then total else (total `min` stop_after desiredCount)%nat.
Proof.
  intros Hsdb.
  destruct (SchemaDB_Delete_kept criteria (CopyWithoutClass associations name) matches
              desiredCount sdb)
    as (j & count & objects' & Hrun & Hj & Hkept & Hcount & Hend & Hmax).
  exists count, objects'.
  unfold Delete, on_schema. rewrite Hsdb, Hrun. split; [done|].
  pose proof (length_filter_complement
                (λ entry, Is_true (selected criteria (CopyWithoutClass associations name)
                                     matches entry)) (take j (Objects sdb))) as Htake.
  pose proof (length_filter_complement
                (λ entry, Is_true (selected criteria (CopyWithoutClass associations name)
                                     matches entry)) (Objects sdb)) as Hall.
  assert (length (filter (λ entry, selected criteria (CopyWithoutClass associations name)
                                     matches entry) (take j (Objects sdb)))
          ≤ length (filter (λ entry, selected criteria (CopyWithoutClass associations name)
                                       matches entry) (Objects sdb)))%nat
    as Hle.
  { rewrite <- (take_drop j (Objects sdb)) at 2. rewrite filter_app, length_app. lia. }
  cbv beta in Htake, Hall. rewrite length_take in Htake.
  split; [|split; [|split]].
  - rewrite Hkept, length_app, length_drop. lia.
  - rewrite Hkept. rewrite <- (take_drop j (Objects sdb)) at 1.
    rewrite filter_app. apply submseteq_app; [done|].
    apply sublist_submseteq, sublist_filter.
  - rewrite Hkept. rewrite <- (take_drop j (Objects sdb)) at 3.
    apply submseteq_app; [|done]. apply sublist_submseteq, sublist_filter.
  - cbv zeta. destruct (desiredCount <? 0) eqn:Hneg.
    + apply Z.ltb_lt in Hneg. destruct Hend as [->|[? _]]; [|lia].
      by rewrite take_ge in Hcount by done.
    + apply Z.ltb_ge in Hneg. specialize (Hmax Hneg).
      destruct Hend as [->|[_ Hfull]].
      * rewrite take_ge in Hcount by done. lia.
      * lia.
Qed.

(** X5. [Delete] with a negative count drops exactly the selected entries
    of a registered collection and returns their number; a [Find] with the
    same query then finds nothing, whatever the count. *)
Theorem Delete_all_selected db name sdb criteria associations matches desiredCount n :
  schemas db !! name = Some sdb →
  desiredCount < 0 →
  ∃ objects' db',
    Delete name criteria associations matches desiredCount db
    = (Ok (Z.of_nat (length (filter (λ entry, selected criteria
                                                (CopyWithoutClass associations name)
                                                matches entry) (Objects sdb)))),
       db')
    ∧ db' = set_schema db name (set_Objects sdb objects')
    ∧ objects' ≡ₚ filter (λ entry, ¬ selected criteria (CopyWithoutClass associations name)
                                     matches entry) (Objects sdb)
    ∧ fst (Find name criteria associations matches n db') = Ok [].
Proof.
  intros Hsdb Hneg.
  destruct (SchemaDB_Delete_kept criteria (CopyWithoutClass associations name) matches
              desiredCount sdb)
    as (j & count & objects' & Hrun & Hj & Hkept & Hcount & Hend & Hmax).
  destruct Hend as [->|[? _]]; [|lia].
  rewrite take_ge in Hcount, Hkept by done. rewrite drop_all, app_nil_r in Hkept.
  exists objects', (set_schema db name (set_Objects sdb objects')).
  unfold Delete, on_schema. rewrite Hsdb, Hrun, Hcount. split; [done|].
  split; [done|]. split; [done|].
  unfold Find. cbn [set_schema schemas]. rewrite lookup_insert_eq.
  rewrite SchemaDB_Find_take. cbn [set_Objects Objects fst].
  assert (filter (λ entry, selected criteria (CopyWithoutClass associations name)
                             matches entry) objects' = []) as ->.
  { apply Permutation_nil_r. rewrite Hkept. rewrite filter_none; [done|].
    apply Forall_forall. intros entry Hin.
    apply list_elem_of_filter in Hin as [Hin _]. tauto. }
  cbn. rewrite take_nil. by destruct (n <? 0).
Qed.

(** What the loop of [Update] has done when it stops after [j] entries. *)
Lemma update_loop_prefix criteria associations matches newObj desiredCount patch
  entries count :
  0 ≤ count →
  desiredCount < 0 ∨ count < Z.of_nat (stop_after desiredCount) →
  ∃ j : nat,
    (j ≤ length entries)%nat
    ∧ update_loop criteria associations matches newObj desiredCount patch entries count
      = (((λ entry, if selected criteria associations matches entry
                    then updated newObj patch entry else entry) <$> take j entries)
         ++ drop j entries,
         count + Z.of_nat (length (filter (λ entry, selected criteria associations
                                                      matches entry) (take j entries))))
    ∧ (j = length entries
       ∨ (0 ≤ desiredCount
          ∧ count + Z.of_nat (length (filter (λ entry, selected criteria associations
                                                         matches entry) (take j entries)))
            = Z.of_nat (stop_after desiredCount)))
    ∧ (0 ≤ desiredCount →
       count + Z.of_nat (length (filter (λ entry, selected criteria associations
                                                    matches entry) (take j entries)))
       ≤ Z.of_nat (stop_after desiredCount)).
Proof.
  revert count. induction entries as [|entry entries IH]; intros count Hcount Hstop.
  { exists 0%nat. cbn. rewrite Z.add_0_r. split; [done|]. split; [done|].
    split; [by left|]. unfold stop_after in *. lia. }
  cbn [update_loop]. fold (selected criteria associations matches entry).
  fold (updated newObj patch entry).
  destruct (selected criteria associations matches entry) eqn:Hsel.
  - destruct ((0 <=? desiredCount) && (desiredCount <=? count + 1)) eqn:Hbreak.
    + apply andb_true_iff in Hbreak as [Hpos Hreached].
      apply Z.leb_le in Hpos, Hreached.
      exists 1%nat. change (take 1 (entry :: entries)) with [entry].
      change (drop 1 (entry :: entries)) with entries.
      cbn [fmap list_fmap length app].
      rewrite filter_cons, decide_True, filter_nil, Hsel by (by rewrite Hsel).
      cbn [length]. split; [lia|]. split; [done|].
      unfold stop_after in *. split; [right|]; lia.
    + destruct (IH (count + 1)) as (j & Hj & Hrun & Hend & Hmax); [lia| |].
      { apply andb_false_iff in Hbreak as [Hneg|Hmore].
        - apply Z.leb_gt in Hneg. left. lia.
        - apply Z.leb_gt in Hmore. right. unfold stop_after. lia. }
      exists (S j). rewrite Hrun, firstn_cons, skipn_cons.
      cbn [fmap list_fmap length app].
      rewrite filter_cons, decide_True, Hsel by (by rewrite Hsel).
      cbn [length]. split; [lia|].
      split; [f_equal; lia|]. split; [|intros; specialize (Hmax ltac:(done)); lia].
      destruct Hend as [->|[? ?]]; [by left|right; lia].
  - destruct (IH count Hcount Hstop) as (j & Hj & Hrun & Hend & Hmax).
    exists (S j). rewrite Hrun, firstn_cons, skipn_cons.
    cbn [fmap list_fmap length app].
    rewrite filter_cons, decide_False, Hsel by (rewrite Hsel; by intros ?).
    split; [lia|]. split; [done|]. split; [|done].
    destruct Hend as [->|?]; [by left|by right].
Qed.

(** X6. [Update] without [patch], which replaces objects, on a registered
    collection changes selected entries only: the collection keeps its
    length and the order of its entries; an entry that changes is a
    selected one, which gets the new object and keeps its associations; the
    number returned is the number of selected entries or, for a count that
    is not negative, [desiredCount] if that is less (a count of 0 counting
    as 1); and for a negative count every selected entry changes. *)
Theorem Update_accounts db name sdb criteria associations matches newObj desiredCount :
  schemas db !! name = Some sdb →
  ∃ count objects',
    Update name criteria associations matches newObj desiredCount false db
    = (Ok (Z.of_nat count), set_schema db name (set_Objects sdb objects'))
    ∧ Forall2 (λ entry entry',
                 entry' = entry
                 ∨ (selected criteria (CopyWithoutClass associations name) matches entry
                    ∧ entry' = mkDBEntry newObj (Associations entry)))
        (Objects sdb) objects'
    ∧ count
      = (let total :=
           length (filter (λ entry, selected criteria
                                      (CopyWithoutClass associations name)
                                      matches entry) (Objects sdb)) in
         if desiredCount <? 0 then total else (total `min` stop_after desiredCount)%nat)
    ∧ (desiredCount < 0 →
       objects'
       = (λ entry, if selected criteria (CopyWithoutClass associations name)
                        matches entry
                   then mkDBEntry newObj (Associations entry) else entry) <$> Objects sdb).
Proof.
  intros Hsdb.
  destruct (update_loop_prefix criteria (CopyWithoutClass associations name) matches
              newObj desiredCount false (Objects sdb) 0)
    as (j & Hj & Hrun & Hend & Hmax); [done|unfold stop_after; lia|].
  rewrite Z.add_0_l in Hrun, Hend, Hmax. unfold updated in Hrun.
  eexists _, _. unfold Update, on_schema, SchemaDB_Update. rewrite Hsdb, Hrun.
  split; [done|].
  assert (length (filter (λ entry, selected criteria (CopyWithoutClass associations name)
                                     matches entry) (take j (Objects sdb)))
          ≤ length (filter (λ entry, selected criteria (CopyWithoutClass associations name)
                                       matches entry) (Objects sdb)))%nat
    as Hle.
  { rewrite <- (take_drop j (Objects sdb)) at 2. rewrite filter_app, length_app. lia. }
  split; [|split].
  - rewrite <- (take_drop j (Objects sdb)) at 1. apply Forall2_app.
    + apply Forall2_fmap_r, Forall_Forall2_diag, Forall_forall. intros entry _.
      cbn. destruct (selected _ _ _ entry); [by right|by left].
    + apply Forall_Forall2_diag, Forall_forall. intros entry _. by left.
  - cbv zeta. destruct (desiredCount <? 0) eqn:Hneg.
    + apply Z.ltb_lt in Hneg. destruct Hend as [->|[? _]]; [|lia].
      by rewrite take_ge by done.
    + apply Z.ltb_ge in Hneg. specialize (Hmax Hneg).
      destruct Hend as [->|[_ Hfull]].
      * rewrite take_ge in * by done. lia.
      * lia.
  - intros Hneg. destruct Hend as [->|[? _]]; [|lia].
    by rewrite take_ge, drop_all, app_nil_r by done.
Qed.




(** X8. A collection without history ignores [Insert]: the call succeeds
    for any object (a map or not) and the store is as before. *)
Theorem Insert_without_history db name sdb obj associations :
  schemas db !! name = Some sdb →
  NoHistory sdb = true →
  Insert name obj associations db = (Ok tt, db).
Proof.
  intros Hsdb Hhistory. unfold Insert, on_schema, SchemaDB_Insert.
  rewrite Hsdb, Hhistory. cbn [negb]. f_equal.
  destruct db as [collections swagger]. unfold set_schema. cbn in *.
  by rewrite insert_id.
Qed.

(** [CopyWithoutClass] reads its argument outside the class only. *)
Lemma CopyWithoutClass_ext (src src' : GoMap (GoMap Interface)) className :
  (∀ k, k ≠ className → map_get src k = map_get src' k) →
  CopyWithoutClass src className = CopyWithoutClass src' className.
Proof.
  intros Hagree.
  assert (∀ k, map_get (CopyWithoutClass src className) k
               = map_get (CopyWithoutClass src' className) k) as Hsame.
  { intros k. rewrite !CopyWithoutClass_lookup.
    destruct (decide (k = className)); [done|]. by apply Hagree. }
  unfold CopyWithoutClass in *. f_equal. apply map_eq. intros k. apply (Hsame k).
Qed.

(** X10. What the associations of a call say under the name of the
    collection that the call addresses has no effect: two calls whose
    associations agree on every other class do the same. *)
Theorem own_class_is_ignored db name obj criteria associations associations' matches
  newObj desiredCount patch :
  (∀ k, k ≠ name → map_get associations k = map_get associations' k) →
  Insert name obj associations db = Insert name obj associations' db
  ∧ Find name criteria associations matches desiredCount db
    = Find name criteria associations' matches desiredCount db
  ∧ Delete name criteria associations matches desiredCount db
    = Delete name criteria associations' matches desiredCount db
  ∧ Update name criteria associations matches newObj desiredCount patch db
    = Update name criteria associations' matches newObj desiredCount patch db.
Proof.
  intros Hagree. unfold Insert, Find, Delete, Update.
  by rewrite (CopyWithoutClass_ext associations associations' name Hagree).
Qed.

End store_queries.

(** ** The queries of the store, on examples *)

Section store_queries_examples.
Import Examples.
Local Existing Instance libs.


(** Deleting one entry for [rex] out of three entries. *)
Lemma Delete_accounts_example :
  ∃ count objects',
    @Delete libs "Pet" (VString "rex") None by_name 1 kennel
    = (Ok (Z.of_nat count), set_schema kennel "Pet" (set_Objects pets objects'))
    ∧ (length objects' + count)%nat = 3%nat
    ∧ [mkDBEntry tom (Some ∅)] ⊆+ objects'
    ∧ objects' ⊆+ Objects pets
    ∧ count = 1%nat.
Proof.
  exact (@Delete_accounts libs kennel "Pet" pets (VString "rex") None by_name 1 eq_refl).
Defined.

(** Deleting every entry for [rex]. *)
Lemma Delete_all_selected_example :
  ∃ objects' db',
    @Delete libs "Pet" (VString "rex") None by_name (-1) kennel = (Ok 2, db')
    ∧ db' = set_schema kennel "Pet" (set_Objects pets objects')
    ∧ objects' ≡ₚ [mkDBEntry tom (Some ∅)]
    ∧ fst (@Find libs "Pet" (VString "rex") None by_name 5 db') = Ok [].
Proof.
  exact (@Delete_all_selected libs kennel "Pet" pets (VString "rex") None by_name (-1) 5
           eq_refl eq_refl).
Defined.

(** Renaming every [rex] to [tom]. *)
Lemma Update_accounts_example :
  ∃ count objects',
    @Update libs "Pet" (VString "rex") None by_name tom (-1) false kennel
    = (Ok (Z.of_nat count), set_schema kennel "Pet" (set_Objects pets objects'))
    ∧ Forall2 (λ entry entry',
                 entry' = entry
                 ∨ (selected (VString "rex") (CopyWithoutClass None "Pet") by_name entry
                    ∧ entry' = mkDBEntry tom (Associations entry)))
        (Objects pets) objects'
    ∧ count = 2%nat
    ∧ (-1 < 0 →
       objects'
       = [mkDBEntry tom (Some ∅); mkDBEntry tom (Some ∅); mkDBEntry tom (Some ∅)]).
Proof.
  exact (@Update_accounts libs kennel "Pet" pets (VString "rex") None by_name tom (-1)
           eq_refl).
Defined.


(** A collection without history takes a string for an object. *)
Lemma Insert_without_history_example :
  @Insert libs "Event" (VString "started") None log_store = (Ok tt, log_store).
Proof.
  exact (@Insert_without_history libs log_store "Event" passing (VString "started") None
           eq_refl eq_refl).
Defined.

(** A query on [Pet] with and without an association under [Pet]. *)
Lemma own_class_is_ignored_example :
  @Insert libs "Pet" (VMap tom) rex_associations kennel
  = @Insert libs "Pet" (VMap tom)
      (Some {["User" := Some {["name" := VString "ann"]}]}) kennel
  ∧ @Find libs "Pet" VNil rex_associations MatchAlways 1 kennel
    = @Find libs "Pet" VNil
        (Some {["User" := Some {["name" := VString "ann"]}]}) MatchAlways 1 kennel
  ∧ @Delete libs "Pet" VNil rex_associations MatchAlways 1 kennel
    = @Delete libs "Pet" VNil
        (Some {["User" := Some {["name" := VString "ann"]}]}) MatchAlways 1 kennel
  ∧ @Update libs "Pet" VNil rex_associations MatchAlways tom 1 true kennel
    = @Update libs "Pet" VNil
        (Some {["User" := Some {["name" := VString "ann"]}]}) MatchAlways tom 1 true kennel.
Proof.
  apply (@own_class_is_ignored libs kennel "Pet" (VMap tom) VNil rex_associations
           (Some {["User" := Some {["name" := VString "ann"]}]}) MatchAlways tom 1 true).
  intros k Hk. unfold rex_associations, map_get.
  rewrite lookup_insert_ne by done. reflexivity.
Defined.

End store_queries_examples.

(** ** The schema engine: verdicts, references and kinds *)

Section verdicts.
Context `{Libs}.

Lemma insensitive_bind {A B} (m m' : M Collection A) (k k' : A → M Collection B) :
  insensitive m m' → (∀ a, insensitive (k a) (k' a)) →
  insensitive (bind m k) (bind m' k').
Proof.
  intros Hm Hk collected collected'.
  destruct (Hm collected collected') as (Hsame & [c Hc] & [c' Hc']).
  unfold bind.
  destruct (m (Some collected)) as [r s], (m' (Some collected')) as [r' s'].
  cbn in *. subst. destruct r'; [apply Hk|..]; by repeat split.
Qed.

Lemma insensitive_lift {A} (r : result A) : insensitive (lift r) (lift r).
Proof. intros ??. by repeat split. Qed.

Lemma insensitive_ret {A} (a : A) : insensitive (ret a) (ret a).
Proof. intros ??. by repeat split. Qed.

Lemma insensitive_fail {A} (e : error) : insensitive (fail (A := A) e) (fail e).
Proof. intros ??. by repeat split. Qed.

Lemma insensitive_panic {A} (msg : string) : insensitive (panic (A := A) msg) (panic msg).
Proof. intros ??. by repeat split. Qed.

Lemma insensitive_deref swagger p : insensitive (deref swagger p) (deref swagger p).
Proof. destruct p; intros ??; by repeat split. Qed.

Lemma insensitive_collect key key' object :
  insensitive (collect key object) (collect key' object).
Proof. intros ??. by repeat split. Qed.

Lemma insensitive_for_each {A} (xs : list A) (body body' : A → M Collection unit) :
  (∀ x, insensitive (body x) (body' x)) →
  insensitive (for_each xs body) (for_each xs body').
Proof.
  intros Hbody. induction xs as [|x xs IH]; [apply insensitive_ret|].
  cbn [for_each]. by apply insensitive_bind.
Qed.

Lemma insensitive_record name name' object :
  insensitive
    (if (0 <? String.length name)%nat then collect name object else ret tt)
    (if (0 <? String.length name')%nat then collect name' object else ret tt).
Proof.
  intros ??.
  destruct (0 <? String.length name)%nat, (0 <? String.length name')%nat;
    by repeat split.
Qed.

Local Ltac insensitive_step :=
  match goal with
  | |- insensitive (bind _ _) (bind _ _) => apply insensitive_bind; [|intros ?]
  | |- insensitive (lift _) (lift _) => apply insensitive_lift
  | |- insensitive (ret _) (ret _) => apply insensitive_ret
  | |- insensitive (fail _) (fail _) => apply insensitive_fail
  | |- insensitive (panic _) (panic _) => apply insensitive_panic
  | |- insensitive (deref _ _) (deref _ _) => apply insensitive_deref
  | |- insensitive (collect _ _) (collect _ _) => apply insensitive_collect
  | |- insensitive (for_each _ _) (for_each _ _) => apply insensitive_for_each; intros ?
  | |- insensitive (validated _ _ _ _) _ => unfold validated
  | |- insensitive (collect_property _ _ _) _ => unfold collect_property
  | |- insensitive (if (0 <? String.length _)%nat then _ else _) _ =>
    apply insensitive_record
  | |- insensitive (if ?b then _ else _) (if ?b then _ else _) => destruct b
  | |- insensitive (match ?x with _ => _ end) (match ?x with _ => _ end) => destruct x
  end.

Lemma insensitive_all_of_loop
  (parses : SchemaRef → string → Interface → bool → Swagger → M Collection unit)
  properties objMap followRef swagger parts count :
  (∀ s name name' object,
     insensitive (parses s name object followRef swagger)
       (parses s name' object followRef swagger)) →
  insensitive (all_of_loop parses properties objMap followRef swagger parts count)
    (all_of_loop parses properties objMap followRef swagger parts count).
Proof.
  intros Hparses. revert count. induction parts as [|s parts IH]; intros count.
  { apply insensitive_ret. }
  cbn [all_of_loop]. repeat insensitive_step; try apply IH. apply Hparses.
Qed.

Lemma insensitive_fields_loop
  (parses : SchemaRef → string → Interface → bool → Swagger → M Collection unit)
  sv followRef swagger fields count :
  (∀ s name name' object,
     insensitive (parses s name object followRef swagger)
       (parses s name' object followRef swagger)) →
  insensitive (fields_loop parses sv followRef swagger fields count)
    (fields_loop parses sv followRef swagger fields count).
Proof.
  intros Hparses. revert count.
  induction fields as [|[propertyName objProperty] fields IH]; intros count.
  { apply insensitive_ret. }
  cbn [fields_loop]. repeat insensitive_step; try apply IH. apply Hparses.
Qed.

Lemma insensitive_Parses_body
  (parses : SchemaRef → string → Interface → bool → Swagger → M Collection unit)
  properties schema name name' object followRef swagger :
  (∀ s name name' object,
     insensitive (parses s name object followRef swagger)
       (parses s name' object followRef swagger)) →
  insensitive (Parses_body parses properties schema name object followRef swagger)
    (Parses_body parses properties schema name' object followRef swagger).
Proof.
  intros Hparses. unfold Parses_body. cbv zeta.
  destruct object as [|b|i|f|str|str|objMap|ar|kind];
    repeat insensitive_step;
    try apply Hparses;
    try (apply insensitive_all_of_loop; apply Hparses);
    try (apply insensitive_fields_loop; apply Hparses).
Qed.

Lemma Parses_insensitive fuel schema name name' object followRef swagger :
  insensitive (Parses fuel schema name object followRef swagger)
    (Parses fuel schema name' object followRef swagger).
Proof.
  revert schema name name' object.
  induction fuel as [|fuel IH]; intros schema name name' object.
  { intros ??. by repeat split. }
  cbn [Parses]. by apply insensitive_Parses_body.
Qed.

(** X12. A reference matches what the schema matches that it refers to:
    for an object other than nil, [Matches] on a reference to a registered
    schema is [Matches] on that schema. *)
Theorem Matches_reference fuel schema referred object swagger :
  Ref schema ≠ "" →
  Schemas swagger !! Ref schema = Some referred →
  is_Some (Value referred) →
  object ≠ VNil →
  Matches (S fuel) schema object swagger = Matches fuel referred object swagger.
Proof.
  intros Href Hreferred Hvalue Hobject. unfold Matches.
  assert (Parses (S fuel) schema "" object true swagger (Some ∅)
          = Parses fuel referred (Ref schema) object true swagger (Some ∅)) as ->.
  { destruct object; try done; cbn [Parses]; unfold Parses_body;
      (erewrite bind_Ok;
         [|unfold lift, GetReferredSchema; by rewrite decide_False, Hreferred by done]);
      cbv beta iota; by rewrite bool_decide_eq_true_2 by done. }
  by destruct (Parses_insensitive fuel referred (Ref schema) "" object true swagger ∅ ∅)
    as (-> & _ & _).
Qed.

(** Entering [Parses] on a node that is neither a reference nor a
    composite, with an object that is not nil. *)
Local Ltac enter_plain Href Hvalue Hallof :=
  cbn [Parses]; unfold Parses_body;
  erewrite bind_Ok; [|unfold lift; by rewrite (GetReferredSchema_no_ref _ _ Href)];
  cbn [Value]; rewrite bool_decide_eq_false_2 by (by intros [??]);
  rewrite Hvalue; erewrite bind_Ok; [|done]; rewrite Hallof;
  change (0 <? length [])%nat with false; cbv iota.


(** X14. The type assertions of [Validate] make [Matches] panic where
    [Parses] has admitted the kind: on an integer against a schema of the
    type [integer] or [number] that declares a minimum or a maximum, and
    on a [json.Number] against a schema of the type [string]. *)
Theorem Matches_type_assertions fuel swagger schema a :
  Ref schema = "" → Value schema = Some a → AllOf (Heap swagger a) = [] →
  (Type_ (Heap swagger a) = TYPE_INTEGER ∨ Type_ (Heap swagger a) = TYPE_NUMBER →
   is_Some (Min (Heap swagger a)) ∨ is_Some (Max (Heap swagger a)) →
   ∀ i, Matches (S fuel) schema (VInt i) swagger
        = Panic "interface conversion: interface {} is not float64")
  ∧ (Type_ (Heap swagger a) = TYPE_STRING →
     ∀ str, Matches (S fuel) schema (VNumber str) swagger
            = Panic "interface conversion: interface {} is not string").
Proof.
  intros Href Hvalue Hallof. split.
  - intros Htype Hbound i. unfold Matches. enter_plain Href Hvalue Hallof.
    replace (negb (Contains (Type_ (Heap swagger a)) TYPE_INTEGER)
             && negb (Contains (Type_ (Heap swagger a)) TYPE_NUMBER)) with false
      by (by destruct Htype as [-> | ->]).
    unfold validated, Validate. rewrite Hvalue.
    rewrite decide_False by (destruct Htype as [-> | ->]; done).
    rewrite bool_decide_eq_true_2 by tauto.
    destruct Hbound as [[mn ->]|[mx ->]]; [done|].
    by destruct (Min (Heap swagger a)).
  - intros Htype str. unfold Matches. enter_plain Href Hvalue Hallof.
    rewrite Htype. change (Contains TYPE_STRING TYPE_STRING) with true. cbv iota.
    unfold validated, Validate. rewrite Hvalue, Htype.
    by rewrite decide_True by done.
Qed.

(** *** Properties of a schema *)

(** Copying the entries of [p] into [acc], as [GetProperties] does for a
    member of a composite. *)
Lemma copy_range_union {V} (p acc : gmap string V) :
  foldl (λ acc kv, <[kv.1 := kv.2]> acc) acc (range p) = p ∪ acc.
Proof.
  apply map_eq. intros k.
  rewrite (fill_loop_lookup (λ _ v, v)) by apply range_NoDup_keys.
  rewrite range_to_map, lookup_union. by destruct (p !! k), (acc !! k).
Qed.

Lemma union_list_snoc {V} (l : list (gmap string V)) (p : gmap string V) :
  ⋃ (l ++ [p]) = ⋃ l ∪ p.
Proof.
  induction l as [|q l IH]; cbn.
  - by rewrite (left_id_L ∅ (∪)), (right_id_L ∅ (∪)).
  - by rewrite IH, (assoc_L (∪)).
Qed.

Lemma fold_union_reverse {V} (ps : list (gmap string V)) (acc : gmap string V) :
  foldl (λ acc p, p ∪ acc) acc ps = ⋃ (reverse ps) ∪ acc.
Proof.
  revert acc. induction ps as [|p ps IH]; intros acc.
  - cbn. by rewrite (left_id_L ∅ (∪)).
  - cbn [foldl]. by rewrite IH, reverse_cons, union_list_snoc, (assoc_L (∪)).
Qed.

(** X15. The properties of a composite without properties of its own are
    those of its members, a later member overriding an earlier one that
    declares the same name: [GetProperties] returns the union of the
    members' properties, taken from the last member to the first. *)
Theorem GetProperties_composite fuel swagger schema a ps :
  Value schema = Some a →
  Ref schema = "" →
  Properties (Heap swagger a) = ∅ →
  AllOf (Heap swagger a) ≠ [] →
  Forall2 (λ s p, GetProperties fuel s swagger = Ok p) (AllOf (Heap swagger a)) ps →
  GetProperties (S fuel) schema swagger = Ok (⋃ (reverse ps)).
Proof.
  intros Hvalue Href Hown Hparts Hps. cbn [GetProperties]. rewrite Hvalue, Hown.
  rewrite map_size_empty. change (0 <? 0)%nat with false. cbv iota.
  rewrite (GetReferredSchema_no_ref _ _ Href). cbn [Value].
  rewrite bool_decide_eq_false_2 by (by intros [??]).
  replace (0 <? length (AllOf (Heap swagger a)))%nat with true
    by (by destruct (AllOf (Heap swagger a))).
  clear Hparts. rewrite <- (right_id_L ∅ (∪) (⋃ (reverse ps))).
  generalize (∅ : gmap string SchemaRef) as acc.
  induction Hps as [|s p parts ps Hp _ IH]; intros acc.
  - cbn. by rewrite (left_id_L ∅ (∪)).
  - rewrite Hp, copy_range_union, IH.
    by rewrite reverse_cons, union_list_snoc, (assoc_L (∪)).
Qed.

(** *** Recording *)

(** An object that parses against a schema that is no reference is
    recorded under the name that [Parses] was given. *)
Lemma Parses_appends fuel swagger schema a name objMap followRef collected collected' :
  Ref schema = "" → Value schema = Some a → name ≠ "" →
  Parses (S fuel) schema name (VMap (Some objMap)) followRef swagger (Some collected)
  = (Ok tt, collected') →
  recorded name (VMap (Some objMap)) collected'.
Proof.
  intros Href Hvalue Hname.
  assert (∀ s1, collect name (VMap (Some objMap)) s1 = (Ok tt, collected') →
                recorded name (VMap (Some objMap)) collected') as Hcollect.
  { intros [before|]; [|done]. cbn. intros [= <-]. by exists before. }
  assert ((0 <? String.length name)%nat = true) as Hlong by (by destruct name).
  cbn [Parses]. unfold Parses_body.
  erewrite bind_Ok; [|unfold lift; by rewrite (GetReferredSchema_no_ref _ _ Href)].
  cbn [Value]. rewrite bool_decide_eq_false_2 by (by intros [??]).
  rewrite Hvalue. erewrite bind_Ok; [|done].
  destruct (0 <? length (AllOf (Heap swagger a)))%nat.
  - intros Hrun. apply bind_returns in Hrun as (count & s1 & _ & Htail).
    destruct (count * 4 <? Z.of_nat (size objMap) * 3); [done|].
    rewrite Hlong in Htail. by apply (Hcollect s1).
  - intros Hrun. apply bind_returns in Hrun as ([] & s0 & _ & Hrun).
    apply bind_returns in Hrun as (count & s1 & _ & Htail).
    destruct (count * 4 <? map_len (Some objMap) * 3); [done|].
    rewrite Hlong in Htail. by apply (Hcollect s1).
Qed.

(** X16. Where [Parses] records an object (a map) that it accepts, after
    what the collection holds there: against a schema that is no
    reference, under the name that it was given, if that is not empty;
    against a reference to a registered schema that is not itself a
    reference, references being followed, under the name of the schema
    referred to, whatever the name that it was given. Where references are
    not followed, a reference to a registered schema accepts every object
    and nothing is recorded. *)
Theorem Parses_records fuel swagger schema a name objMap followRef collected collected' :
  (Ref schema = "" → Value schema = Some a → name ≠ "" →
   Parses (S fuel) schema name (VMap (Some objMap)) followRef swagger (Some collected)
   = (Ok tt, collected') →
   recorded name (VMap (Some objMap)) collected')
  ∧ (∀ referred,
       Ref schema ≠ "" →
       Schemas swagger !! Ref schema = Some referred →
       Ref referred = "" → Value referred = Some a →
       Parses (S (S fuel)) schema name (VMap (Some objMap)) true swagger (Some collected)
       = (Ok tt, collected') →
       recorded (Ref schema) (VMap (Some objMap)) collected')
  ∧ (∀ referred object collection,
       Ref schema ≠ "" →
       Schemas swagger !! Ref schema = Some referred →
       is_Some (Value referred) →
       Parses (S fuel) schema name object false swagger collection = (Ok tt, collection)).
Proof.
  split; [|split].
  - intros Href Hvalue Hname Hrun. by eapply Parses_appends.
  - intros referred Href Hreferred Hplain Hvalue.
    change (Parses (S (S fuel)) schema name (VMap (Some objMap)) true swagger)
      with (Parses_body (Parses (S fuel)) (GetProperties (S fuel)) schema name
              (VMap (Some objMap)) true swagger).
    unfold Parses_body.
    erewrite bind_Ok;
      [|unfold lift, GetReferredSchema; by rewrite decide_False, Hreferred by done].
    cbv beta iota. rewrite bool_decide_eq_true_2 by (by rewrite Hvalue).
    cbn [negb]. by apply (Parses_appends fuel swagger referred a).
  - intros referred object collection Href Hreferred Hvalue.
    destruct object; try done; cbn [Parses]; unfold Parses_body;
      (erewrite bind_Ok;
         [|unfold lift, GetReferredSchema; by rewrite decide_False, Hreferred by done]);
      cbv beta iota; by rewrite bool_decide_eq_true_2 by done.
Qed.

End verdicts.

(** ** The order of iteration over maps *)

Section orders.
Context `{Libs}.
Context (order : ∀ V, gmap string V → list (string * V)).
Context (order_perm : ∀ V (m : gmap string V), order V m ≡ₚ map_to_list m).

Lemma same_success_bind {A B} (m m' : M Collection A) (k k' : A → M Collection B) :
  same_success m m' → (∀ a, same_success (k a) (k' a)) →
  same_success (bind m k) (bind m' k').
Proof.
  intros Hm Hk collected collected'.
  destruct (Hm collected collected') as ([c Hc] & [c' Hc'] & Hok).
  unfold bind.
  destruct (m (Some collected)) as [r s], (m' (Some collected')) as [r' s'].
  cbn in Hc, Hc', Hok. subst s s'.
  destruct r as [a| | |].
  { rewrite (proj1 (Hok a) eq_refl). apply Hk. }
  all: destruct r' as [a'| | |]; try (by pose proof (proj2 (Hok a') eq_refl)).
  all: cbn; (split; [by eexists|]); (split; [by eexists|]); intros ?; split; intros [=].
Qed.

Lemma same_success_sym {A} (m m' : M Collection A) :
  same_success m m' → same_success m' m.
Proof.
  intros Hm collected collected'. destruct (Hm collected' collected) as (? & ? & Hok).
  split; [done|]. split; [done|]. intros a. by rewrite Hok.
Qed.

Lemma same_success_trans {A} (m m' m'' : M Collection A) :
  same_success m m' → same_success m' m'' → same_success m m''.
Proof.
  intros Hm Hm' collected collected''.
  destruct (Hm collected ∅) as (? & _ & Hok), (Hm' ∅ collected'') as (_ & ? & Hok').
  split; [done|]. split; [done|]. intros a. by rewrite Hok, Hok'.
Qed.

Lemma same_success_lift {A} (r : result A) : same_success (lift r) (lift r).
Proof. intros ??. by repeat split. Qed.

Lemma same_success_ret {A} (a : A) : same_success (ret a) (ret a).
Proof. intros ??. by repeat split. Qed.

Lemma same_success_fail {A} (e e' : error) : same_success (fail (A := A) e) (fail e').
Proof. intros ??. by repeat split. Qed.

Lemma same_success_panic {A} (msg : string) : same_success (panic (A := A) msg) (panic msg).
Proof. intros ??. by repeat split. Qed.

Lemma same_success_deref swagger p : same_success (deref swagger p) (deref swagger p).
Proof. destruct p; intros ??; by repeat split. Qed.

Lemma same_success_collect key key' object :
  same_success (collect key object) (collect key' object).
Proof. intros ??. by repeat split. Qed.

Lemma same_success_record name name' object :
  same_success
    (if (0 <? String.length name)%nat then collect name object else ret tt)
    (if (0 <? String.length name')%nat then collect name' object else ret tt).
Proof.
  intros ??.
  destruct (0 <? String.length name)%nat, (0 <? String.length name')%nat;
    by repeat split.
Qed.

Lemma same_success_for_each {A} (xs : list A) (body body' : A → M Collection unit) :
  (∀ x, same_success (body x) (body' x)) →
  same_success (for_each xs body) (for_each xs body').
Proof.
  intros Hbody. induction xs as [|x xs IH]; [apply same_success_ret|].
  cbn [for_each]. by apply same_success_bind.
Qed.

(** Two steps of a loop, taken in either order. *)
Lemma same_success_swap {B} (m1 m2 : M Collection unit) (k k' : M Collection B) :
  same_success m1 m1 → same_success m2 m2 → same_success k k' →
  same_success (let* _ := m1 in let* _ := m2 in k) (let* _ := m2 in let* _ := m1 in k').
Proof.
  intros H1 H2 Hk collected collected'. rewrite !bind_unfold.
  destruct (H2 collected' collected') as ([c2' Hc2'] & _ & _).
  destruct (m2 (Some collected')) as [r2' s2'] eqn:E2'. cbn in Hc2'. subst s2'.
  destruct (H1 collected c2') as ([c1 Hc1] & [c1' Hc1'] & Hok1).
  destruct (m1 (Some collected)) as [r1 s1] eqn:E1. cbn in Hc1. subst s1.
  rewrite !bind_unfold.
  destruct (m1 (Some c2')) as [r1' s1'] eqn:E1'. cbn in Hc1', Hok1. subst s1'.
  destruct (H2 c1 collected') as ([c2 Hc2] & _ & Hok2). rewrite E2' in Hok2.
  destruct (m2 (Some c1)) as [r2 s2] eqn:E2. cbn in Hc2, Hok2. subst s2.
  assert (∀ (r r' : result ()), (∀ a, r = Ok a ↔ r' = Ok a) →
            (r = Ok tt ∧ r' = Ok tt)
            ∨ ((∀ a, r ≠ Ok a) ∧ ∀ a, r' ≠ Ok a)) as Hcases.
  { intros r r' Hok. destruct r as [[]| | |].
    - left. split; [done|]. by apply Hok.
    - right. split; [done|]. intros a Ha. by apply Hok in Ha.
    - right. split; [done|]. intros a Ha. by apply Hok in Ha.
    - right. split; [done|]. intros a Ha. by apply Hok in Ha. }
  destruct (Hcases _ _ Hok1) as [[-> ->]|[Hno1 Hno1']];
    destruct (Hcases _ _ Hok2) as [[-> ->]|[Hno2 Hno2']].
  - apply Hk.
  - destruct r2 as [a| | |]; [by destruct (Hno2 a)|..];
      (destruct r2' as [a'| | |]; [by destruct (Hno2' a')|..]);
      cbn; (split; [by eexists|]); (split; [by eexists|]); intros ?; split; intros [=].
  - destruct r1 as [a| | |]; [by destruct (Hno1 a)|..];
      (destruct r1' as [a'| | |]; [by destruct (Hno1' a')|..]);
      cbn; (split; [by eexists|]); (split; [by eexists|]); intros ?; split; intros [=].
  - destruct r1 as [a| | |]; [by destruct (Hno1 a)|..];
      (destruct r2' as [a'| | |]; [by destruct (Hno2' a')|..]);
      cbn; (split; [by eexists|]); (split; [by eexists|]); intros ?; split; intros [=].
Qed.

Local Ltac success_step :=
  match goal with
  | |- same_success (bind _ _) (bind _ _) => apply same_success_bind; [|intros ?]
  | |- same_success (lift _) (lift _) => apply same_success_lift
  | |- same_success (ret _) (ret _) => apply same_success_ret
  | |- same_success (fail _) (fail _) => apply same_success_fail
  | |- same_success (panic _) (panic _) => apply same_success_panic
  | |- same_success (deref _ _) (deref _ _) => apply same_success_deref
  | |- same_success (collect _ _) (collect _ _) => apply same_success_collect
  | |- same_success (for_each _ _) (for_each _ _) => apply same_success_for_each; intros ?
  | |- same_success (validated _ _ _ _) _ => unfold validated
  | |- same_success (collect_property _ _ _) _ => unfold collect_property
  | |- same_success (if (0 <? String.length _)%nat then _ else _) _ =>
    apply same_success_record
  | |- same_success (if ?b then _ else _) (if ?b then _ else _) => destruct b
  | |- same_success (match ?x with _ => _ end) (match ?x with _ => _ end) => destruct x
  end.

(** The properties of a schema do not depend on the order. *)
Lemma GetProperties_order fuel schema swagger :
  @GetProperties (with_range _ order order_perm) fuel schema swagger
  = GetProperties fuel schema swagger.
Proof.
  revert schema. induction fuel as [|fuel IH]; intros schema; [done|].
  cbn [GetProperties]. destruct (Value schema) as [a|]; [|done].
  destruct (0 <? size _)%nat; [done|].
  destruct (GetReferredSchema swagger schema) as [[refName referredSchema]| | |];
    try done.
  destruct (bool_decide _); [apply IH|].
  destruct (0 <? length _)%nat; [|done].
  generalize (∅ : gmap string SchemaRef).
  induction (AllOf (Heap swagger a)) as [|part parts IHparts]; intros acc; [done|].
  rewrite IH. destruct (GetProperties fuel part swagger) as [p| | |]; try done.
  rewrite (@copy_range_union (with_range _ order order_perm)), copy_range_union.
  apply IHparts.
Qed.

(** The loop over the members of a composite, in either order. *)
Lemma all_of_loop_order
  (parses parses' : SchemaRef → string → Interface → bool → Swagger → M Collection unit)
  (properties properties' : SchemaRef → Swagger → result (gmap string SchemaRef))
  objMap followRef swagger parts count :
  (∀ s name name' object,
     same_success (parses s name object followRef swagger)
       (parses' s name' object followRef swagger)) →
  (∀ s, properties' s swagger = properties s swagger) →
  same_success (all_of_loop parses properties objMap followRef swagger parts count)
    (@all_of_loop (with_range _ order order_perm) parses' properties' objMap followRef
       swagger parts count).
Proof.
  intros Hparses Hproperties. revert count.
  induction parts as [|s parts IH]; intros count; [apply same_success_ret|].
  cbn [all_of_loop]. rewrite Hproperties.
  apply same_success_bind; [apply same_success_lift|intros p].
  destruct (size p =? 0)%nat; [apply IH|].
  rewrite (@sub_object_loop (with_range _ order order_perm)), sub_object_loop.
  apply same_success_bind; [apply Hparses|intros _; apply IH].
Qed.

(** The loop over the fields of an object, in either order. *)
Lemma fields_loop_same
  (parses parses' : SchemaRef → string → Interface → bool → Swagger → M Collection unit)
  sv followRef swagger fields count :
  (∀ s name name' object,
     same_success (parses s name object followRef swagger)
       (parses' s name' object followRef swagger)) →
  same_success (fields_loop parses sv followRef swagger fields count)
    (fields_loop parses' sv followRef swagger fields count).
Proof.
  intros Hparses. revert count.
  induction fields as [|[propertyName objProperty] fields IH]; intros count.
  { apply same_success_ret. }
  cbn [fields_loop]. destruct (Properties sv !! propertyName); [|apply IH].
  apply same_success_bind; [apply Hparses|intros _; apply IH].
Qed.

Lemma fields_loop_permuted
  (parses : SchemaRef → string → Interface → bool → Swagger → M Collection unit)
  sv followRef swagger fields fields' count :
  (∀ s name name' object,
     same_success (parses s name object followRef swagger)
       (parses s name' object followRef swagger)) →
  fields ≡ₚ fields' →
  same_success (fields_loop parses sv followRef swagger fields count)
    (fields_loop parses sv followRef swagger fields' count).
Proof.
  intros Hparses Hperm. revert count.
  induction Hperm as [|[k v] l l' _ IH|[k1 v1] [k2 v2] l|l l' l'' _ IH1 _ IH2];
    intros count.
  - apply same_success_ret.
  - cbn [fields_loop]. destruct (Properties sv !! k); [|apply IH].
    apply same_success_bind; [apply Hparses|intros _; apply IH].
  - cbn [fields_loop].
    destruct (Properties sv !! k1) as [s1|], (Properties sv !! k2) as [s2|].
    + apply same_success_swap; [apply Hparses..|by apply fields_loop_same].
    + apply same_success_bind; [apply Hparses|intros _; by apply fields_loop_same].
    + apply same_success_bind; [apply Hparses|intros _; by apply fields_loop_same].
    + by apply fields_loop_same.
  - eapply same_success_trans; [apply IH1|apply IH2].
Qed.

Lemma fields_loop_order
  (parses parses' : SchemaRef → string → Interface → bool → Swagger → M Collection unit)
  sv followRef swagger fields fields' count :
  (∀ s name name' object,
     same_success (parses s name object followRef swagger)
       (parses' s name' object followRef swagger)) →
  fields ≡ₚ fields' →
  same_success (fields_loop parses sv followRef swagger fields count)
    (fields_loop parses' sv followRef swagger fields' count).
Proof.
  intros Hparses Hperm.
  eapply same_success_trans; [by apply fields_loop_same|].
  apply fields_loop_permuted; [|done]. intros s name name' object.
  eapply same_success_trans; [apply same_success_sym, (Hparses s "")|apply Hparses].
Qed.

Lemma Parses_body_order
  (parses parses' : SchemaRef → string → Interface → bool → Swagger → M Collection unit)
  (properties properties' : SchemaRef → Swagger → result (gmap string SchemaRef))
  schema name name' object followRef swagger :
  (∀ s name name' object,
     same_success (parses s name object followRef swagger)
       (parses' s name' object followRef swagger)) →
  (∀ s, properties' s swagger = properties s swagger) →
  same_success (Parses_body parses properties schema name object followRef swagger)
    (@Parses_body (with_range _ order order_perm) parses' properties' schema name' object
       followRef swagger).
Proof.
  intros Hparses Hproperties. unfold Parses_body. cbv zeta.
  change (@raiseError (with_range _ order order_perm)) with (@raiseError _).
  change (@validated (with_range _ order order_perm)) with (@validated _).
  change (@collect_property (with_range _ order order_perm)) with (@collect_property _).
  destruct object as [|b|i|f|str|str|objMap|ar|kind];
    repeat success_step;
    try apply Hparses;
    try (by apply all_of_loop_order);
    try (apply fields_loop_order; [apply Hparses|]).
  destruct objMap as [g|]; [|done].
  etrans; [apply range_perm|].
  symmetry. apply (@range_perm (with_range _ order order_perm)).
Qed.

(** Whether [Parses] succeeds does not depend on the order in which the
    maps are iterated, nor on the name or the collection. *)
Lemma Parses_order fuel schema name name' object followRef swagger :
  same_success (Parses fuel schema name object followRef swagger)
    (@Parses (with_range _ order order_perm) fuel schema name' object followRef swagger).
Proof.
  revert schema name name' object.
  induction fuel as [|fuel IH]; intros schema name name' object.
  { intros ??. by repeat split. }
  cbn [Parses]. apply Parses_body_order; [apply IH|].
  intros s. apply GetProperties_order.
Qed.

(** X11. Whether [Parses] succeeds depends on the schema, the object and
    [followRef] only: not on the name under which the object is to be
    recorded, not on what the collection holds, as long as the collection
    is a map, and not on the order in which the fields of an object and the
    properties of a schema are iterated; and [Parses] leaves a map for the
    collection. So [Matches], which parses under the empty name into a
    fresh collection, is true exactly when such a call that follows
    references succeeds. *)
Theorem Parses_verdict fuel schema name name' object followRef swagger
  collected collected' :
  (fst (Parses fuel schema name object followRef swagger (Some collected)) = Ok tt
   ↔ fst (Parses fuel schema name' object followRef swagger (Some collected')) = Ok tt)
  ∧ (fst (Parses fuel schema name object followRef swagger (Some collected)) = Ok tt
     ↔ fst (@Parses (with_range _ order order_perm) fuel schema name' object followRef
              swagger (Some collected')) = Ok tt)
  ∧ is_Some (snd (Parses fuel schema name object followRef swagger (Some collected)))
  ∧ (Matches fuel schema object swagger = Ok true
     ↔ fst (Parses fuel schema name object true swagger (Some collected)) = Ok tt).
Proof.
  destruct (Parses_insensitive fuel schema name name' object followRef swagger
              collected collected') as (Hsame & Hmap & _).
  split; [by rewrite Hsame|].
  split; [apply (Parses_order fuel schema name name' object followRef swagger)|].
  split; [done|]. unfold Matches.
  destruct (Parses_insensitive fuel schema "" name object true swagger ∅ collected)
    as (-> & _ & _).
  destruct (Parses fuel schema name object true swagger (Some collected)).1 as [[]| | |];
    split; intros [=]; done.
Qed.

End orders.

(** ** Containment and the matching schema *)

Section containment.
Context `{Libs} `{ErrorText}.

Lemma simulates_bind {A B} name (m : M unit A) (m' : M (list (string * SchemaRef)) A)
  (k : A → M unit B) (k' : A → M (list (string * SchemaRef)) B) :
  simulates name m m' → (∀ a, simulates name (k a) (k' a)) →
  simulates name (bind m k) (bind m' k').
Proof.
  intros Hm Hk log. destruct (Hm log) as (new & Hlog & Hresult).
  unfold bind. destruct (m' log) as [r' log'], (m tt) as [r []]. cbn in *. subst log'.
  destruct (visited name new) eqn:Hnew.
  - subst r. destruct r' as [a| | |]; try (exists new; by rewrite Hnew).
    destruct (Hk a (log ++ new)) as (new' & Hlog' & _).
    exists (new ++ new'). rewrite Hlog', app_assoc. split; [done|].
    unfold visited in *. by rewrite existsb_app, Hnew.
  - subst r. destruct r' as [a| | |]; try (exists new; by rewrite Hnew).
    destruct (Hk a (log ++ new)) as (new' & Hlog' & Hresult').
    exists (new ++ new'). rewrite Hlog', app_assoc. split; [done|].
    unfold visited in *. by rewrite existsb_app, Hnew.
Qed.

Lemma simulates_pure {A} name (r : result A) (m : M unit A)
  (m' : M (list (string * SchemaRef)) A) :
  (∀ s, m s = (r, s)) → (∀ s, m' s = (r, s)) → simulates name m m'.
Proof.
  intros Hm Hm' log. exists []. rewrite Hm, Hm'. by rewrite app_nil_r.
Qed.

Lemma simulates_visit name swagger schemaName schema :
  simulates name (found name swagger schemaName schema) (record swagger schemaName schema).
Proof.
  intros log. exists [(schemaName, schema)]. split; [done|].
  unfold found, visited. cbn.
  destruct (decide (schemaName = name)) as [->|Hne].
  - by rewrite bool_decide_eq_true_2.
  - by rewrite bool_decide_eq_false_2.
Qed.

Lemma simulates_for_each {A} name (xs : list A) (body : A → M unit unit)
  (body' : A → M (list (string * SchemaRef)) unit) :
  (∀ x, simulates name (body x) (body' x)) →
  simulates name (for_each xs body) (for_each xs body').
Proof.
  intros Hbody. induction xs as [|x xs IH]; [by apply (simulates_pure name (Ok tt))|].
  cbn [for_each]. by apply simulates_bind.
Qed.

Local Ltac simulates_step :=
  match goal with
  | |- simulates _ (bind _ _) (bind _ _) => apply simulates_bind; [|intros ?]
  | |- simulates _ (found _ _ _ _) (record _ _ _) => apply simulates_visit
  | |- simulates _ (for_each _ _) (for_each _ _) => apply simulates_for_each; intros ?
  | |- simulates _ (lift ?r) (lift _) => by apply (simulates_pure _ r)
  | |- simulates _ (ret ?a) (ret _) => by apply (simulates_pure _ (Ok a))
  | |- simulates _ (panic ?msg) (panic _) => by apply (simulates_pure _ (Panic msg))
  | |- simulates _ (deref _ ?p) (deref _ _) =>
    destruct p; [by eapply simulates_pure|by eapply simulates_pure]
  | |- simulates _ (if ?b then _ else _) (if ?b then _ else _) => destruct b
  | |- simulates _ (match ?x with _ => _ end) (match ?x with _ => _ end) => destruct x
  end.

Lemma Iterate_simulates name fuel schema swagger :
  simulates name (Iterate fuel schema (found name) swagger true)
    (Iterate fuel schema record swagger true).
Proof.
  revert schema. induction fuel as [|fuel IH]; intros schema.
  { by apply (simulates_pure name OutOfFuel). }
  cbn [Iterate]. unfold Iterate_body.
  repeat simulates_step; apply IH.
Qed.

(** X17. [Contains] says whether the traversal that follows weak
    references visits a schema under the name: it is true exactly when
    [Iterate], run with a visitor that records its calls, records a call
    under that name before it ends (or ends with an error whose text is
    "found"). *)
Theorem Contains_visits fuel schema name swagger :
  SchemaRef_Contains fuel schema name swagger
  = let run := Iterate fuel schema record swagger true [] in
    if visited name run.2 then Ok true
    else match run.1 with
         | Ok _ => Ok false
         | Err err => Ok (bool_decide (Error err = "found"))
         | Panic msg => Panic msg
         | OutOfFuel => OutOfFuel
         end.
Proof.
  destruct (Iterate_simulates name fuel schema swagger []) as (new & Hlog & Hresult).
  unfold SchemaRef_Contains. cbv zeta. rewrite Hlog, Hresult. cbn [app].
  by destruct (visited name new).
Qed.

(** X18. What [Contains] finds first: every schema contains the empty
    name, since the traversal visits its root under that name; and a
    reference that is no composite (its schema has no [allOf]) to a
    registered schema contains the name of that schema, whether or not the
    schema is tagged Weak. *)
Theorem Contains_root_and_reference fuel schema a swagger :
  Value schema = Some a →
  SchemaRef_Contains (S fuel) schema "" swagger = Ok true
  ∧ ∀ referred,
      AllOf (Heap swagger a) = [] →
      Ref schema ≠ "" →
      Schemas swagger !! Ref schema = Some referred →
      is_Some (Value referred) →
      SchemaRef_Contains (S fuel) schema (Ref schema) swagger = Ok true.
Proof.
  intros Hvalue. split.
  - unfold SchemaRef_Contains. cbn [Iterate]. unfold Iterate_body, deref.
    rewrite Hvalue. unfold bind at 1. unfold ret at 1. rewrite andb_false_r.
    unfold bind at 1. unfold found at 1. by rewrite decide_True by done.
  - intros referred Hallof Href Hreferred [b Hb].
    unfold SchemaRef_Contains. cbn [Iterate]. unfold Iterate_body, deref.
    rewrite Hvalue. unfold bind at 1. unfold ret at 1. rewrite andb_false_r.
    unfold bind at 1. unfold found at 1. rewrite decide_False by done.
    unfold ret at 1. rewrite Hallof. change (0 <? length [])%nat with false. cbv iota.
    unfold bind at 1, lift, GetReferredSchema.
    rewrite decide_False, Hreferred, Hb by done. rewrite andb_false_r.
    unfold found. by rewrite decide_True by done.
Qed.

Lemma matching_loop_sound fuel obj swagger collections name schema :
  matching_loop fuel obj swagger collections = Ok (name, schema) →
  (∃ sdb, (name, sdb) ∈ collections ∧ DBSchema sdb = schema
          ∧ Matches fuel schema obj swagger = Ok true)
  ∨ ((name, schema) = ("", mkSchemaRef "" None)
     ∧ ∀ n sdb, (n, sdb) ∈ collections →
                Matches fuel (DBSchema sdb) obj swagger = Ok false).
Proof.
  induction collections as [|[n sdb] collections IH]; cbn [matching_loop].
  - intros [= <- <-]. right. split; [done|]. intros n sdb Hin.
    by apply elem_of_nil in Hin.
  - destruct (Matches fuel (DBSchema sdb) obj swagger) as [[|]| | |] eqn:Hmatches;
      try done.
    + intros [= <- <-]. left. exists sdb. split; [by left|done].
    + intros Hrest. destruct (IH Hrest) as [(sdb' & Hin & Hschema & Hok)|[Hnone Hall]].
      * left. exists sdb'. split; [by right|done].
      * right. split; [done|]. intros n' sdb' Hin.
        apply elem_of_cons in Hin as [[= -> ->]|Hin]; [done|by eapply Hall].
Qed.

(** X19. [FindMatchingSchema] returns a schema of the store that matches
    the object, under the name of its collection; when it returns the
    empty name with the empty [SchemaRef] instead, no schema of the store
    matches the object. *)
Theorem FindMatchingSchema_sound fuel obj swagger db name schema :
  FindMatchingSchema fuel obj swagger db = Ok (name, schema) →
  (∃ sdb, schemas db !! name = Some sdb ∧ DBSchema sdb = schema
          ∧ Matches fuel schema obj swagger = Ok true)
  ∨ ((name, schema) = ("", mkSchemaRef "" None)
     ∧ ∀ n sdb, schemas db !! n = Some sdb →
                Matches fuel (DBSchema sdb) obj swagger = Ok false).
Proof.
  intros Hfound. apply matching_loop_sound in Hfound
    as [(sdb & Hin & Hschema & Hok)|[Hnone Hall]].
  - left. exists sdb. by rewrite <- range_lookup.
  - right. split; [done|]. intros n sdb Hin. apply (Hall n sdb). by apply range_lookup.
Qed.

End containment.

(** ** Verdicts, containment and recording, on examples *)

Section verdicts_examples.
Import Examples.
Local Existing Instances libs error_text.

(** A tree against a reference to [Tree] and against the schema [Tree]. *)
Lemma Matches_reference_example :
  Matches 4 tree_ref (VMap (Some oak)) document
  = Matches 3 (node 10) (VMap (Some oak)) document.
Proof.
  apply (Matches_reference 3 tree_ref (node 10) (VMap (Some oak)) document).
  - discriminate.
  - reflexivity.
  - exists 10%positive. reflexivity.
  - discriminate.
Defined.

(** The object with the fields [a], [b], [c] and [x] against the schema
    at 3, its fields read in the order of the map and in the reverse
    order. *)
Lemma Parses_verdict_example :
  (fst (Parses 2 (node 3) "abc" (VMap (Some abcx)) true document (Some ∅)) = Ok tt
   ↔ fst (@Parses reversed 2 (node 3) "" (VMap (Some abcx)) true document (Some ∅))
     = Ok tt)
  ∧ Matches 2 (node 3) (VMap (Some abcx)) document = Ok true.
Proof.
  pose proof (@Parses_verdict libs (λ V m, reverse (map_to_list m))
                (λ V m, reverse_Permutation (map_to_list m)) 2 (node 3) "abc" ""
                (VMap (Some abcx)) true document ∅ ∅) as (_ & Horder & _ & Hmatches).
  split; [exact Horder|]. apply Hmatches. vm_compute. reflexivity.
Defined.


(** A [float32] against the schema of an integer from 1 on: [Validate]
    asserts a [float64]. *)
Lemma Matches_float32_bounded :
  Matches 1 (node 30) (VForeign (FFloat32 3)) bounded_document
  = Panic "interface conversion: interface {} is not float64".
Proof. vm_compute. reflexivity. Qed.

(** The integer 3 against the schema of an integer from 1 on. *)
Lemma Matches_type_assertions_example :
  Matches 1 (node 30) (VInt 3) bounded_document
  = Panic "interface conversion: interface {} is not float64".
Proof.
  apply (proj1 (Matches_type_assertions 0 bounded_document (node 30) 30%positive
                  eq_refl eq_refl eq_refl)).
  - left. reflexivity.
  - left. exists 1%float. reflexivity.
Defined.

(** The composite at 6 has the properties of its members at 4 and 5. *)
Lemma GetProperties_composite_example :
  GetProperties 2 (node 6) document
  = Ok (⋃ (reverse [Properties (heap 4); Properties (heap 5)])).
Proof.
  apply (GetProperties_composite 1 document (node 6) 6%positive).
  - reflexivity.
  - reflexivity.
  - reflexivity.
  - discriminate.
  - repeat constructor.
Defined.

Lemma Contains_root_and_reference_example :
  SchemaRef_Contains 1 tree_ref "" document = Ok true
  ∧ SchemaRef_Contains 1 tree_ref "Tree" document = Ok true.
Proof.
  destruct (Contains_root_and_reference 0 tree_ref 10%positive document eq_refl)
    as [Hroot Hreference].
  split; [exact Hroot|].
  apply (Hreference (node 10)).
  - reflexivity.
  - discriminate.
  - reflexivity.
  - exists 10%positive. reflexivity.
Defined.

(** The schema that matches a tree in the store of trees. *)
Lemma FindMatchingSchema_sound_example :
  FindMatchingSchema 3 (VMap (Some oak)) document forest = Ok ("Tree", node 10)
  ∧ ((∃ sdb, schemas forest !! "Tree" = Some sdb ∧ DBSchema sdb = node 10
          ∧ Matches 3 (node 10) (VMap (Some oak)) document = Ok true)
  ∨ (("Tree", node 10) = ("", mkSchemaRef "" None)
     ∧ ∀ n sdb, schemas forest !! n = Some sdb →
                Matches 3 (DBSchema sdb) (VMap (Some oak)) document = Ok false)).
Proof.
  split; [vm_compute; reflexivity|].
  apply (FindMatchingSchema_sound 3 (VMap (Some oak)) document forest "Tree" (node 10)).
  vm_compute. reflexivity.
Defined.

(** A tree parsed against the schema [Tree] under the name [Tree], and
    against the reference under no name. *)
Lemma Parses_records_example :
  Parses 4 (node 10) "Tree" (VMap (Some oak)) true document (Some ∅)
  = (Ok tt, Some {["Tree" := [VMap (Some oak)]]})
  ∧ recorded "Tree" (VMap (Some oak)) (Some {["Tree" := [VMap (Some oak)]]})
  ∧ Parses 4 tree_ref "" (VMap (Some oak)) true document (Some ∅)
    = (Ok tt, Some {["Tree" := [VMap (Some oak)]]})
  ∧ recorded "Tree" (VMap (Some oak)) (Some {["Tree" := [VMap (Some oak)]]}).
Proof.
  assert (Parses 4 (node 10) "Tree" (VMap (Some oak)) true document (Some ∅)
          = (Ok tt, Some {["Tree" := [VMap (Some oak)]]})) as Hschema.
  { vm_compute. reflexivity. }
  assert (Parses 4 tree_ref "" (VMap (Some oak)) true document (Some ∅)
          = (Ok tt, Some {["Tree" := [VMap (Some oak)]]})) as Hreference.
  { vm_compute. reflexivity. }
  split; [exact Hschema|]. split; [|split; [exact Hreference|]].
  - apply (proj1 (Parses_records 3 document (node 10) 10%positive "Tree" oak true ∅ _)).
    + reflexivity.
    + reflexivity.
    + discriminate.
    + exact Hschema.
  - apply (proj1 (proj2 (Parses_records 2 document tree_ref 10%positive "" oak true ∅ _))
             (node 10)).
    + discriminate.
    + reflexivity.
    + reflexivity.
    + reflexivity.
    + exact Hreference.
Defined.

End verdicts_examples.

(** ** The test plan: loading *)

Section loading.
Import mqplan.
Context `{Libs} `{PlanLibs}.

Lemma Add_fresh name testCase plan cases :
  CaseMap plan = Some cases →
  cases !! name = None →
  Add name testCase plan
  = (Ok tt, mkTestPlan (Some (<[name := testCase]> cases)) (CaseList plan ++ [testCase])).
Proof.
  intros Hcases Hname. unfold Add. rewrite Hcases. cbn [map_get map_set].
  rewrite bool_decide_eq_false_2; [done|]. rewrite Hname. by intros [??].
Qed.

(** Adding the cases of a document with distinct names, none of which is
    taken: all are added when no test is nil, and the loop panics
    otherwise. *)
Lemma add_cases_fresh (l : list (string * TestCase)) plan cases :
  NoDup l.*1 →
  CaseMap plan = Some cases →
  (∀ name, name ∈ l.*1 → cases !! name = None) →
  Forall (λ kv, None ∉ kv.2) l →
  for_each l
    (λ '(testName, testCase),
       let* testCase := lift (upper_methods testCase) in Add testName testCase) plan
  = (Ok tt,
     mkTestPlan
       (Some (foldl (λ acc kv, <[kv.1 := map (option_map upper_method) kv.2]> acc) cases l))
       (CaseList plan ++ ((λ kv, map (option_map upper_method) kv.2) <$> l))).
Proof.
  revert plan cases. induction l as [|[testName testCase] l IH];
    intros plan cases Hnd Hcases Hfree Hnil.
  { cbn. rewrite app_nil_r. destruct plan. cbn in *. by subst. }
  apply NoDup_cons in Hnd as [Hfirst Hnd]. apply Forall_cons in Hnil as [Hhere Hnil].
  cbn [for_each]. erewrite bind_Ok.
  2:{ erewrite bind_Ok; [|unfold lift; by rewrite upper_methods_returns].
      apply (Add_fresh _ _ _ cases); [done|apply Hfree; by left]. }
  rewrite (IH _ (<[testName := map (option_map upper_method) testCase]> cases));
    [|done|done| |done].
  - cbn. by rewrite <- app_assoc.
  - intros name Hname. rewrite lookup_insert_ne; [apply Hfree; by right|].
    intros <-. done.
Qed.


(** The map that the cases of a document are added to. *)
Lemma add_cases_map (doc cases : gmap string TestCase) :
  foldl (λ acc kv, <[kv.1 := map (option_map upper_method) kv.2]> acc) cases (range doc)
  = (map (option_map upper_method) <$> doc) ∪ cases.
Proof.
  apply map_eq. intros k.
  rewrite (fill_loop_lookup (λ _ v, map (option_map upper_method) v))
    by apply range_NoDup_keys.
  rewrite range_to_map, lookup_union, lookup_fmap. unfold TestCase in *.
  by destruct (doc !! k), (cases !! k).
Qed.


(** Adding a case of a document leaves a plan whose map is not nil; it
    panics at a nil test only. *)
Lemma add_case_total testName (testCase : TestCase) plan :
  is_Some (CaseMap plan) →
  let out := (let* testCase := lift (upper_methods testCase) in Add testName testCase) plan in
  is_Some (CaseMap out.2)
  ∧ out.1 ≠ OutOfFuel
  ∧ (∀ msg, out.1 = Panic msg → None ∈ testCase).
Proof.
  intros Hplan. cbv zeta. unfold bind, lift.
  destruct (upper_methods_outcome testCase) as [-> | [Hnil ->]]; [|done].
  unfold Add. destruct (bool_decide _); [done|].
  destruct Hplan as [cases ->]. by cbn.
Qed.

Lemma add_cases_total (l : list (string * TestCase)) plan :
  is_Some (CaseMap plan) →
  let out :=
    for_each l
      (λ '(testName, testCase),
         let* testCase := lift (upper_methods testCase) in Add testName testCase) plan in
  is_Some (CaseMap out.2)
  ∧ out.1 ≠ OutOfFuel
  ∧ (∀ msg, out.1 = Panic msg → ∃ kv : string * TestCase, kv ∈ l ∧ None ∈ kv.2).
Proof.
  cbv zeta. revert plan.
  induction l as [|[testName testCase] l IH]; intros plan Hplan; [done|].
  cbn [for_each]. rewrite bind_unfold.
  destruct (add_case_total testName testCase plan Hplan) as (Hmap & Hfuel & Hpanic).
  destruct ((let* testCase := lift (upper_methods testCase) in Add testName testCase) plan)
    as [[[]| | |] plan1]; cbn in Hmap, Hfuel, Hpanic; cbn [fst snd]; try done.
  - destruct (IH plan1 Hmap) as (Hmap' & Hfuel' & Hpanic').
    split; [done|]. split; [done|]. intros msg Hmsg.
    destruct (Hpanic' msg Hmsg) as (kv & Hin & Hnil). exists kv. split; [by right|done].
  - split; [done|]. split; [done|]. intros msg' _.
    exists (testName, testCase). split; [by left|]. by apply (Hpanic msg).
Qed.

(** Loading a chunk leaves a plan whose map is not nil; it panics at a nil
    test only. *)
Lemma AddFromString_total chunk plan :
  is_Some (CaseMap plan) →
  is_Some (CaseMap (AddFromString chunk plan).2)
  ∧ (AddFromString chunk plan).1 ≠ OutOfFuel
  ∧ (∀ msg, (AddFromString chunk plan).1 = Panic msg →
       ∃ doc name testCase,
         yaml_Unmarshal chunk = inr (Some doc)
         ∧ doc !! name = Some testCase ∧ None ∈ testCase).
Proof.
  intros Hplan. unfold AddFromString.
  destruct (yaml_Unmarshal chunk) as [err|[doc|]]; [done| |done]. cbn [range_map].
  destruct (add_cases_total (range doc) plan Hplan) as (Hmap & Hfuel & Hpanic).
  split; [done|]. split; [done|]. intros msg Hmsg.
  destruct (Hpanic msg Hmsg) as ([name testCase] & Hin & Hnil).
  exists doc, name, testCase. split; [done|]. split; [by apply range_lookup|done].
Qed.

Lemma load_chunks_total chunks plan :
  is_Some (CaseMap plan) →
  is_Some (CaseMap (load_chunks chunks plan).2)
  ∧ (∀ e, (load_chunks chunks plan).1 ≠ Err e)
  ∧ ((∀ chunk doc name testCase,
        chunk ∈ chunks → yaml_Unmarshal chunk = inr (Some doc) →
        doc !! name = Some testCase → None ∉ testCase) →
     (load_chunks chunks plan).1 = Ok tt).
Proof.
  revert plan. induction chunks as [|chunk chunks IH]; intros plan Hplan; [done|].
  cbn [load_chunks].
  destruct (AddFromString_total chunk plan Hplan) as (Hmap & Hfuel & Hpanic).
  destruct (AddFromString chunk plan) as [[[]| | |] plan1]; cbn in Hmap, Hfuel, Hpanic.
  - destruct (IH plan1 Hmap) as (? & ? & Hok). repeat split; try done.
    intros Hnil. apply Hok. intros chunk' **. eapply (Hnil chunk'); [by right|done..].
  - destruct (IH plan1 Hmap) as (? & ? & Hok). repeat split; try done.
    intros Hnil. apply Hok. intros chunk' **. eapply (Hnil chunk'); [by right|done..].
  - cbn. repeat split; try done. intros Hnil.
    destruct (Hpanic msg eq_refl) as (doc & name & testCase & Hdoc & Hcase & Hin).
    by destruct (Hnil chunk doc name testCase ltac:(by left) Hdoc Hcase).
  - done.
Qed.

(** X21. [InitFromFile] reports an error only when the file cannot be
    read, and the plan is then empty. For a file that can be read it leaves
    a plan whose map is made and never returns an error: what
    [AddFromString] reports for a chunk (YAML that does not decode, a name
    that is taken) is dropped; and it returns nil when no chunk of the file
    decodes to a case with a nil test (at a nil test [AddFromString]
    panics, and so does [InitFromFile]). ([strings.Split] and
    [yaml.Unmarshal] are taken to return.) *)
Theorem InitFromFile_returns path plan0 :
  match ReadFile path with
  | inl err => InitFromFile path plan0 = (Err err, mkTestPlan (Some ∅) [])
  | inr data =>
    is_Some (CaseMap (InitFromFile path plan0).2)
    ∧ (∀ e, (InitFromFile path plan0).1 ≠ Err e)
    ∧ ((∀ chunk doc name testCase,
          chunk ∈ Split data "---" → yaml_Unmarshal chunk = inr (Some doc) →
          doc !! name = Some testCase → None ∉ testCase) →
       (InitFromFile path plan0).1 = Ok tt)
  end.
Proof.
  unfold InitFromFile. destruct (ReadFile path) as [err|data]; [done|].
  by apply load_chunks_total.
Qed.

Lemma append_empty_r (s : string) : s +:+ "" = s.
Proof.
  induction s as [|c s IH]; [done|].
  change (String c (s +:+ "") = String c s). by rewrite IH.
Qed.

Lemma append_cons_assoc (s : string) c (s' : string) :
  (s +:+ String c "") +:+ s' = s +:+ String c s'.
Proof.
  induction s as [|c' s IH]; [done|].
  change (String c' ((s +:+ String c "") +:+ s') = String c' (s +:+ String c s')).
  by rewrite IH.
Qed.

(** A text without the separator is one chunk. *)
Lemma split_from_one_chunk sep s cur :
  Contains s sep = false → split_from sep s 0 cur = [cur +:+ s].
Proof.
  revert cur. induction s as [|c s IH]; intros cur Hfree.
  { cbn. by rewrite append_empty_r. }
  cbn [Contains] in Hfree. apply orb_false_iff in Hfree as [Hhere Hlater].
  cbn [split_from]. rewrite Hhere, IH by done. by rewrite append_cons_assoc.
Qed.

(** X22. A plan file of one document loads into exactly the cases of the
    document: when the file holds no separator and decodes to a map of
    cases none of which holds a nil test, [InitFromFile] leaves a plan that
    maps the names of the document to its cases, with what
    [strings.ToUpper] makes of the methods that are set, and nothing else,
    whatever the plan held before. *)
Theorem InitFromFile_single_document path data doc plan0 :
  ReadFile path = inr data →
  Contains data "---" = false →
  yaml_Unmarshal data = inr (Some doc) →
  (∀ name testCase, doc !! name = Some testCase → None ∉ testCase) →
  InitFromFile path plan0
  = (Ok tt,
     mkTestPlan (Some (map (option_map upper_method) <$> doc))
       ((λ kv, map (option_map upper_method) kv.2) <$> range doc)).
Proof.
  intros Hfile Hone Hdoc Hnil. unfold InitFromFile. rewrite Hfile.
  unfold Split. rewrite split_from_one_chunk by done.
  change ("" +:+ data) with data. cbn [load_chunks].
  unfold AddFromString. rewrite Hdoc. cbn [range_map].
  rewrite (add_cases_fresh _ _ ∅); [|apply range_NoDup_keys|done|done|].
  - rewrite add_cases_map. cbn [CaseList app]. by rewrite (right_id_L ∅ (∪)).
  - apply Forall_forall. intros [name testCase] Hin. apply range_lookup in Hin.
    by apply (Hnil name).
Qed.

End loading.

(** ** The value generator *)

Section generator.
Import mqplan.
Context `{Libs} `{PlanLibs}.

(** X23. A parameter without body schema that lists values gets one of the
    listed values, printed as a string, whatever type it declares; one
    reading is taken from outside. *)
Theorem generateParameter_enum paramSpec db w :
  Schema paramSpec = None →
  Enum (Validations paramSpec) ≠ [] →
  ∃ e,
    e ∈ Enum (Validations paramSpec)
    ∧ generateParameter paramSpec db w
      = (Ok (VString (Sprint e)), mkWorld (readings w) (S (consumed w))).
Proof.
  intros Hschema Henum. unfold generateParameter. rewrite Hschema.
  destruct (Enum (Validations paramSpec)) as [|e0 enum] eqn:Hlist; [done|].
  change (negb (length (e0 :: enum) =? 0)%nat) with true. cbv iota.
  unfold generateByEnum. rewrite Hlist. unfold Intn.
  replace (Z.of_nat (length (e0 :: enum)) <=? 0) with false
    by (symmetry; apply Z.leb_gt; cbn [length]; lia).
  set (i := Z.to_nat (readings w (consumed w) mod Z.of_nat (length (e0 :: enum)))).
  assert (i < length (e0 :: enum))%nat as Hi.
  { unfold i.
    pose proof (Z.mod_pos_bound (readings w (consumed w))
                  (Z.of_nat (length (e0 :: enum)))) as Hbound.
    cbn [length] in *. lia. }
  destruct (lookup_lt_is_Some_2 _ _ Hi) as [e He].
  exists e. split; [by eapply list_elem_of_lookup_2|].
  unfold bind, read, ret. fold i. by rewrite He.
Qed.

Lemma array_loop_length generate s prefix todo ar w ar' w' :
  array_loop generate s prefix todo ar w = (Ok ar', w') →
  length ar' = (length ar + todo)%nat.
Proof.
  revert ar w. induction todo as [|todo IH]; intros ar w.
  { cbn. intros [= <- _]. lia. }
  cbn [array_loop]. destruct (Items_ s) as [[simple validations]|]; [|done].
  intros Hrun. apply bind_returns in Hrun as (entry & w1 & _ & Hrest).
  apply IH in Hrest. rewrite length_app in Hrest. cbn in Hrest. lia.
Qed.

(** X24. The length of a generated array: with [minItems] below
    [maxItems] it is at least [minItems] and below [maxItems]; with
    [minItems] above [maxItems] it is [minItems]; and with [minItems]
    equal to [maxItems], as when neither is declared, [generateArray]
    panics before it generates anything. *)
Theorem generateArray_length generate s v prefix w :
  (items_bound (MinItems v) = items_bound (MaxItems v) →
   generateArray generate s v prefix w = (Panic "invalid argument to Intn", w))
  ∧ ∀ value w',
      generateArray generate s v prefix w = (Ok value, w') →
      ∃ ar,
        value = VArray ar
        ∧ ((items_bound (MinItems v) < items_bound (MaxItems v)
            ∧ items_bound (MinItems v) ≤ Z.of_nat (length ar) < items_bound (MaxItems v))
           ∨ (items_bound (MaxItems v) < items_bound (MinItems v)
              ∧ Z.of_nat (length ar) = items_bound (MinItems v))).
Proof.
  unfold generateArray. fold (items_bound (MaxItems v)). fold (items_bound (MinItems v)).
  assert (0 ≤ items_bound (MinItems v)) as Hmin.
  { unfold items_bound. destruct (MinItems v) as [n|]; [|done].
    destruct (n <? 0) eqn:Hn; [done|]. by apply Z.ltb_ge in Hn. }
  cbv zeta. split.
  - intros ->. rewrite Z.sub_diag. by cbn.
  - intros value w'. unfold Intn.
    set (maxDiff := if items_bound (MaxItems v) - items_bound (MinItems v) <? 0 then 1
                    else items_bound (MaxItems v) - items_bound (MinItems v)).
    destruct (maxDiff <=? 0) eqn:Hdiff; [done|]. apply Z.leb_gt in Hdiff.
    intros Hrun. apply bind_returns in Hrun as (n & w1 & Hn & Hrun).
    apply bind_returns in Hrun as (ar & w2 & Hloop & Hret).
    injection Hret as <- _. exists ar. split; [done|].
    apply array_loop_length in Hloop. cbn [length] in Hloop.
    unfold bind, read, ret in Hn. injection Hn as <- _.
    pose proof (Z.mod_pos_bound (readings w (consumed w)) maxDiff Hdiff) as Hbound.
    unfold maxDiff in *.
    destruct (items_bound (MaxItems v) - items_bound (MinItems v) <? 0) eqn:Hneg.
    + apply Z.ltb_lt in Hneg. right. lia.
    + apply Z.ltb_ge in Hneg. left. lia.
Qed.

(** X25. [generateFloat] and [generateInt] never report an error and never
    panic: for every combination of bounds they return a number, and they
    take one reading from outside. *)
Theorem generateFloat_returns v w :
  (∃ f, generateFloat v w = (Ok f, mkWorld (readings w) (S (consumed w))))
  ∧ (∃ i, generateInt v w = (Ok i, mkWorld (readings w) (S (consumed w)))).
Proof.
  assert (∃ f, generateFloat v w = (Ok f, mkWorld (readings w) (S (consumed w))))
    as [f Hf].
  { rewrite generateFloat_unfold. cbv zeta.
    destruct (fge _ _); [destruct (Minimum v), (Maximum v)|];
      cbv [bind Float64 read ret]; eauto. }
  split; [by exists f|].
  unfold generateInt. erewrite bind_Ok by exact Hf.
  destruct (Minimum v) as [minimum|]; [|by eexists].
  destruct (_ <=? _); by eexists.
Qed.

(** X26. [generateString] panics exactly where [Generate] of [reggen]
    does, which it calls for every format but [date-time] and [date] once
    [reggen] has accepted the pattern; every error that it reports is of the
    kind Invalid; and it returns a string exactly when the format is
    [date-time] or [date] (a pattern is then ignored), or [reggen] accepts
    the pattern, [Generate] returns, and the format is empty, [password],
    [byte] or [binary]. (The clock, [Time.Format] and the encoders of
    [base64] and [hex] are taken to return.) *)
Theorem generateString_succeeds s v prefix w :
  let generated :=
    reggen_Generate (string_pattern v prefix) (string_limit v prefix)
      (readings w (consumed w)) in
  (∀ msg, fst (generateString s v prefix w) = Panic msg
          ↔ Format s ≠ "date-time" ∧ Format s ≠ "date"
            ∧ reggen_error (string_pattern v prefix) = None
            ∧ generated = Panics msg)
  ∧ fst (generateString s v prefix w) ≠ OutOfFuel
  ∧ (∀ e, fst (generateString s v prefix w) = Err e → ∃ msg, e = NewError ErrInvalid msg)
  ∧ (is_ok (fst (generateString s v prefix w)) = true
     ↔ Format s = "date-time" ∨ Format s = "date"
       ∨ (reggen_error (string_pattern v prefix) = None
          ∧ (∃ str, generated = Returns str)
          ∧ (Format s = "" ∨ Format s = "password" ∨ Format s = "byte"
             ∨ Format s = "binary"))).
Proof.
  assert (∀ (pattern : string) (length : Z),
            let run :=
              match reggen_error pattern with
              | Some msg => fail (NewError ErrInvalid msg)
              | None =>
                let* seed := read in
                let* str := call (reggen_Generate pattern length seed) in
                if bool_decide (Format s = "" ∨ Format s = "password") then ret str
                else if decide (Format s = "byte") then ret (base64_EncodeToString str)
                else if decide (Format s = "binary") then ret (hex_EncodeToString str)
                else fail (NewError ErrInvalid ("Invalid format string: " +:+ Format s))
              end w in
            let generated := reggen_Generate pattern length (readings w (consumed w)) in
            (∀ msg, fst run = Panic msg
                    ↔ reggen_error pattern = None ∧ generated = Panics msg)
            ∧ fst run ≠ OutOfFuel
            ∧ (∀ e, fst run = Err e → ∃ msg, e = NewError ErrInvalid msg)
            ∧ (is_ok (fst run) = true
               ↔ reggen_error pattern = None
                 ∧ (∃ str, generated = Returns str)
                 ∧ (Format s = "" ∨ Format s = "password" ∨ Format s = "byte"
                    ∨ Format s = "binary"))) as Htail.
  { intros pattern length. cbv zeta.
    destruct (reggen_error pattern) as [msg|].
    { cbn. split; [|split; [|split]]; try done.
      - intros msg'. split; [done|]. by intros [? _].
      - intros e [= <-]. by eexists.
      - split; [done|]. by intros [? _]. }
    cbv [bind read ret call].
    destruct (reggen_Generate pattern length (readings w (consumed w))) as [str|msg].
    2:{ cbn. split; [|split; [|split]]; try done.
        - intros msg'. split; [by intros [= ->]|]. by intros [_ [= ->]].
        - split; [done|]. by intros (_ & [str [=]] & _). }
    assert (∀ msg' : string,
              (Returns str = Panics msg') ↔ False) as Hreturns by (by intros msg').
    destruct (bool_decide (Format s = "" ∨ Format s = "password")) eqn:Hplain.
    { apply bool_decide_eq_true in Hplain. cbn. split; [|split; [|split]]; try done.
      - intros msg'. split; [done|]. by intros [_ [=]].
      - split; [|done]. intros _. split; [done|]. split; [by eexists|tauto]. }
    apply bool_decide_eq_false in Hplain.
    destruct (decide (Format s = "byte")) as [Hbyte|Hbyte].
    { cbn. split; [|split; [|split]]; try done.
      - intros msg'. split; [done|]. by intros [_ [=]].
      - split; [|done]. intros _. split; [done|]. split; [by eexists|tauto]. }
    destruct (decide (Format s = "binary")) as [Hbinary|Hbinary].
    { cbn. split; [|split; [|split]]; try done.
      - intros msg'. split; [done|]. by intros [_ [=]].
      - split; [|done]. intros _. split; [done|]. split; [by eexists|tauto]. }
    cbn. split; [|split; [|split]]; try done.
    - intros msg'. split; [done|]. by intros [_ [=]].
    - intros e [= <-]. by eexists.
    - split; [done|]. intros (_ & _ & Hformat). tauto. }
  cbv zeta. unfold generateString, string_pattern, string_limit.
  destruct (decide (Format s = "date-time")) as [Hdt|Hdt].
  { cbv [bind Now RandomTime Float64 read ret]. cbn. split; [|split; [|split]]; try done.
    - intros msg. split; [done|]. by intros [? _].
    - tauto. }
  destruct (decide (Format s = "date")) as [Hd|Hd].
  { cbv [bind Now RandomTime Float64 read ret]. cbn. split; [|split; [|split]]; try done.
    - intros msg. split; [done|]. by intros (_ & ? & _).
    - tauto. }
  destruct (0 <? String.length (Pattern v))%nat.
  - destruct (Htail (Pattern v) (Z.of_nat (String.length (Pattern v)) * 2))
      as (Hpanic & Hfuel & Herr & Hok).
    split; [|split; [|split]]; try done.
    + intros msg. rewrite Hpanic. tauto.
    + rewrite Hok. tauto.
  - destruct (Htail (prefix +:+ "\d+") (Z.of_nat (String.length prefix) + 5))
      as (Hpanic & Hfuel & Herr & Hok).
    split; [|split; [|split]]; try done.
    + intros msg. rewrite Hpanic. tauto.
    + rewrite Hok. tauto.
Qed.

End generator.

(** ** Running a plan *)

Section running.
Import mqplan.
Context `{Libs} `{PlanLibs} `{Resty}.

(** [ResolveParameters] assigns to the parameters of the test only. *)
Lemma ResolveParameters_fields swagger db plan t w :
  let t' := (ResolveParameters swagger db plan (t, w)).2.1 in
  Name t' = Name t ∧ Path t' = Path t ∧ Method t' = Method t ∧ Ref t' = Ref t.
Proof.
  cbv zeta. unfold ResolveParameters.
  destruct (getOperationByMethod _ _) as [op|]; [|done].
  rewrite resolve_loop_first_missing.
  destruct (list_find _ (OpParameters op)) as [[i params]|]; [|done].
  destruct (generateParameter params db w) as [[p| | |] w']; try done.
  by destruct (Parameters t).
Qed.

Lemma nonempty_length (s : string) : s ≠ "" → negb (String.length s =? 0)%nat = true.
Proof. by destruct s. Qed.

(** X27. A case that the plan does not have, or that has no test, cannot
    be run: [Run] reports that the case is not found and changes nothing;
    and a case whose first test refers to such a case fails with the same
    error, which names the case referred to. *)
Theorem Run_unknown_case fuel name swagger db plan w :
  map_get (CaseMap plan) name = None ∨ map_get (CaseMap plan) name = Some [] →
  Run (S fuel) name swagger db (plan, w)
  = (Err (ErrorString ("The following test case is not found: " +:+ name)), (plan, w))
  ∧ ∀ referring t rest,
      map_get (CaseMap plan) referring = Some (Some t :: rest) →
      Ref t = name →
      name ≠ "" →
      Run (S (S fuel)) referring swagger db (plan, w)
      = (Err (ErrorString ("The following test case is not found: " +:+ name)), (plan, w)).
Proof.
  intros Hname.
  assert (Run (S fuel) name swagger db (plan, w)
          = (Err (ErrorString ("The following test case is not found: " +:+ name)),
             (plan, w))) as Hrun.
  { cbn [Run]. unfold Run_body. by destruct Hname as [-> | ->]. }
  split; [done|]. intros referring t rest Hreferring Href Hne.
  change (Run (S (S fuel)) referring swagger db)
    with (Run_body (λ ref, Run (S fuel) ref swagger db) referring swagger db).
  unfold Run_body. rewrite Hreferring. cbn [length run_tests].
  unfold get_test. rewrite Hreferring. cbn [lookup list_lookup].
  unfold bind, Test_Run_body. rewrite Href, nonempty_length by done.
  by rewrite Hrun.
Qed.

(** X28. References that lead back never end: when the first test of a
    case refers to a case whose first test refers on, and so forth without
    end, [Run] does not return, however deep the calls may nest. *)
Theorem Run_reference_cycle (loops : string → Prop) fuel name swagger db plan w :
  refers_on plan loops →
  loops name →
  Run fuel name swagger db (plan, w) = (OutOfFuel, (plan, w)).
Proof.
  intros Hcycle. revert name. induction fuel as [|fuel IH]; intros name Hname; [done|].
  destruct (Hcycle name Hname) as (t & rest & Hcase & Href & Hnext).
  cbn [Run]. unfold Run_body. rewrite Hcase. cbn [length run_tests].
  unfold get_test. rewrite Hcase. cbn [lookup list_lookup].
  unfold bind, Test_Run_body. rewrite nonempty_length by done.
  by rewrite IH.
Qed.

(** X29. Only GET is implemented: a test that refers to no case and whose
    method is not [GET] never runs to success. [Test.Run] resolves its
    parameters first; when that fails it ends as [ResolveParameters] does,
    and otherwise with the error of the unknown method; no request is
    made. *)
Theorem Test_Run_only_GET fuel swagger db name i t plan w :
  Ref t = "" →
  Method t ≠ MethodGet →
  fst (Test_Run fuel swagger db name i t (plan, w))
  = match fst (ResolveParameters swagger db plan (t, w)) with
    | Ok _ =>
      Err (ErrorString ("Unknow method in test " +:+ Name t +:+ ": " +:+ Method t))
    | other => other
    end
  ∧ snd (snd (Test_Run fuel swagger db name i t (plan, w)))
    = snd (snd (ResolveParameters swagger db plan (t, w))).
Proof.
  intros Href Hmethod. unfold Test_Run, Test_Run_body. rewrite Href. cbn [negb].
  change (String.length "" =? 0)%nat with true. cbv iota.
  pose proof (ResolveParameters_fields swagger db plan t w) as (Hn & _ & Hm & _).
  destruct (ResolveParameters swagger db plan (t, w)) as [r [t' w']]. cbn in *.
  destruct r as [[]| | |]; try done.
  rewrite decide_False by (by rewrite Hm). by rewrite Hn, Hm.
Qed.

(** Assigning to a test what it holds changes nothing. *)
Lemma set_test_same plan name i t :
  get_test plan name i = Some (Some t) → set_test plan name i t = plan.
Proof.
  unfold get_test, set_test, map_get. destruct plan as [[cases|] caseList]; [|done].
  cbn. destruct (cases !! name) as [tc|] eqn:Hcase; [|done]. intros Ht.
  do 2 f_equal. apply map_eq. intros k. destruct (decide (name = k)) as [<-|Hne].
  - rewrite lookup_alter_eq, Hcase. cbn. unfold TestCase in *.
    by rewrite list_insert_id.
  - by rewrite lookup_alter_ne.
Qed.

Lemma ResolveParameters_supplied swagger db plan t w op :
  getOperationByMethod (default no_PathItem (Paths swagger !! Path t)) (Method t) = Some op →
  first_missing t op = None →
  ResolveParameters swagger db plan (t, w) = (Ok tt, (t, w)).
Proof.
  intros Hop Hnone. unfold ResolveParameters. rewrite Hop.
  rewrite resolve_loop_first_missing. unfold first_missing in Hnone.
  by destruct (list_find _ (OpParameters op)).
Qed.

(** The loop of [Run] over tests that are ready, when every request
    succeeds. *)
Lemma run_tests_ready (run : string → M (TestPlan * World) unit) swagger db name plan
  (tc : list Test) readings0 consumed0 todo i :
  map_get (CaseMap plan) name = Some (Some <$> tc) →
  Forall (ready swagger) tc →
  (∀ j t, tc !! j = Some t →
          resty_Get (BasePath swagger +:+ "/" +:+ Path t) (Parameters t)
            (readings0 (consumed0 + j)%nat) = None) →
  (i + todo)%nat = length tc →
  run_tests (Test_Run_body run swagger db name) name todo i
    (plan, mkWorld readings0 (consumed0 + i))
  = (Ok tt, (plan, mkWorld readings0 (consumed0 + i + todo))).
Proof.
  intros Hcase Hready Hrequests. revert i.
  induction todo as [|todo IH]; intros i Hi.
  { cbn. by rewrite Nat.add_0_r. }
  cbn [run_tests].
  destruct (lookup_lt_is_Some_2 tc i ltac:(lia)) as [t Ht].
  assert (get_test plan name i = Some (Some t)) as Hget.
  { unfold get_test. rewrite Hcase. unfold TestCase.
    by rewrite list_lookup_fmap, Ht. }
  rewrite Hget.
  destruct (proj1 (Forall_lookup _ _) Hready i t Ht) as (Href & Hmethod & op & Hop & Hnone).
  erewrite bind_Ok.
  - rewrite (IH (S i)) by lia. do 3 f_equal. lia.
  - unfold Test_Run_body. rewrite Href. change (String.length "" =? 0)%nat with true.
    cbn [negb]. rewrite (ResolveParameters_supplied _ _ _ _ _ op) by done.
    rewrite set_test_same, decide_True by done.
    cbn [read readings consumed]. rewrite Hrequests by done.
    do 3 f_equal. lia.
Qed.

(** X30. A case of tests that are ready (no reference, the method [GET],
    the operation in the document, every declared parameter supplied) is
    run as one request per test, in the order of the case, each taking one
    reading from outside; when every request succeeds, [Run] succeeds and
    the plan is as before. *)
Theorem Run_ready_case fuel name swagger db plan w (tc : list Test) :
  map_get (CaseMap plan) name = Some (Some <$> tc) →
  tc ≠ [] →
  Forall (ready swagger) tc →
  (∀ j t, tc !! j = Some t →
          resty_Get (BasePath swagger +:+ "/" +:+ Path t) (Parameters t)
            (readings w (consumed w + j)%nat) = None) →
  Run (S fuel) name swagger db (plan, w)
  = (Ok tt, (plan, mkWorld (readings w) (consumed w + length tc))).
Proof.
  intros Hcase Hne Hready Hrequests. cbn [Run]. unfold Run_body. rewrite Hcase.
  destruct tc as [|t rest] eqn:Htc; [done|]. rewrite <- Htc in *.
  replace (Some <$> tc) with (Some t :: (Some <$> rest)) by (by rewrite Htc).
  replace (length (Some t :: (Some <$> rest))) with (length tc)
    by (by rewrite Htc; cbn; rewrite length_fmap).
  pose proof (run_tests_ready (λ ref, Run fuel ref swagger db) swagger db name plan tc
                (readings w) (consumed w) (length tc) 0 Hcase Hready Hrequests eq_refl)
    as Hloop.
  rewrite !Nat.add_0_r in Hloop. by destruct w.
Qed.

End running.

(** ** Loading, generating and running, on examples *)

Section plan_more_examples.
Import mqplan Examples.
Local Existing Instances libs plan_libs server.

(** The case of the first document has no nil test. *)
Lemma first_document_tests name (testCase : TestCase) :
  ({["smoke" := [Some list_pets]]} : gmap string TestCase) !! name = Some testCase →
  None ∉ testCase.
Proof.
  intros Hcase. apply lookup_singleton_Some in Hcase as [_ <-].
  intros Hin. apply elem_of_cons in Hin as [Hin|Hin]; [discriminate Hin|].
  by apply elem_of_nil in Hin.
Qed.


(** The plan file [smoke.yml] has one document. *)
Lemma InitFromFile_single_document_example :
  @InitFromFile libs smoke_libs "smoke.yml" looping
  = (Ok tt,
     mkTestPlan (Some {["smoke" := [Some (mkTest "list pets" "/pet" "GET" "" None)]]})
       [[Some (mkTest "list pets" "/pet" "GET" "" None)]]).
Proof.
  exact (@InitFromFile_single_document libs smoke_libs "smoke.yml" first_document
           {["smoke" := [Some list_pets]]} looping eq_refl eq_refl eq_refl
           first_document_tests).
Defined.

(** The parameter [status] gets one of its three values. *)
Lemma generateParameter_enum_example :
  ∃ e,
    e ∈ [VString "available"; VString "pending"; VString "sold"]
    ∧ generateParameter status_param empty_store world
      = (Ok (VString (sprint e)), mkWorld (readings world) 1).
Proof.
  exact (generateParameter_enum status_param empty_store world eq_refl
           ltac:(discriminate)).
Defined.

(** An array of one or two tags. *)
Lemma generateArray_length_example :
  fst (generateArray (λ s v prefix, generateByType s v prefix) (Simple tags_param)
         (Validations tags_param) "tags-" world)
  = Ok (VArray [VString "tags--7919"])
  ∧ ∃ ar,
      VArray [VString "tags--7919"] = VArray ar
      ∧ ((1 < 3 ∧ 1 ≤ Z.of_nat (length ar) < 3)
         ∨ (3 < 1 ∧ Z.of_nat (length ar) = 1)).
Proof.
  split; [vm_compute; reflexivity|].
  apply (proj2 (generateArray_length (λ s v prefix, generateByType s v prefix)
                  (Simple tags_param) (Validations tags_param) "tags-" world)
           (VArray [VString "tags--7919"]) (mkWorld (readings world) 2)).
  vm_compute. reflexivity.
Defined.

(** A plan that was never initialised has no case. *)
Lemma Run_unknown_case_example :
  Run 1 "smoke" petstore empty_store (no_plan, world)
  = (Err (ErrorString "The following test case is not found: smoke"), (no_plan, world)).
Proof.
  apply (proj1 (Run_unknown_case 0 "smoke" petstore empty_store no_plan world
                  (or_introl eq_refl))).
Defined.

(** Running a case that holds a nil test panics. *)
Lemma Run_null_test :
  Run 1 "smoke" petstore empty_store (null_plan, world)
  = (Panic "invalid memory address or nil pointer dereference", (null_plan, world)).
Proof. vm_compute. reflexivity. Qed.

(** The case [loop] refers to itself. *)
Lemma Run_reference_cycle_example :
  Run 100 "loop" petstore empty_store (looping, world) = (OutOfFuel, (looping, world)).
Proof.
  apply (Run_reference_cycle (λ name, name = "loop")); [|reflexivity].
  intros name ->. exists again, []. split; [reflexivity|]. split; [discriminate|reflexivity].
Defined.

(** A test for POST on a document that has the operation. *)
Lemma Test_Run_only_GET_example :
  fst (Test_Run 1 shelter empty_store "create" 0 create_pet (empty_plan, world))
  = Err (ErrorString "Unknow method in test create pet: POST")
  ∧ snd (snd (Test_Run 1 shelter empty_store "create" 0 create_pet (empty_plan, world)))
    = world.
Proof.
  apply (Test_Run_only_GET 1 shelter empty_store "create" 0 create_pet empty_plan world).
  - reflexivity.
  - discriminate.
Defined.

(** Two requests for the pet 7. *)
Lemma Run_ready_case_example :
  Run 1 "lookup" petstore empty_store (lookups, world)
  = (Ok tt, (lookups, mkWorld (readings world) 2)).
Proof.
  apply (Run_ready_case 0 "lookup" petstore empty_store lookups world
           [get_pet_7; get_pet_7]).
  - reflexivity.
  - discriminate.
  - repeat constructor; exists (mkOperation [uuid_param]); split; reflexivity.
  - reflexivity.
Defined.

End plan_more_examples.
